(** * Orb Cascade: a shallow embedding of [main.js]

    The simulation core of the game is embedded function by function:
    the xorshift generator [rand], the obstacle classes, [Board.generate],
    [Orb.update], the scoring handlers assigned on [Board.prototype], the
    launch path and the flow block of [tick].

    Numbers.  A JavaScript number is read as a real number ([R]): rounding,
    infinities and NaN of IEEE doubles are not represented.  The 32-bit
    integer operators used by [rand] are modelled on [Z] with their
    wrap-around written out.  Counters that the code only ever moves by
    one ([combo], [shotsLeft], [orbIndex]) are integers. *)

From Stdlib Require Import Reals Lra Lia ZArith List Bool Zfloor.
Import ListNotations.

Local Open Scope R_scope.

(** ** Runtime primitives *)

Module JS.

(** Comparisons of numbers, as booleans. *)
Definition ltb (x y : R) : bool := if Rlt_dec x y then true else false.
Definition leb (x y : R) : bool := if Rle_dec x y then true else false.
Definition gtb (x y : R) : bool := ltb y x.
Definition geb (x y : R) : bool := leb y x.
Definition eqb (x y : R) : bool := if Req_dec_T x y then true else false.

(** [ToUint32] and [ToInt32] on an integral number. *)
Definition two32 : Z := 4294967296%Z.
Definition ToUint32 (z : Z) : Z := (z mod two32)%Z.
Definition ToInt32 (z : Z) : Z := ((z + 2147483648) mod two32 - 2147483648)%Z.

(** [a << n], [a >>> n] and [a ^ b] on 32-bit operands. *)
Definition shl (a n : Z) : Z := ToInt32 (Z.shiftl (ToInt32 a) n).
Definition ushr (a n : Z) : Z := Z.shiftr (ToUint32 a) n.
Definition xor (a b : Z) : Z := ToInt32 (Z.lxor (ToInt32 a) (ToInt32 b)).

(** [Math.floor], [Math.round] (ties go up), [Math.hypot] on two
    arguments, [Math.atan2], and [Math.pow] for a positive base, which is
    how the code uses it (the zone rates of the configuration): for a base
    that is 0 or negative [Math.pow] has values ([0], [NaN], [Infinity])
    that [Rpower] does not give, so what is proved about the value of
    [pow] assumes a positive base. *)
Definition floor (x : R) : Z := Zfloor x.
Definition round (x : R) : R := IZR (Zfloor (x + 0.5)).
Definition hypot (x y : R) : R := sqrt (x * x + y * y).
Definition pow (b e : R) : R := Rpower b e.
Definition atan2 (y x : R) : R :=
  if ltb 0 x then atan (y / x)
  else if ltb x 0 then (if leb 0 y then atan (y / x) + PI else atan (y / x) - PI)
  else if ltb 0 y then PI / 2
  else if ltb y 0 then - PI / 2
  else 0.

(** [arr[i]] for an integral index: [undefined] outside the array. *)
Definition index {A : Type} (l : list A) (i : Z) : option A :=
  if (i <? 0)%Z then None else nth_error l (Z.to_nat i).

End JS.

Definition VIRTUAL_W : R := 720.
Definition VIRTUAL_H : R := 1280.

(** [clamp = (v, a, b) => Math.max(a, Math.min(b, v))] *)
Definition clamp (v a b : R) : R := Rmax a (Rmin b v).

(** ** The generator [rand]

    [rand(seed)] returns a closure over the 32-bit state [x].  The closure
    is modelled by its state; one call is [rng_call], which returns the
    drawn number and the next state. *)

Definition rand (seed : Z) : Z := JS.ToUint32 seed.

Definition rng_step (x : Z) : Z :=
  let x := JS.xor x (JS.shl x 13) in
  let x := JS.ToUint32 x in
  let x := JS.xor x (JS.ushr x 17) in
  let x := JS.xor x (JS.shl x 5) in
  let x := JS.ToUint32 x in
  x.

Definition rng_call (x : Z) : R * Z :=
  let x' := rng_step x in
  (IZR (JS.ToUint32 x') / 4294967295, x').

(** ** Obstacles *)

Record Vec2 := mkVec2 { vx : R; vy : R }.

Inductive ZoneType := accel | drag | other_zone.
Inductive PortalKind := blue | purple | gold.

Definition ZoneType_eqb (a b : ZoneType) : bool :=
  match a, b with
  | accel, accel | drag, drag | other_zone, other_zone => true
  | _, _ => false
  end.

Definition PortalKind_eqb (a b : PortalKind) : bool :=
  match a, b with
  | blue, blue | purple, purple | gold, gold => true
  | _, _ => false
  end.

Record Panel := mkPanel { p_a : Vec2; p_b : Vec2; restitution : R }.

Record Zone := mkZone { z_x : R; z_y : R; z_w : R; z_h : R; z_type : ZoneType }.

(** [partner] is a reference to the other warp of the pair; it is kept as
    that warp's id and resolved in the board's [warps] array. *)
Record Warp := mkWarp { w_x : R; w_y : R; w_r : R; w_id : nat; partner : option nat }.

Record Gate := mkGate { g_a : Vec2; g_b : Vec2; g_id : nat }.

(** [kind] is [kinds[...]], which is [undefined] ([None]) for an index
    outside the array. *)
Record Portal := mkPortal { pt_x : R; pt_y : R; pt_w : R; pt_h : R; kind : option PortalKind }.

(** [new Panel(x1,y1,x2,y2)] with the default restitution. *)
Definition new_Panel (x1 y1 x2 y2 : R) : Panel :=
  mkPanel (mkVec2 x1 y1) (mkVec2 x2 y2) 0.95.

(** [new Warp(x,y,r,id)]: the partner starts out [null]. *)
Definition new_Warp (x y r : R) (id : nat) : Warp := mkWarp x y r id None.

Definition set_partner (w : Warp) (other : Warp) : Warp :=
  mkWarp (w_x w) (w_y w) (w_r w) (w_id w) (Some (w_id other)).

Definition new_Gate (x1 y1 x2 y2 : R) (id : nat) : Gate :=
  mkGate (mkVec2 x1 y1) (mkVec2 x2 y2) id.

(** ** Configuration

    [config.json] is read at startup; its content is a parameter of the
    whole development. *)

Record Preset := mkPreset {
  preset_panels : list (R * R * R * R);
  preset_zones : option (list (R * R * R * R * ZoneType));
  preset_warps : option (list (R * R * R * R * R));
  preset_gates : option (list (R * R * R * R));
  preset_portals : option nat
}.

Record Config := mkConfig {
  orbRadius : R;
  physics_gravity : R;
  physics_v_max : R;
  physics_v_min : R;
  physics_accelPerFrame : R;
  physics_dragPerFrame : R;
  warp_cooldown : R;
  fire_min : R;
  fire_max : R;
  shotsPerGame : Z;
  scores_portals : PortalKind -> R;
  scores_gate : R;
  scores_energy_gold : R;
  scores_energy_default : R;
  scores_energy_onMiss : R;
  scores_energy_gate : R;
  bonus_baseProb : R;
  bonus_cap : R;
  flow_baseDuration : R;
  flow_scoreMultiplier : R;
  flow_energyMultiplier : R;
  flow_extendProb : R;
  flow_extendSeconds : R;
  flow_extendCap : R;
  board_presets : list Preset
}.

(** ** The board *)

Record Board := mkBoard {
  panels : list Panel;
  zones : list Zone;
  warps : list Warp;
  gates : list Gate;
  portals : list Portal;
  seed : Z;
  rng : Z
}.

Definition kinds : list PortalKind := [blue; purple; gold].

(** [x || d] on an optional array. *)
Definition or_empty {A : Type} (o : option (list A)) : list A :=
  match o with Some l => l | None => [] end.

Section Generate.

Variable CONFIG : Config.

(** [jitter = (v) => v + (this.rng()-0.5)*60] *)
Definition jitter (v : R) (x : Z) : R * Z :=
  let (r, x) := rng_call x in
  (v + (r - 0.5) * 60, x).

(** The panel loop: the four coordinates are jittered left to right. *)
Fixpoint gen_panels (segs : list (R * R * R * R)) (x : Z) : list Panel * Z :=
  match segs with
  | [] => ([], x)
  | (s0, s1, s2, s3) :: rest =>
      let (j0, x) := jitter s0 x in
      let (j1, x) := jitter s1 x in
      let (j2, x) := jitter s2 x in
      let (j3, x) := jitter s3 x in
      let (ps, x) := gen_panels rest x in
      (new_Panel j0 j1 j2 j3 :: ps, x)
  end.

Definition gen_zones (zs : list (R * R * R * R * ZoneType)) : list Zone :=
  map (fun z => match z with (z0, z1, z2, z3, z4) => mkZone z0 z1 z2 z3 z4 end) zs.

(** The warp loop, with the running id [wid]. *)
Fixpoint gen_warps (ws : list (R * R * R * R * R)) (wid : nat) : list Warp :=
  match ws with
  | [] => []
  | (w0, w1, w2, w3, w4) :: rest =>
      let wa := new_Warp w0 w1 w2 wid in
      let wb := new_Warp w3 w4 w2 (S wid) in
      let wa' := set_partner wa wb in
      let wb' := set_partner wb wa in
      wa' :: wb' :: gen_warps rest (S (S wid))
  end.

Fixpoint gen_gates (gs : list (R * R * R * R)) (gid : nat) : list Gate :=
  match gs with
  | [] => []
  | (g0, g1, g2, g3) :: rest => new_Gate g0 g1 g2 g3 gid :: gen_gates rest (S gid)
  end.

(** The portal loop [for(let i=0;i<count;i++)]: [todo] iterations remain,
    the loop variable is [i]. *)
Fixpoint gen_portals (todo : nat) (i : nat) (gap baseY w h : R) (x : Z)
  : list Portal * Z :=
  match todo with
  | O => ([], x)
  | S todo' =>
      let px := gap + INR i * (w + gap) in
      let (r, x) := rng_call x in
      let k := JS.index kinds (JS.floor (r * INR (length kinds))) in
      let (ps, x) := gen_portals todo' (S i) gap baseY w h x in
      (mkPortal px baseY w h k :: ps, x)
  end.

(** [preset.portals || 3]: a missing count and the count 0 both give 3. *)
Definition portal_count (p : Preset) : nat :=
  match preset_portals p with
  | Some (S n) => S n
  | _ => 3%nat
  end.

(** The preset drawn by [generate], with the generator state after the
    draw.  [None] is the [undefined] read by [presets[pidx]] when the
    index falls outside the list. *)
Definition choose_preset (x : Z) : option Preset * Z :=
  let presets := board_presets CONFIG in
  let (r, x) := rng_call x in
  let pidx := JS.floor (r * INR (length presets)) in
  (JS.index presets pidx, x).

(** [Board.generate], on the generator state of a fresh board.  [None]
    is the TypeError raised by [preset.panels] on an [undefined] preset. *)
Definition generate (seed0 : Z) (x : Z) : option Board :=
  let (op, x) := choose_preset x in
  match op with
  | None => None
  | Some preset =>
      let (ps, x) := gen_panels (preset_panels preset) x in
      let zs := gen_zones (or_empty (preset_zones preset)) in
      let ws := gen_warps (or_empty (preset_warps preset)) 1 in
      let gs := gen_gates (or_empty (preset_gates preset)) 1 in
      let baseY := VIRTUAL_H - 110 in
      let count := portal_count preset in
      let w := 160 in
      let h := 70 in
      let gap := (VIRTUAL_W - INR count * w) / (INR count + 1) in
      let (pts, x) := gen_portals count 0 gap baseY w h x in
      Some (mkBoard ps zs ws gs pts seed0 x)
  end.

(** [new Board(seed)] *)
Definition new_Board (seed0 : Z) : option Board :=
  generate seed0 (rand seed0).

End Generate.

(** ** The orb *)

Record Orb := mkOrb {
  pos : Vec2;
  vel : Vec2;
  radius : R;
  gatePassed : list nat;
  warpCooldown : R;
  alive : bool;
  id : Z
}.

Definition set_pos (o : Orb) (p : Vec2) : Orb :=
  mkOrb p (vel o) (radius o) (gatePassed o) (warpCooldown o) (alive o) (id o).
Definition set_vel (o : Orb) (v : Vec2) : Orb :=
  mkOrb (pos o) v (radius o) (gatePassed o) (warpCooldown o) (alive o) (id o).
Definition set_gatePassed (o : Orb) (s : list nat) : Orb :=
  mkOrb (pos o) (vel o) (radius o) s (warpCooldown o) (alive o) (id o).
Definition set_warpCooldown (o : Orb) (c : R) : Orb :=
  mkOrb (pos o) (vel o) (radius o) (gatePassed o) c (alive o) (id o).
Definition set_alive (o : Orb) (b : bool) : Orb :=
  mkOrb (pos o) (vel o) (radius o) (gatePassed o) (warpCooldown o) b (id o).

(** [Set.has] and [Set.add] on the set of gate ids. *)
Definition Set_has (s : list nat) (k : nat) : bool := existsb (Nat.eqb k) s.
Definition Set_add (s : list nat) (k : nat) : list nat :=
  if Set_has s k then s else s ++ [k].
Definition Set_size (s : list nat) : nat := length s.

(** ** Collision predicates of the obstacle classes *)

(** [Panel.distToPoint] *)
Definition Panel_distToPoint (p : Panel) (q : Vec2) : R :=
  let ax := vx (p_a p) in let ay := vy (p_a p) in
  let bx := vx (p_b p) in let by_ := vy (p_b p) in
  let vx_ := bx - ax in let vy_ := by_ - ay in
  let wx := vx q - ax in let wy := vy q - ay in
  let l2 := vx_ * vx_ + vy_ * vy_ in
  let t := (vx_ * wx + vy_ * wy) / l2 in
  let t := Rmax 0 (Rmin 1 t) in
  let cx := ax + vx_ * t in let cy := ay + vy_ * t in
  let dx := vx q - cx in let dy := vy q - cy in
  JS.hypot dx dy.

(** [Panel.normalAtClosest]: [None] is the [null] result. *)
Definition Panel_normalAtClosest (p : Panel) (q : Vec2) : option Vec2 :=
  let ax := vx (p_a p) in let ay := vy (p_a p) in
  let bx := vx (p_b p) in let by_ := vy (p_b p) in
  let vx_ := bx - ax in let vy_ := by_ - ay in
  let l2 := vx_ * vx_ + vy_ * vy_ in
  if JS.eqb l2 0 then None else
  let t := ((vx q - ax) * vx_ + (vy q - ay) * vy_) / l2 in
  let t := Rmax 0 (Rmin 1 t) in
  let cx := ax + vx_ * t in let cy := ay + vy_ * t in
  let nx := vx q - cx in let ny := vy q - cy in
  let len := JS.hypot nx ny in
  if JS.eqb len 0 then None else
  Some (mkVec2 (nx / len) (ny / len)).

(** [Zone.contains], [Warp.contains], [Portal.contains] *)
Definition Zone_contains (z : Zone) (px py : R) : bool :=
  JS.geb px (z_x z) && JS.leb px (z_x z + z_w z) &&
  JS.geb py (z_y z) && JS.leb py (z_y z + z_h z).

Definition Warp_contains (w : Warp) (px py : R) : bool :=
  JS.leb ((px - w_x w) * (px - w_x w) + (py - w_y w) * (py - w_y w)) (w_r w * w_r w).

Definition Portal_contains (p : Portal) (px py : R) : bool :=
  JS.geb px (pt_x p) && JS.leb px (pt_x p + pt_w p) &&
  JS.geb py (pt_y p) && JS.leb py (pt_y p + pt_h p).

(** [Gate.checkPass] *)
Definition Gate_checkPass (g : Gate) (orb : Orb) : bool :=
  let ox := vx (pos orb) in let oy := vy (pos orb) in
  let ax := vx (g_a g) in let ay := vy (g_a g) in
  let bx := vx (g_b g) in let by_ := vy (g_b g) in
  let vx_ := bx - ax in let vy_ := by_ - ay in
  let wx := ox - ax in let wy := oy - ay in
  let l2 := vx_ * vx_ + vy_ * vy_ in
  if JS.eqb l2 0 then false else
  let t := (vx_ * wx + vy_ * wy) / l2 in
  if JS.ltb t 0 || JS.gtb t 1 then false else
  let cx := ax + vx_ * t in let cy := ay + vy_ * t in
  let dist := JS.hypot (ox - cx) (oy - cy) in
  JS.leb dist (radius orb + 2).

(** The warp a [partner] reference points to. *)
Definition deref_warp (b : Board) (r : option nat) : option Warp :=
  match r with
  | None => None
  | Some i => find (fun w => Nat.eqb (w_id w) i) (warps b)
  end.

(** ** Game state *)

Record Shot := mkShot { portalKind : option PortalKind; missed : bool }.

(** The [gameState] object.  [currentOrb] is a reference into the store
    of orb objects ([None] is [null]). *)
Record GameState := mkGameState {
  score : R;
  shotsLeft : Z;
  energy : R;
  combo : Z;
  isFlow : bool;
  flowTimeLeft : R;
  rngSeed : Z;
  recentShots : list Shot;
  currentOrb : option nat;
  orbIndex : Z;
  board : option Board;
  highScore : R
}.

Definition set_score (g : GameState) (v : R) : GameState :=
  mkGameState v (shotsLeft g) (energy g) (combo g) (isFlow g) (flowTimeLeft g)
    (rngSeed g) (recentShots g) (currentOrb g) (orbIndex g) (board g) (highScore g).
Definition set_shotsLeft (g : GameState) (v : Z) : GameState :=
  mkGameState (score g) v (energy g) (combo g) (isFlow g) (flowTimeLeft g)
    (rngSeed g) (recentShots g) (currentOrb g) (orbIndex g) (board g) (highScore g).
Definition set_energy (g : GameState) (v : R) : GameState :=
  mkGameState (score g) (shotsLeft g) v (combo g) (isFlow g) (flowTimeLeft g)
    (rngSeed g) (recentShots g) (currentOrb g) (orbIndex g) (board g) (highScore g).
Definition set_combo (g : GameState) (v : Z) : GameState :=
  mkGameState (score g) (shotsLeft g) (energy g) v (isFlow g) (flowTimeLeft g)
    (rngSeed g) (recentShots g) (currentOrb g) (orbIndex g) (board g) (highScore g).
Definition set_isFlow (g : GameState) (v : bool) : GameState :=
  mkGameState (score g) (shotsLeft g) (energy g) (combo g) v (flowTimeLeft g)
    (rngSeed g) (recentShots g) (currentOrb g) (orbIndex g) (board g) (highScore g).
Definition set_flowTimeLeft (g : GameState) (v : R) : GameState :=
  mkGameState (score g) (shotsLeft g) (energy g) (combo g) (isFlow g) v
    (rngSeed g) (recentShots g) (currentOrb g) (orbIndex g) (board g) (highScore g).
Definition set_recentShots (g : GameState) (v : list Shot) : GameState :=
  mkGameState (score g) (shotsLeft g) (energy g) (combo g) (isFlow g) (flowTimeLeft g)
    (rngSeed g) v (currentOrb g) (orbIndex g) (board g) (highScore g).
Definition set_currentOrb (g : GameState) (v : option nat) : GameState :=
  mkGameState (score g) (shotsLeft g) (energy g) (combo g) (isFlow g) (flowTimeLeft g)
    (rngSeed g) (recentShots g) v (orbIndex g) (board g) (highScore g).
Definition set_orbIndex (g : GameState) (v : Z) : GameState :=
  mkGameState (score g) (shotsLeft g) (energy g) (combo g) (isFlow g) (flowTimeLeft g)
    (rngSeed g) (recentShots g) (currentOrb g) v (board g) (highScore g).
Definition set_highScore (g : GameState) (v : R) : GameState :=
  mkGameState (score g) (shotsLeft g) (energy g) (combo g) (isFlow g) (flowTimeLeft g)
    (rngSeed g) (recentShots g) (currentOrb g) (orbIndex g) (board g) v.

(** The calls [update] makes on the board's callbacks. *)
Inductive Event :=
| GatePassed (gate_id : nat)
| PortalEntered (k : option PortalKind)
| Miss.

(** Everything outside the orb objects that the handlers read or write:
    the [gameState] object, the ['oc_highscore'] entry of [localStorage],
    [Math.random] (the stream of its results and the number of draws made
    so far), the flash variables set by [playBonusAnimation], and
    [lastTs]. *)
Record Env := mkEnv {
  gameState : GameState;
  oc_highscore : option R;
  random : nat -> R;
  draws : nat;
  flashTimer : R;
  flashStrong : bool;
  lastTs : R
}.

Definition set_gameState (e : Env) (g : GameState) : Env :=
  mkEnv g (oc_highscore e) (random e) (draws e) (flashTimer e) (flashStrong e) (lastTs e).
Definition on_gameState (f : GameState -> GameState) (e : Env) : Env :=
  set_gameState e (f (gameState e)).
Definition setItem_oc_highscore (e : Env) (v : R) : Env :=
  mkEnv (gameState e) (Some v) (random e) (draws e) (flashTimer e) (flashStrong e) (lastTs e).
Definition set_flash (e : Env) (t : R) (strong : bool) : Env :=
  mkEnv (gameState e) (oc_highscore e) (random e) (draws e) t strong (lastTs e).
Definition set_lastTs (e : Env) (t : R) : Env :=
  mkEnv (gameState e) (oc_highscore e) (random e) (draws e) (flashTimer e) (flashStrong e) t.

(** [Math.random()] *)
Definition Math_random (e : Env) : R * Env :=
  (random e (draws e),
   mkEnv (gameState e) (oc_highscore e) (random e) (S (draws e)) (flashTimer e)
     (flashStrong e) (lastTs e)).

(** The store of orb objects, by address. *)
Definition Heap := nat -> option Orb.

Definition heap_set (h : Heap) (a : nat) (o : Orb) : Heap :=
  fun a' => if Nat.eqb a' a then Some o else h a'.

(** The whole state: the orb store with its next free address, the
    environment, and the record of the callback calls made by [update]. *)
Record World := mkWorld {
  heap : Heap;
  next_addr : nat;
  env : Env;
  events : list Event
}.

(** The three callback properties of a board: [board.onGatePassed],
    [board.onPortalEntered] and [board.onMiss].  A callback reads the orb
    store and changes the environment.  [update] is embedded for any
    callbacks, since which functions a board carries is decided outside
    [update]: see [Board_prototype] below. *)
Record Callbacks := mkCallbacks {
  onGatePassed : Gate -> Heap -> Env -> Env;
  onPortalEntered : Portal -> Heap -> Env -> Env;
  onMiss : nat -> Heap -> Env -> Env
}.

Section Game.

Variable CONFIG : Config.

(** *** [Orb.update]: the blocks that touch only the orb *)

Definition scale_vel (o : Orb) (s : R) : Orb :=
  set_vel o (mkVec2 (vx (vel o) * s) (vy (vel o) * s)).

(** [this.vel.y += CONFIG.physics.gravity * dt] *)
Definition gravity_step (dt : R) (o : Orb) : Orb :=
  set_vel o (mkVec2 (vx (vel o)) (vy (vel o) + physics_gravity CONFIG * dt)).

(** The two speed tests; [speed] is computed once, before both. *)
Definition clamp_step (o : Orb) : Orb :=
  let speed := JS.hypot (vx (vel o)) (vy (vel o)) in
  let o :=
    if JS.gtb speed (physics_v_max CONFIG)
    then scale_vel o (physics_v_max CONFIG / speed)
    else o in
  let o :=
    if JS.ltb speed (physics_v_min CONFIG)
    then scale_vel o (physics_v_min CONFIG / (speed + 1e-6))
    else o in
  o.

(** [// move] *)
Definition move_step (dt : R) (o : Orb) : Orb :=
  set_pos o (mkVec2 (vx (pos o) + vx (vel o) * dt) (vy (pos o) + vy (vel o) * dt)).

(** [// walls reflect] *)
Definition walls_step (o : Orb) : Orb :=
  let o :=
    if JS.ltb (vx (pos o) - radius o) 0
    then set_vel (set_pos o (mkVec2 (radius o) (vy (pos o))))
                 (mkVec2 (Rabs (vx (vel o)) * 0.95) (vy (vel o)))
    else o in
  let o :=
    if JS.gtb (vx (pos o) + radius o) VIRTUAL_W
    then set_vel (set_pos o (mkVec2 (VIRTUAL_W - radius o) (vy (pos o))))
                 (mkVec2 (- Rabs (vx (vel o)) * 0.95) (vy (vel o)))
    else o in
  let o :=
    if JS.ltb (vy (pos o) - radius o) 0
    then set_vel (set_pos o (mkVec2 (vx (pos o)) (radius o)))
                 (mkVec2 (vx (vel o)) (Rabs (vy (vel o)) * 0.95))
    else o in
  o.

(** [// zones]: the body of the loop for one zone. *)
Definition zone_step (dt : R) (o : Orb) (z : Zone) : Orb :=
  if Zone_contains z (vx (pos o)) (vy (pos o)) then
    let o :=
      if ZoneType_eqb (z_type z) accel
      then scale_vel o (JS.pow (physics_accelPerFrame CONFIG) (dt * 60))
      else o in
    let o :=
      if ZoneType_eqb (z_type z) drag
      then scale_vel o (JS.pow (physics_dragPerFrame CONFIG) (dt * 60))
      else o in
    o
  else o.

Definition zones_step (dt : R) (b : Board) (o : Orb) : Orb :=
  fold_left (zone_step dt) (zones b) o.

(** [// panels]: the body of the loop for one panel. *)
Definition panel_step (o : Orb) (p : Panel) : Orb :=
  match Panel_normalAtClosest p (pos o) with
  | None => o
  | Some n =>
      let dist := Panel_distToPoint p (pos o) in
      if JS.leb dist (radius o + 0.5) then
        let v := vel o in
        let dot := vx v * vx n + vy v * vy n in
        if JS.ltb dot 0 then
          let o := set_vel o (mkVec2 ((vx v - 2 * dot * vx n) * restitution p)
                                     ((vy v - 2 * dot * vy n) * restitution p)) in
          set_pos o (mkVec2 (vx (pos o) + vx n * (radius o - dist + 0.5))
                            (vy (pos o) + vy n * (radius o - dist + 0.5)))
        else o
      else o
  end.

Definition panels_step (b : Board) (o : Orb) : Orb :=
  fold_left panel_step (panels b) o.

(** [// warps]: the countdown, then the loop.  The boolean tells whether
    the loop left through its [break], that is, whether the orb was
    teleported. *)
Definition cooldown_step (dt : R) (o : Orb) : Orb :=
  if JS.gtb (warpCooldown o) 0
  then set_warpCooldown o (warpCooldown o - dt)
  else o.

Fixpoint warp_loop (b : Board) (ws : list Warp) (o : Orb) : Orb * bool :=
  match ws with
  | [] => (o, false)
  | w :: rest =>
      if Warp_contains w (vx (pos o)) (vy (pos o)) && JS.leb (warpCooldown o) 0 then
        match deref_warp b (partner w) with
        | Some other =>
            let o := set_pos o (mkVec2 (w_x other) (w_y other)) in
            let o := set_warpCooldown o (warp_cooldown CONFIG) in
            (o, true)
        | None => warp_loop b rest o
        end
      else warp_loop b rest o
  end.

Definition warps_step (dt : R) (b : Board) (o : Orb) : Orb * bool :=
  warp_loop b (warps b) (cooldown_step dt o).

(** Everything of [update] before the gate loop. *)
Definition physics_step (dt : R) (b : Board) (o : Orb) : Orb * bool :=
  let o := gravity_step dt o in
  let o := clamp_step o in
  let o := move_step dt o in
  let o := walls_step o in
  let o := zones_step dt b o in
  let o := panels_step b o in
  warps_step dt b o.

(** *** [Orb.update]: the blocks that call the board

    [this] is the address of the orb object; a callback sees the store
    with the orb as it is at the moment of the call. *)

Variable callbacks : Callbacks.

Fixpoint gates_loop (gs : list Gate) (this : nat) (h : Heap) (o : Orb) (e : Env)
  (log : list Event) : Orb * Env * list Event :=
  match gs with
  | [] => (o, e, log)
  | g :: rest =>
      if Gate_checkPass g o then
        if negb (Set_has (gatePassed o) (g_id g)) then
          let o := set_gatePassed o (Set_add (gatePassed o) (g_id g)) in
          let log := log ++ [GatePassed (g_id g)] in
          let e := onGatePassed callbacks g (heap_set h this o) e in
          gates_loop rest this h o e log
        else gates_loop rest this h o e log
      else gates_loop rest this h o e log
  end.

Fixpoint portals_loop (ps : list Portal) (this : nat) (h : Heap) (o : Orb) (e : Env)
  (log : list Event) : Orb * Env * list Event :=
  match ps with
  | [] => (o, e, log)
  | p :: rest =>
      if Portal_contains p (vx (pos o)) (vy (pos o)) then
        let o := set_alive o false in
        let log := log ++ [PortalEntered (kind p)] in
        let e := onPortalEntered callbacks p (heap_set h this o) e in
        portals_loop rest this h o e log
      else portals_loop rest this h o e log
  end.

(** [// out of bounds bottom] *)
Definition bounds_step (this : nat) (h : Heap) (o : Orb) (e : Env) (log : list Event)
  : Orb * Env * list Event :=
  if JS.gtb (vy (pos o) - radius o) (VIRTUAL_H + 100) then
    let o := set_alive o false in
    let log := log ++ [Miss] in
    let e := onMiss callbacks this (heap_set h this o) e in
    (o, e, log)
  else (o, e, log).

(** [Orb.update(dt, board)] on the orb stored at [this], with the flag of
    [warps_step]. *)
Definition update_flag (dt : R) (b : Board) (this : nat) (w : World) : World * bool :=
  match heap w this with
  | None => (w, false)
  | Some o =>
      let (o, warped) := physics_step dt b o in
      let '(o, e, log) := gates_loop (gates b) this (heap w) o (env w) (events w) in
      let '(o, e, log) := portals_loop (portals b) this (heap w) o e log in
      let '(o, e, log) := bounds_step this (heap w) o e log in
      (mkWorld (heap_set (heap w) this o) (next_addr w) e log, warped)
  end.

Definition update (dt : R) (b : Board) (this : nat) (w : World) : World :=
  fst (update_flag dt b this w).

End Game.

Section Session.

Variable CONFIG : Config.

(** [portalScore]: [map[kind] || map.blue].  The table has an entry for
    each of the three kinds; a zero entry is falsy. *)
Definition portalScore (k : option PortalKind) : R :=
  let map := scores_portals CONFIG in
  match k with
  | Some k' => if JS.eqb (map k') 0 then map blue else map k'
  | None => map blue
  end.

(** [arr.slice(-3)] *)
Definition slice_last3 {A : Type} (l : list A) : list A :=
  skipn (length l - 3) l.

Definition is_gold (k : option PortalKind) : bool :=
  match k with Some gold => true | _ => false end.

Definition calcBonusProb (g : GameState) : R :=
  let p := bonus_baseProb CONFIG in
  let last3 := slice_last3 (recentShots g) in
  let p := if existsb (fun s => is_gold (portalKind s)) last3 then p + 0.05 else p in
  let zeroCount := length (filter missed last3) in
  let p := if (2 <=? zeroCount)%nat then p + 0.06 else p in
  let p := if (2 <=? combo g)%Z then p + 0.03 else p in
  Rmin p (bonus_cap CONFIG).

Definition playBonusAnimation (success : bool) (e : Env) : Env :=
  set_flash e (if success then 0.8 else 0.6) success.

Definition enterFlow (e : Env) : Env :=
  on_gameState (fun g => set_flowTimeLeft (set_isFlow g true) (flow_baseDuration CONFIG)) e.

Definition doEnergyCheck (e : Env) : Env :=
  if JS.geb (energy (gameState e)) 100 then
    let e := on_gameState (fun g => set_energy g 0) e in
    let p := calcBonusProb (gameState e) in
    let (r, e) := Math_random e in
    let e := playBonusAnimation (JS.ltb r p) e in
    if JS.ltb r p then enterFlow e else e
  else e.

Definition doFlowExtendDraw (e : Env) : Env :=
  let (r, e) := Math_random e in
  if JS.ltb r (flow_extendProb CONFIG) then
    let add := flow_extendSeconds CONFIG in
    on_gameState
      (fun g => set_flowTimeLeft g (Rmin (flowTimeLeft g + add) (flow_extendCap CONFIG))) e
  else e.

(** [recentShots.push(s); if(recentShots.length > 10) recentShots.shift();] *)
Definition push_shot (l : list Shot) (s : Shot) : list Shot :=
  let l := l ++ [s] in
  if (10 <? length l)%nat then tl l else l.

(** The size of the gate set of the current orb is positive. *)
Definition currentOrb_has_gates (h : Heap) (g : GameState) : bool :=
  match currentOrb g with
  | None => false
  | Some a =>
      match h a with
      | Some o => (0 <? Set_size (gatePassed o))%nat
      | None => false
      end
  end.

(** *** The handlers assigned on [Board.prototype]

    These three functions hold the scoring logic of the game.  (The
    constructor of [Board] also stores three forwarding closures under the
    same property names; they call [gameState.onGatePassed],
    [gameState.onPortal] and [gameState.onMiss], which [gameState] does
    not define.  What is verified here is the handlers themselves.) *)

Definition Board_onPortalEntered (p : Portal) (h : Heap) (e : Env) : Env :=
  let g := gameState e in
  let base := portalScore (kind p) in
  let mult := if isFlow g then flow_scoreMultiplier CONFIG else 1 in
  let added := JS.round (base * mult) in
  let g := set_score g (score g + added) in
  let g := set_combo g (if currentOrb_has_gates h g then combo g + 1 else 1)%Z in
  let energyAdd :=
    if is_gold (kind p) then scores_energy_gold CONFIG else scores_energy_default CONFIG in
  let g := set_energy g
             (clamp (energy g + energyAdd * (if isFlow g then flow_energyMultiplier CONFIG else 1))
                    0 100) in
  let g := set_recentShots g (push_shot (recentShots g) (mkShot (kind p) false)) in
  let g := set_currentOrb g None in
  let g := set_shotsLeft g (shotsLeft g - 1)%Z in
  let e := set_gameState e g in
  let e :=
    if JS.gtb (score (gameState e)) (highScore (gameState e)) then
      let e := on_gameState (fun g => set_highScore g (score g)) e in
      setItem_oc_highscore e (highScore (gameState e))
    else e in
  doEnergyCheck e.

Definition Board_onMiss (orb : nat) (h : Heap) (e : Env) : Env :=
  let g := gameState e in
  let g := set_energy g (clamp (energy g + scores_energy_onMiss CONFIG) 0 100) in
  let g := set_recentShots g (push_shot (recentShots g) (mkShot None true)) in
  let g := set_currentOrb g None in
  let g := set_combo g 0%Z in
  let g := set_shotsLeft g (shotsLeft g - 1)%Z in
  doEnergyCheck (set_gameState e g).

Definition Board_onGatePassed (gt : Gate) (h : Heap) (e : Env) : Env :=
  let g := gameState e in
  let g := set_score g (score g + scores_gate CONFIG) in
  let g := set_energy g (clamp (energy g + scores_energy_gate CONFIG) 0 100) in
  set_gameState e g.

(** The callbacks of a board that answers with the handlers of
    [Board.prototype]. *)
Definition Board_prototype : Callbacks :=
  mkCallbacks Board_onGatePassed Board_onPortalEntered Board_onMiss.

(** *** Launching *)

Definition launchBase : Vec2 := mkVec2 (VIRTUAL_W / 2) 1220.

(** [new Orb(x,y,vx,vy,id)] *)
Definition new_Orb (x y vx0 vy0 : R) (id0 : Z) : Orb :=
  mkOrb (mkVec2 x y) (mkVec2 vx0 vy0) (orbRadius CONFIG) [] 0 true id0.

Definition spawnOrb (angleRad power : R) (w : World) : World :=
  let vx0 := cos angleRad * power in
  let vy0 := sin angleRad * power in
  let g := gameState (env w) in
  let g := set_orbIndex g (orbIndex g + 1)%Z in
  let o := new_Orb (vx launchBase) (vy launchBase) vx0 vy0 (orbIndex g) in
  let a := next_addr w in
  let g := set_currentOrb g (Some a) in
  mkWorld (heap_set (heap w) a o) (S a) (set_gameState (env w) g) (events w).

(** The guard shared by the two launch functions:
    [gameState.currentOrb || gameState.shotsLeft <= 0]. *)
Definition launch_refused (g : GameState) : bool :=
  match currentOrb g with
  | Some _ => true
  | None => (shotsLeft g <=? 0)%Z
  end.

Definition doFireAuto (w : World) : World :=
  if launch_refused (gameState (env w)) then w else
  let power := (fire_max CONFIG + fire_min CONFIG) / 2 in
  let angleDeg := -50 * PI / 180 in
  spawnOrb angleDeg power w.

Definition doFireFromInput (dx dy : R) (w : World) : World :=
  if launch_refused (gameState (env w)) then w else
  let length := JS.hypot dx dy in
  let t := clamp ((length - 10) / 200) 0 1 in
  let power := fire_min CONFIG + t * (fire_max CONFIG - fire_min CONFIG) in
  let angle := JS.atan2 dy dx in
  let angle := angle + PI in
  let deg := angle * 180 / PI in
  let clampedDeg := clamp deg (-80) (-20) in
  let rad := clampedDeg * PI / 180 in
  spawnOrb rad power w.

(** The [pointerup] listener, from the drag start and the drag position. *)
Definition on_pointerup (dragStart dragPos : Vec2) (w : World) : World :=
  let vecx := vx dragStart - vx dragPos in
  let vecy := vy dragStart - vy dragPos in
  let dist := JS.hypot vecx vecy in
  if JS.ltb dist 10 then w else doFireFromInput vecx vecy w.

(** [window.OC.spawn] *)
Definition OC_spawn (angleDeg power : R) (w : World) : World :=
  spawnOrb (angleDeg * PI / 180) power w.

(** *** The main loop *)

(** The flow block at the head of [tick]. *)
Definition flow_step (dt : R) (e : Env) : Env :=
  if isFlow (gameState e) then
    let e := on_gameState (fun g => set_flowTimeLeft g (flowTimeLeft g - dt)) e in
    if JS.leb (flowTimeLeft (gameState e)) 0 then
      let e := on_gameState (fun g => set_isFlow g false) e in
      doFlowExtendDraw e
    else e
  else e.

(** The flash countdown in the drawing part of [tick]. *)
Definition flash_step (dt : R) (e : Env) : Env :=
  if JS.gtb (flashTimer e) 0
  then set_flash e (flashTimer e - dt) (flashStrong e)
  else e.

(** [tick(ts)], without the drawing.  The board is set by [startNewGame]
    before the first tick; with no board there is nothing to update. *)
Definition tick (cb : Callbacks) (ts : R) (w : World) : World :=
  let e := env w in
  let dtRaw := (ts - lastTs e) / 1000 in
  let e := set_lastTs e ts in
  let dt := clamp dtRaw 0 0.05 in
  let e := flow_step dt e in
  let w := mkWorld (heap w) (next_addr w) e (events w) in
  let w :=
    match currentOrb (gameState (env w)), board (gameState (env w)) with
    | Some a, Some b => update CONFIG cb dt b a w
    | _, _ => w
    end in
  mkWorld (heap w) (next_addr w) (flash_step dt (env w)) (events w).

(** [startNewGame(seedOverride)]; [now] is [Date.now()] and [perf] is
    [performance.now()].  [None] is the exception of [new Board]. *)
Definition startNewGame (seedOverride : option Z) (now : Z) (perf : R) (w : World)
  : option World :=
  let s := match seedOverride with
           | Some s => s
           | None => JS.ToInt32 (Z.land (JS.ToInt32 now) (JS.ToInt32 4294967295))
           end in
  match new_Board CONFIG s with
  | None => None
  | Some b =>
      let g := gameState (env w) in
      let g := mkGameState 0 (shotsPerGame CONFIG) 0 0%Z false 0 s [] None 0%Z (Some b)
                 (highScore g) in
      Some (mkWorld (heap w) (next_addr w) (set_lastTs (set_gameState (env w) g) perf)
              (events w))
  end.

End Session.

(** ** Pointer input

    The listeners of the canvas: a drag is recorded between [pointerdown]
    and [pointerup], in virtual coordinates, and fires on release.
    [canvas.getBoundingClientRect()] is a parameter of
    [screenToVirtual]. *)

Definition CANVAS_W : R := 360.
Definition CANVAS_H : R := 640.
Definition SCALE_X : R := CANVAS_W / VIRTUAL_W.
Definition SCALE_Y : R := CANVAS_H / VIRTUAL_H.

Record DOMRect := mkDOMRect {
  rect_left : R;
  rect_top : R;
  rect_width : R;
  rect_height : R
}.

Definition screenToVirtual (rect : DOMRect) (sx sy : R) : Vec2 :=
  let cx := (sx - rect_left rect) / rect_width rect * CANVAS_W in
  let cy := (sy - rect_top rect) / rect_height rect * CANVAS_H in
  mkVec2 (cx / SCALE_X) (cy / SCALE_Y).

(** The drag variables [isDragging], [dragStart] and [dragPos]; [None] is
    the initial [null]. *)
Record Drag := mkDrag {
  isDragging : bool;
  dragStart : option Vec2;
  dragPos : option Vec2
}.

Section Input.

Variable CONFIG : Config.

(** The [pointerdown] listener. *)
Definition pointerdown (rect : DOMRect) (clientX clientY : R) (d : Drag) : Drag :=
  let p := screenToVirtual rect clientX clientY in
  mkDrag true (Some p) (Some p).

(** The [pointermove] listener. *)
Definition pointermove (rect : DOMRect) (clientX clientY : R) (d : Drag) : Drag :=
  if negb (isDragging d) then d else
  let p := screenToVirtual rect clientX clientY in
  mkDrag (isDragging d) (dragStart d) (Some p).

(** The [pointerup] listener.  While [isDragging] is set both drag points
    are set, since only [pointerdown] sets the flag. *)
Definition pointerup (d : Drag) (w : World) : Drag * World :=
  if negb (isDragging d) then (d, w) else
  let d := mkDrag false (dragStart d) (dragPos d) in
  match dragStart d, dragPos d with
  | Some s, Some p => (d, on_pointerup CONFIG s p w)
  | _, _ => (d, w)
  end.

(** The [keydown] listener for the space bar, and the click on the fire
    button. *)
Definition keydown_Space (d : Drag) (w : World) : World :=
  if negb (isDragging d) then doFireAuto CONFIG w else w.

Definition fireBtn_click (w : World) : World := doFireAuto CONFIG w.

End Input.

(** The test at the end of [tick] that stops the loop:
    [gameState.shotsLeft <= 0 && !gameState.currentOrb]. *)
Definition round_ended (g : GameState) : bool :=
  (shotsLeft g <=? 0)%Z &&
  match currentOrb g with None => true | Some _ => false end.

(** * Vocabulary of the statements *)

(** ** Notions *)

(** The number returned by the [n]-th call (from 0) of the closure whose
    state is [x]. *)
Fixpoint rng_nth (n : nat) (x : Z) : R :=
  match n with
  | O => fst (rng_call x)
  | S n' => rng_nth n' (snd (rng_call x))
  end.

(** The five obstacle collections of a board. *)
Definition obstacles (b : Board) :=
  (panels b, zones b, warps b, gates b, portals b).

(** A panel segment with every coordinate moved by [d]. *)
Definition shifted_panel (d : R) (seg : R * R * R * R) : Panel :=
  match seg with
  | (s0, s1, s2, s3) => new_Panel (s0 + d) (s1 + d) (s2 + d) (s3 + d)
  end.

(** The board built from seed 0 when [p0] is the first preset. *)
Definition board_of_seed_0 (p0 : Preset) : Board :=
  mkBoard (map (shifted_panel (-30)) (preset_panels p0))
          (gen_zones (or_empty (preset_zones p0)))
          (gen_warps (or_empty (preset_warps p0)) 1)
          (gen_gates (or_empty (preset_gates p0)) 1)
          (fst (gen_portals (portal_count p0) 0
                  ((VIRTUAL_W - INR (portal_count p0) * 160) / (INR (portal_count p0) + 1))
                  (VIRTUAL_H - 110) 160 70 0))
          0 0.

(** The amount a portal of kind [k] adds to the energy. *)
Definition portal_energy (cfg : Config) (k : option PortalKind) (flow : bool) : R :=
  (if is_gold k then scores_energy_gold cfg else scores_energy_default cfg)
  * (if flow then flow_energyMultiplier cfg else 1).

(** The power [doFireFromInput] derives from the swipe. *)
Definition swipe_power (cfg : Config) (dx dy : R) : R :=
  fire_min cfg + clamp ((JS.hypot dx dy - 10) / 200) 0 1 * (fire_max cfg - fire_min cfg).

(** The speed of an orb, as [update] computes it. *)
Definition speed (o : Orb) : R := JS.hypot (vx (vel o)) (vy (vel o)).

(** The orb as it enters the warp block. *)
Definition before_warps (cfg : Config) (dt : R) (b : Board) (o : Orb) : Orb :=
  panels_step b (zones_step cfg dt b (walls_step (move_step dt
    (clamp_step cfg (gravity_step cfg dt o))))).

Definition is_gate_event (ev : Event) : Prop :=
  match ev with GatePassed _ => True | _ => False end.

(** The gate calls of a tick: one for each gate, in board order, that the
    orb touches and has not been credited with. *)
Fixpoint gate_events (gs : list Gate) (o : Orb) : list Event :=
  match gs with
  | [] => []
  | g :: rest =>
      if Gate_checkPass g o then
        if negb (Set_has (gatePassed o) (g_id g)) then
          GatePassed (g_id g)
            :: gate_events rest (set_gatePassed o (Set_add (gatePassed o) (g_id g)))
        else gate_events rest o
      else gate_events rest o
  end.

(** The portal calls of a tick: one for each portal, in board order, that
    contains the orb. *)
Definition portal_events (ps : list Portal) (o : Orb) : list Event :=
  map (fun p => PortalEntered (kind p))
      (filter (fun p => Portal_contains p (vx (pos o)) (vy (pos o))) ps).

(** The miss call of a tick. *)
Definition miss_events (o : Orb) : list Event :=
  if JS.gtb (vy (pos o) - radius o) (VIRTUAL_H + 100) then [Miss] else [].

(** The calls made by one [update]: what it appends to the record. *)
Definition tick_events (cfg : Config) (cb : Callbacks) (dt : R) (b : Board)
  (this : nat) (w : World) : list Event :=
  skipn (length (events w)) (events (update cfg cb dt b this w)).

(** A run of updates of the same orb, one for each step length. *)
Fixpoint run_updates (cfg : Config) (cb : Callbacks) (b : Board) (this : nat)
  (dts : list R) (w : World) : World :=
  match dts with
  | [] => w
  | dt :: rest => run_updates cfg cb b this rest (update cfg cb dt b this w)
  end.

(** The simulated time of a run. *)
Definition elapsed (dts : list R) : R := fold_right Rplus 0 dts.

(** The world with the orb at [a] replaced. *)
Definition store_orb (w : World) (a : nat) (o : Orb) : World :=
  mkWorld (heap_set (heap w) a o) (next_addr w) (env w) (events w).

(** The ids of the gates credited by a list of calls, in order. *)
Fixpoint gate_ids (evs : list Event) : list nat :=
  match evs with
  | [] => []
  | GatePassed k :: rest => k :: gate_ids rest
  | _ :: rest => gate_ids rest
  end.

(** A call that ends the shot. *)
Definition is_terminal (ev : Event) : bool :=
  match ev with GatePassed _ => false | _ => true end.

(** The gap [generate] leaves between [count] portals. *)
Definition portal_gap (count : nat) : R :=
  (VIRTUAL_W - INR count * 160) / (INR count + 1).

(** The scalar product of two vectors. *)
Definition dot (u v : Vec2) : R := vx u * vx v + vy u * vy v.

(** The factor one zone applies to the velocity of an orb at [(px, py)]
    in a step of length [dt]. *)
Definition zone_factor (cfg : Config) (dt : R) (z : Zone) (px py : R) : R :=
  if Zone_contains z px py then
    (if ZoneType_eqb (z_type z) accel
     then JS.pow (physics_accelPerFrame cfg) (dt * 60) else 1)
    * (if ZoneType_eqb (z_type z) drag
       then JS.pow (physics_dragPerFrame cfg) (dt * 60) else 1)
  else 1.

(** The factor all zones of a list apply, one after the other. *)
Definition zones_factor (cfg : Config) (dt : R) (zs : list Zone) (px py : R) : R :=
  fold_right (fun z acc => zone_factor cfg dt z px py * acc) 1 zs.

(** ** Sample data

    A configuration with the physics constants of the specification's
    end-to-end scenario and a preset with one obstacle of each class. *)

Definition sample_preset : Preset :=
  mkPreset [(100, 300, 300, 340)]
           (Some [(0, 500, 720, 100, accel)])
           (Some [(200, 700, 30, 520, 900)])
           (Some [(300, 400, 420, 400)])
           (Some 3%nat).

Definition sample_scores (k : PortalKind) : R :=
  match k with blue => 100 | purple => 300 | gold => 1000 end.

(** In the order of the fields: orb radius 12; gravity 900, [v_max] 1400,
    [v_min] 50, zone rates 1.02 and 0.98; warp cooldown 0.08; fire power
    300 to 1200; 5 shots; gate score 50; energy 30 (gold), 15 (default),
    5 (miss), 10 (gate); bonus probability 0.1, capped at 0.5; flow lasting
    8 s, score multiplier 2, energy multiplier 1.5, extend probability 0.5,
    extend seconds 3, extend cap 10. *)
Definition sample_config : Config :=
  mkConfig 12 900 1400 50 1.02 0.98 0.08 300 1200 5%Z
           sample_scores 50 30 15 5 10
           0.1 0.5
           8 2 1.5 0.5 3 10
           [sample_preset].

(** A round at its start: no score, 5 shots, no orb. *)
Definition sample_gameState : GameState :=
  mkGameState 0 5%Z 0 0%Z false 0 0%Z [] None 0%Z None 0.

(** An environment in which every [Math.random()] returns 0.2, nothing is
    stored and [lastTs] is 1000. *)
Definition sample_env : Env :=
  mkEnv sample_gameState None (fun _ => 0.2) 0 0 false 1000.

Definition empty_heap : Heap := fun _ => None.

Definition sample_world : World := mkWorld empty_heap 0 sample_env [].


(** A world in which flow is on with 0.01 s left and no orb is in flight. *)
Definition flow_world : World :=
  mkWorld empty_heap 0
    (on_gameState (fun g => set_flowTimeLeft (set_isFlow g true) 0.01) sample_env) [].

(** An orb in mid-board with the given velocity. *)
Definition orb_moving (vx0 vy0 : R) : Orb :=
  mkOrb (mkVec2 360 1000) (mkVec2 vx0 vy0) 12 [] 0 true 1.

(** A hand-made board ([generate] places its portals higher) whose only
    obstacle is a portal below the miss line, and an orb falling inside
    that portal. *)
Definition low_portal : Portal := mkPortal 280 1450 160 100 (Some blue).

Definition low_board : Board := mkBoard [] [] [] [] [low_portal] 0 0.

Definition low_orb : Orb :=
  mkOrb (mkVec2 360 1500) (mkVec2 0 100) 12 [] 0 true 1.

Definition low_world : World :=
  mkWorld (heap_set empty_heap 0 low_orb) 1
          (on_gameState (fun g => set_currentOrb g (Some 0%nat)) sample_env) [].






(** A pair of warps as [generate] links them, and an orb falling at height
    [y] with speed [v] and cooldown [c]. *)
Definition warp_a : Warp := mkWarp 360 1000 50 1 (Some 2%nat).

Definition warp_b : Warp := mkWarp 360 600 50 2 (Some 1%nat).

Definition warp_board : Board := mkBoard [] [] [warp_a; warp_b] [] [] 0 0.

Definition falling (y v c : R) : Orb :=
  mkOrb (mkVec2 360 y) (mkVec2 0 v) 12 [] c true 1.

Definition warp_world (o : Orb) : World :=
  mkWorld (heap_set empty_heap 0 o) 1 sample_env [].

(** * Properties *)

(** ** Facts on the runtime primitives *)

Module JSFacts.

Lemma ltb_true x y : JS.ltb x y = true <-> x < y.
Proof. unfold JS.ltb; destruct (Rlt_dec x y); split; intros; try easy; discriminate. Qed.
Lemma ltb_false x y : JS.ltb x y = false <-> y <= x.
Proof. unfold JS.ltb; destruct (Rlt_dec x y); split; intros; try easy; try lra. Qed.
Lemma leb_true x y : JS.leb x y = true <-> x <= y.
Proof. unfold JS.leb; destruct (Rle_dec x y); split; intros; try easy; discriminate. Qed.
Lemma leb_false x y : JS.leb x y = false <-> y < x.
Proof. unfold JS.leb; destruct (Rle_dec x y); split; intros; try easy; try lra. Qed.
Lemma gtb_true x y : JS.gtb x y = true <-> y < x.
Proof. apply ltb_true. Qed.
Lemma gtb_false x y : JS.gtb x y = false <-> x <= y.
Proof. apply ltb_false. Qed.
Lemma geb_true x y : JS.geb x y = true <-> y <= x.
Proof. apply leb_true. Qed.
Lemma geb_false x y : JS.geb x y = false <-> x < y.
Proof. apply leb_false. Qed.
Lemma eqb_true x y : JS.eqb x y = true <-> x = y.
Proof. unfold JS.eqb; destruct (Req_dec_T x y); split; intros; try easy; discriminate. Qed.
Lemma eqb_false x y : JS.eqb x y = false <-> x <> y.
Proof. unfold JS.eqb; destruct (Req_dec_T x y); split; intros; try easy; discriminate. Qed.

Lemma hypot_nonneg x y : 0 <= JS.hypot x y.
Proof. apply sqrt_pos. Qed.

Lemma hypot_0_l y : 0 <= y -> JS.hypot 0 y = y.
Proof.
  intros Hy. unfold JS.hypot.
  replace (0 * 0 + y * y) with (y * y) by ring.
  now apply sqrt_square.
Qed.

Lemma hypot_0_0 : JS.hypot 0 0 = 0.
Proof. apply hypot_0_l; lra. Qed.

(** Scaling both components by a non-negative factor scales the norm. *)
Lemma hypot_scale x y s : 0 <= s -> JS.hypot (x * s) (y * s) = JS.hypot x y * s.
Proof.
  intros Hs. unfold JS.hypot.
  replace (x * s * (x * s) + y * s * (y * s)) with ((x * x + y * y) * (s * s)) by ring.
  rewrite sqrt_mult_alt by nra.
  now rewrite (sqrt_square s Hs).
Qed.

Lemma clamp_bounds v a b : a <= b -> a <= clamp v a b <= b.
Proof.
  intros Hab. unfold clamp, Rmax, Rmin.
  destruct (Rle_dec b v); destruct (Rle_dec a _); lra.
Qed.

Lemma clamp_ge v a b : b <= v -> a <= b -> clamp v a b = b.
Proof.
  intros Hv Hab. unfold clamp, Rmax, Rmin.
  destruct (Rle_dec b v); destruct (Rle_dec a _); lra.
Qed.

Lemma clamp_lt v a b : a < b -> v < b -> clamp v a b < b.
Proof.
  intros Hab Hv. unfold clamp, Rmax, Rmin.
  destruct (Rle_dec b v); destruct (Rle_dec a _); lra.
Qed.

End JSFacts.

(** Decide the comparisons of a goal whose operands are settled by linear
    arithmetic. *)
Ltac js_decide :=
  repeat match goal with
  | |- context [JS.ltb ?a ?b] =>
      first [ rewrite (proj2 (JSFacts.ltb_true a b)) by lra
            | rewrite (proj2 (JSFacts.ltb_false a b)) by lra ]
  | |- context [JS.leb ?a ?b] =>
      first [ rewrite (proj2 (JSFacts.leb_true a b)) by lra
            | rewrite (proj2 (JSFacts.leb_false a b)) by lra ]
  | |- context [JS.gtb ?a ?b] =>
      first [ rewrite (proj2 (JSFacts.gtb_true a b)) by lra
            | rewrite (proj2 (JSFacts.gtb_false a b)) by lra ]
  | |- context [JS.geb ?a ?b] =>
      first [ rewrite (proj2 (JSFacts.geb_true a b)) by lra
            | rewrite (proj2 (JSFacts.geb_false a b)) by lra ]
  | |- context [JS.eqb ?a ?b] =>
      first [ rewrite (proj2 (JSFacts.eqb_true a b)) by lra
            | rewrite (proj2 (JSFacts.eqb_false a b)) by lra ]
  end.

(** ** The generator and the board *)

Lemma rng_call_0 : rng_call 0 = (0, 0%Z).
Proof.
  unfold rng_call.
  replace (rng_step 0) with 0%Z by reflexivity.
  replace (JS.ToUint32 0) with 0%Z by reflexivity.
  f_equal. lra.
Qed.

Lemma rng_nth_0 n : rng_nth n 0 = 0.
Proof.
  induction n as [|n IH]; cbn [rng_nth]; rewrite rng_call_0; cbn [fst snd]; auto.
Qed.

Lemma jitter_0 v : jitter v 0 = (v + -30, 0%Z).
Proof.
  unfold jitter. rewrite rng_call_0. f_equal. lra.
Qed.

Lemma gen_panels_0 segs :
  gen_panels segs 0 = (map (shifted_panel (-30)) segs, 0%Z).
Proof.
  induction segs as [|[[[s0 s1] s2] s3] rest IH]; cbn [gen_panels map].
  - reflexivity.
  - rewrite !jitter_0, IH. reflexivity.
Qed.

Lemma floor_0_mul x : JS.floor (0 * x) = 0%Z.
Proof.
  unfold JS.floor. rewrite Rmult_0_l. apply (ZfloorZ 0).
Qed.

Lemma gen_portals_0 todo i gap baseY w h :
  exists ps,
    gen_portals todo i gap baseY w h 0 = (ps, 0%Z) /\
    length ps = todo /\
    Forall (fun p => kind p = Some blue) ps.
Proof.
  revert i. induction todo as [|todo IH]; intros i; cbn [gen_portals].
  - exists []. repeat split; constructor.
  - rewrite rng_call_0, floor_0_mul.
    destruct (IH (S i)) as (ps & Hps & Hlen & Hall). rewrite Hps.
    eexists. split; [reflexivity|]. split; [simpl; congruence|].
    constructor; [reflexivity | exact Hall].
Qed.

Lemma choose_preset_0 cfg p0 rest :
  board_presets cfg = p0 :: rest ->
  choose_preset cfg 0 = (Some p0, 0%Z).
Proof.
  intros Hp. unfold choose_preset. rewrite rng_call_0, floor_0_mul, Hp. reflexivity.
Qed.

Lemma new_Board_0 cfg p0 rest :
  board_presets cfg = p0 :: rest ->
  new_Board cfg 0 = Some (board_of_seed_0 p0).
Proof.
  intros Hp. unfold new_Board, generate, board_of_seed_0.
  replace (rand 0) with 0%Z by reflexivity.
  rewrite (choose_preset_0 cfg p0 rest Hp), gen_panels_0.
  match goal with
  | |- context [gen_portals ?n ?i ?g ?y ?w ?h 0] =>
      destruct (gen_portals_0 n i g y w h) as (ps & Hps & Hlen & Hall); rewrite Hps
  end.
  reflexivity.
Qed.

Lemma startNewGame_seed cfg s now perf w b :
  new_Board cfg s = Some b ->
  exists w', startNewGame cfg (Some s) now perf w = Some w' /\
             board (gameState (env w')) = Some b /\
             rngSeed (gameState (env w')) = s.
Proof.
  intros Hb. unfold startNewGame. rewrite Hb. eexists. repeat split; reflexivity.
Qed.

(** C10.  With seed 0 the generator returns 0 at every call, and a board
    built from seed 0 (as [startNewGame(0)] builds it) takes the first
    preset, moves every panel coordinate by exactly -30, and gives every
    portal the first kind, blue. *)
Theorem seed_0_board_is_degenerate
  (cfg : Config) (p0 : Preset) (rest : list Preset) (now : Z) (perf : R) (w : World) :
  board_presets cfg = p0 :: rest ->
  (forall n, rng_nth n (rand 0) = 0) /\
  fst (choose_preset cfg (rand 0)) = Some p0 /\
  exists b,
    new_Board cfg 0 = Some b /\
    (exists w', startNewGame cfg (Some 0%Z) now perf w = Some w' /\
                board (gameState (env w')) = Some b) /\
    panels b = map (shifted_panel (-30)) (preset_panels p0) /\
    length (portals b) = portal_count p0 /\
    Forall (fun p => kind p = Some blue) (portals b).
Proof.
  intros Hp.
  replace (rand 0) with 0%Z by reflexivity.
  split; [apply rng_nth_0|].
  split; [now rewrite (choose_preset_0 cfg p0 rest Hp)|].
  exists (board_of_seed_0 p0).
  pose proof (new_Board_0 cfg p0 rest Hp) as Hb.
  split; [exact Hb|]. split.
  { destruct (startNewGame_seed cfg 0 now perf w _ Hb) as (w' & Hw & Hbd & _).
    exists w'. auto. }
  split; [reflexivity|].
  unfold board_of_seed_0. cbn [portals].
  match goal with
  | |- context [gen_portals ?n ?i ?g ?y ?w ?h 0] =>
      destruct (gen_portals_0 n i g y w h) as (ps & Hps & Hlen & Hall); rewrite Hps
  end.
  cbn [fst]. auto.
Qed.

Lemma seed_0_board_is_degenerate_witness :
  board_presets sample_config = sample_preset :: [] /\
  ((forall n, rng_nth n (rand 0) = 0) /\
   fst (choose_preset sample_config (rand 0)) = Some sample_preset /\
   exists b,
     new_Board sample_config 0 = Some b /\
     (exists w', startNewGame sample_config (Some 0%Z) 1700000000000 0 sample_world
                 = Some w' /\
                 board (gameState (env w')) = Some b) /\
     panels b = map (shifted_panel (-30)) (preset_panels sample_preset) /\
     length (portals b) = portal_count sample_preset /\
     Forall (fun p => kind p = Some blue) (portals b)).
Proof.
  split; [reflexivity|].
  apply (seed_0_board_is_degenerate sample_config sample_preset []
           1700000000000 0 sample_world).
  reflexivity.
Defined.

(** *** The warp pairs of a generated board *)

Lemma gen_warps_ids ws : forall n w, In w (gen_warps ws n) -> (n <= w_id w)%nat.
Proof.
  induction ws as [|[[[[w0 w1] w2] w3] w4] ws IH]; intros n w Hin; cbn [gen_warps] in Hin.
  - destruct Hin.
  - destruct Hin as [<-|[<-|Hin]]; cbn; try lia.
    specialize (IH _ _ Hin). lia.
Qed.

Lemma find_id_skip (P L : list Warp) k :
  (forall w, In w P -> w_id w <> k) ->
  find (fun w => Nat.eqb (w_id w) k) (P ++ L) = find (fun w => Nat.eqb (w_id w) k) L.
Proof.
  induction P as [|p P IH]; intros Hne; cbn [app find]; [reflexivity|].
  rewrite (proj2 (Nat.eqb_neq _ _)) by (apply Hne; now left).
  apply IH. intros w Hw. apply Hne. now right.
Qed.

(** Ids are unique: looking a generated warp up by its id finds it. *)
Lemma gen_warps_find_own_id ws : forall n P w,
  (forall p, In p P -> (w_id p < n)%nat) ->
  In w (gen_warps ws n) ->
  find (fun w' => Nat.eqb (w_id w') (w_id w)) (P ++ gen_warps ws n) = Some w.
Proof.
  induction ws as [|[[[[w0 w1] w2] w3] w4] ws IH]; intros n P w HP Hin;
    cbn [gen_warps] in *.
  - destruct Hin.
  - destruct Hin as [<-|[<-|Hin]].
    + rewrite find_id_skip by (intros p Hp; specialize (HP p Hp); cbn; lia).
      cbn. now rewrite Nat.eqb_refl.
    + rewrite find_id_skip by (intros p Hp; specialize (HP p Hp); cbn; lia).
      cbn. rewrite (proj2 (Nat.eqb_neq n (S n))) by lia. now rewrite Nat.eqb_refl.
    + match goal with
      | |- find _ (P ++ ?a :: ?b :: ?l) = _ =>
          replace (P ++ a :: b :: l) with ((P ++ [a; b]) ++ l)
            by (rewrite <- app_assoc; reflexivity)
      end.
      apply IH; [|exact Hin].
      intros p Hp. apply in_app_or in Hp. destruct Hp as [Hp|[<-|[<-|[]]]]; cbn;
        [specialize (HP p Hp)|..]; lia.
Qed.

(** Every generated warp has a partner in the list, of the same radius,
    whose partner it is. *)
Lemma gen_warps_paired ws : forall n wa,
  In wa (gen_warps ws n) ->
  exists wb, In wb (gen_warps ws n) /\
             partner wa = Some (w_id wb) /\ partner wb = Some (w_id wa) /\
             w_id wa <> w_id wb /\ w_r wa = w_r wb.
Proof.
  induction ws as [|[[[[w0 w1] w2] w3] w4] ws IH]; intros n wa Hin; cbn [gen_warps] in *.
  - destruct Hin.
  - destruct Hin as [<-|[<-|Hin]].
    + eexists. split; [right; left; reflexivity|]. cbn. repeat split; auto.
    + eexists. split; [left; reflexivity|]. cbn. repeat split; auto.
    + destruct (IH _ _ Hin) as (wb & Hb & H1 & H2 & H3 & H4).
      exists wb. split; [right; right; exact Hb|]. auto.
Qed.

(** On a board built by [generate], the [partner] of every warp resolves
    to another warp of the board, and the link is symmetric. *)
Lemma new_Board_warp_partners cfg s b wa :
  new_Board cfg s = Some b ->
  In wa (warps b) ->
  exists wb, In wb (warps b) /\
             deref_warp b (partner wa) = Some wb /\
             deref_warp b (partner wb) = Some wa /\
             w_id wa <> w_id wb.
Proof.
  unfold new_Board, generate.
  destruct (choose_preset cfg (rand s)) as [[preset|] x]; [|discriminate].
  destruct (gen_panels (preset_panels preset) x) as [ps x1].
  match goal with
  | |- context [gen_portals ?n ?i ?g ?y ?w ?h x1] =>
      destruct (gen_portals n i g y w h x1) as [pts x2]
  end.
  intros H. injection H as <-. cbn [warps]. intros Hin.
  destruct (gen_warps_paired _ _ _ Hin) as (wb & Hb & H1 & H2 & H3 & _).
  exists wb. split; [exact Hb|]. unfold deref_warp. cbn [warps]. rewrite H1, H2.
  split; [|split; [|exact H3]].
  - apply (gen_warps_find_own_id _ 1%nat [] wb); [intros p []|exact Hb].
  - apply (gen_warps_find_own_id _ 1%nat [] wa); [intros p []|exact Hin].
Qed.

(** C9.  Two seeds with the same 32-bit value give boards with the same
    obstacle collections (and the same failure when the preset draw falls
    outside the list), and leave the generator in the same state. *)
Theorem same_seed_same_board (cfg : Config) (s1 s2 : Z) :
  JS.ToUint32 s1 = JS.ToUint32 s2 ->
  option_map obstacles (new_Board cfg s1) = option_map obstacles (new_Board cfg s2) /\
  option_map rng (new_Board cfg s1) = option_map rng (new_Board cfg s2).
Proof.
  intros Hs. unfold new_Board, rand. rewrite Hs.
  unfold generate.
  destruct (choose_preset cfg (JS.ToUint32 s2)) as [[preset|] x]; [|split; reflexivity].
  destruct (gen_panels (preset_panels preset) x) as [ps x1].
  match goal with
  | |- context [gen_portals ?n ?i ?g ?y ?w ?h x1] =>
      destruct (gen_portals n i g y w h x1) as [pts x2]
  end.
  split; reflexivity.
Qed.

Lemma same_seed_same_board_witness :
  JS.ToUint32 (-1) = JS.ToUint32 4294967295 /\
  option_map obstacles (new_Board sample_config (-1)) =
  option_map obstacles (new_Board sample_config 4294967295).
Proof.
  split; [reflexivity|].
  apply (same_seed_same_board sample_config (-1) 4294967295).
  reflexivity.
Defined.

(** ** The session *)

(** Settle [Rmin] and [Rmax] on operands ordered by linear arithmetic. *)
Ltac minmax_decide :=
  repeat match goal with
  | |- context [Rmin ?a ?b] =>
      first [ rewrite (Rmin_left a b) by lra | rewrite (Rmin_right a b) by lra ]
  | |- context [Rmax ?a ?b] =>
      first [ rewrite (Rmax_left a b) by lra | rewrite (Rmax_right a b) by lra ]
  end.

Lemma doEnergyCheck_below cfg e :
  energy (gameState e) < 100 -> doEnergyCheck cfg e = e.
Proof.
  intros H. unfold doEnergyCheck.
  now rewrite (proj2 (JSFacts.geb_false _ _) H).
Qed.

Lemma doEnergyCheck_full cfg e :
  100 <= energy (gameState e) ->
  energy (gameState (doEnergyCheck cfg e)) = 0 /\
  draws (doEnergyCheck cfg e) = S (draws e) /\
  highScore (gameState (doEnergyCheck cfg e)) = highScore (gameState e) /\
  score (gameState (doEnergyCheck cfg e)) = score (gameState e) /\
  combo (gameState (doEnergyCheck cfg e)) = combo (gameState e) /\
  currentOrb (gameState (doEnergyCheck cfg e)) = currentOrb (gameState e) /\
  oc_highscore (doEnergyCheck cfg e) = oc_highscore e.
Proof.
  intros H. unfold doEnergyCheck.
  rewrite (proj2 (JSFacts.geb_true _ _) H).
  cbn [Math_random].
  destruct (JS.ltb _ _); cbn; repeat split; reflexivity.
Qed.

(** [doEnergyCheck] touches neither the score, the high score, the combo,
    the current orb nor the stored high score. *)
Lemma doEnergyCheck_frame cfg e :
  highScore (gameState (doEnergyCheck cfg e)) = highScore (gameState e) /\
  score (gameState (doEnergyCheck cfg e)) = score (gameState e) /\
  combo (gameState (doEnergyCheck cfg e)) = combo (gameState e) /\
  currentOrb (gameState (doEnergyCheck cfg e)) = currentOrb (gameState e) /\
  oc_highscore (doEnergyCheck cfg e) = oc_highscore e.
Proof.
  destruct (Rlt_le_dec (energy (gameState e)) 100) as [H|H].
  - rewrite (doEnergyCheck_below cfg e H). repeat split; reflexivity.
  - destruct (doEnergyCheck_full cfg e H) as (_ & _ & H1 & H2 & H3 & H4 & H5). auto.
Qed.

(** The energy after [doEnergyCheck] is 0 with one draw when the meter was
    full, and the environment is untouched otherwise. *)
Lemma doEnergyCheck_cases cfg e x :
  energy (gameState e) = x -> 0 <= x <= 100 ->
  0 <= energy (gameState (doEnergyCheck cfg e)) <= 100 /\
  (100 <= x -> energy (gameState (doEnergyCheck cfg e)) = 0 /\
               draws (doEnergyCheck cfg e) = S (draws e)) /\
  (x < 100 -> energy (gameState (doEnergyCheck cfg e)) = x /\
              draws (doEnergyCheck cfg e) = draws e).
Proof.
  intros Hx Hb. subst x.
  destruct (Rlt_le_dec (energy (gameState e)) 100) as [H|H].
  - rewrite (doEnergyCheck_below cfg e H). repeat split; try lra; intros; lra.
  - destruct (doEnergyCheck_full cfg e H) as (H0 & Hd & _).
    rewrite H0, Hd. repeat split; try lra; intros; lra.
Qed.

(** C2, as the code has it.  Each handler leaves the energy in [0,100].
    After a portal entry and after a miss the threshold is checked: when
    the clamped energy has reached 100 it is reset to 0 and exactly one
    draw is made, and otherwise no draw is made.  A passed gate only
    clamps: it makes no check and no draw. *)
Theorem energy_clamped_and_checked_at_shot_end
  (cfg : Config) (h : Heap) (e : Env) (gt : Gate) (p : Portal) (orb : nat) :
  (let e' := Board_onGatePassed cfg gt h e in
   energy (gameState e') = clamp (energy (gameState e) + scores_energy_gate cfg) 0 100 /\
   0 <= energy (gameState e') <= 100 /\
   draws e' = draws e) /\
  (let e' := Board_onPortalEntered cfg p h e in
   let raised := clamp (energy (gameState e)
                        + portal_energy cfg (kind p) (isFlow (gameState e))) 0 100 in
   0 <= energy (gameState e') <= 100 /\
   (100 <= raised -> energy (gameState e') = 0 /\ draws e' = S (draws e)) /\
   (raised < 100 -> energy (gameState e') = raised /\ draws e' = draws e)) /\
  (let e' := Board_onMiss cfg orb h e in
   let raised := clamp (energy (gameState e) + scores_energy_onMiss cfg) 0 100 in
   0 <= energy (gameState e') <= 100 /\
   (100 <= raised -> energy (gameState e') = 0 /\ draws e' = S (draws e)) /\
   (raised < 100 -> energy (gameState e') = raised /\ draws e' = draws e)).
Proof.
  split; [|split].
  - cbn. split; [reflexivity|]. split; [|reflexivity].
    apply JSFacts.clamp_bounds; lra.
  - cbv zeta. unfold Board_onPortalEntered.
    match goal with
    | |- context [doEnergyCheck cfg ?e0] =>
        set (e1 := e0);
        assert (He : energy (gameState e1) =
                     clamp (energy (gameState e)
                            + portal_energy cfg (kind p) (isFlow (gameState e))) 0 100)
    end.
    { subst e1. unfold portal_energy. destruct (JS.gtb _ _); reflexivity. }
    assert (Hd : draws e1 = draws e).
    { subst e1. destruct (JS.gtb _ _); reflexivity. }
    rewrite <- Hd.
    apply doEnergyCheck_cases; [exact He|].
    apply JSFacts.clamp_bounds; lra.
  - cbv zeta. unfold Board_onMiss.
    match goal with
    | |- context [doEnergyCheck cfg ?e0] => set (e1 := e0)
    end.
    change (draws e) with (draws e1).
    apply doEnergyCheck_cases; [reflexivity|].
    apply JSFacts.clamp_bounds; lra.
Qed.

(** C2, as stated, fails for a passed gate: from energy 95 a gate worth 10
    fills the meter to 100, and the handler neither resets it nor draws. *)
Lemma gate_fills_energy_without_check :
  let e := on_gameState (fun g => set_energy g 95) sample_env in
  let e' := Board_onGatePassed sample_config (new_Gate 300 400 420 400 1) empty_heap e in
  energy (gameState e') = 100 /\ draws e' = draws e.
Proof.
  cbn. split; [|reflexivity].
  unfold clamp. minmax_decide. reflexivity.
Qed.

(** Neither [Board_onGatePassed] nor [Board_onMiss] reads or writes the
    high score or its stored copy. *)
Lemma onGatePassed_keeps_highScore cfg gt h e :
  highScore (gameState (Board_onGatePassed cfg gt h e)) = highScore (gameState e) /\
  oc_highscore (Board_onGatePassed cfg gt h e) = oc_highscore e /\
  score (gameState (Board_onGatePassed cfg gt h e)) = score (gameState e) + scores_gate cfg.
Proof. repeat split; reflexivity. Qed.

Lemma onMiss_keeps_highScore cfg orb h e :
  highScore (gameState (Board_onMiss cfg orb h e)) = highScore (gameState e) /\
  oc_highscore (Board_onMiss cfg orb h e) = oc_highscore e /\
  score (gameState (Board_onMiss cfg orb h e)) = score (gameState e).
Proof.
  unfold Board_onMiss.
  match goal with |- context [doEnergyCheck cfg ?e0] => set (e1 := e0) end.
  destruct (doEnergyCheck_frame cfg e1) as (H1 & H2 & _ & _ & H5).
  rewrite H1, H2, H5. repeat split; reflexivity.
Qed.

(** C3.  A shot that passes a gate and then falls out of bounds: the score
    rises from 0 to 50, above the high score 0, and neither the high score
    nor its stored copy is updated. *)
Theorem gate_score_on_missed_shot_not_persisted :
  let e1 := Board_onGatePassed sample_config (new_Gate 300 400 420 400 1)
              empty_heap sample_env in
  let e2 := Board_onMiss sample_config 0 empty_heap e1 in
  score (gameState e2) = 50 /\
  highScore (gameState e2) = 0 /\
  oc_highscore e2 = None /\
  score (gameState e2) > highScore (gameState e2).
Proof.
  cbv zeta.
  destruct (onMiss_keeps_highScore sample_config 0 empty_heap
              (Board_onGatePassed sample_config (new_Gate 300 400 420 400 1)
                 empty_heap sample_env)) as (H1 & H2 & H3).
  rewrite H1, H2, H3. cbn. repeat split; try reflexivity; lra.
Qed.

(** The portal handler is the one place where the high score moves. *)
Lemma onPortalEntered_highScore cfg p h e :
  let e' := Board_onPortalEntered cfg p h e in
  score (gameState e') > highScore (gameState e) ->
  highScore (gameState e') = score (gameState e') /\
  oc_highscore e' = Some (score (gameState e')).
Proof.
  cbv zeta. unfold Board_onPortalEntered.
  match goal with |- context [doEnergyCheck cfg ?e0] => set (e1 := e0) end.
  destruct (doEnergyCheck_frame cfg e1) as (H1 & H2 & _ & _ & H5).
  rewrite H1, H2, H5. subst e1.
  destruct (JS.gtb _ _) eqn:E; cbn.
  - intros _. split; reflexivity.
  - apply JSFacts.gtb_false in E. cbn in E. intros Hgt. lra.
Qed.

(** The combo after a portal entry, from the test the handler makes. *)
Lemma onPortalEntered_combo cfg p h e :
  combo (gameState (Board_onPortalEntered cfg p h e)) =
    (if currentOrb_has_gates h (gameState e) then combo (gameState e) + 1 else 1)%Z /\
  currentOrb (gameState (Board_onPortalEntered cfg p h e)) = None.
Proof.
  unfold Board_onPortalEntered.
  match goal with |- context [doEnergyCheck cfg ?e0] => set (e1 := e0) end.
  destruct (doEnergyCheck_frame cfg e1) as (_ & _ & H3 & H4 & _).
  rewrite H3, H4. subst e1.
  destruct (JS.gtb _ _); cbn; split; reflexivity.
Qed.



(** ** Flow expiry *)

(** When the flow time runs out the flag is cleared and one extend draw is
    made.  A successful draw restores the time, capped; the flag stays
    cleared whatever the draw. *)
Lemma flow_step_expiry cfg dt e :
  isFlow (gameState e) = true ->
  flowTimeLeft (gameState e) - dt <= 0 ->
  let e' := flow_step cfg dt e in
  isFlow (gameState e') = false /\
  draws e' = S (draws e) /\
  (random e (draws e) < flow_extendProb cfg ->
   flowTimeLeft (gameState e') =
     Rmin (flowTimeLeft (gameState e) - dt + flow_extendSeconds cfg) (flow_extendCap cfg)) /\
  (flow_extendProb cfg <= random e (draws e) ->
   flowTimeLeft (gameState e') = flowTimeLeft (gameState e) - dt).
Proof.
  intros Hf Ht. cbv zeta. unfold flow_step. rewrite Hf.
  cbn [on_gameState gameState set_gameState flowTimeLeft set_flowTimeLeft].
  rewrite (proj2 (JSFacts.leb_true _ _) Ht).
  unfold doFlowExtendDraw. cbn [Math_random on_gameState gameState set_gameState random draws].
  destruct (JS.ltb _ _) eqn:E; cbn.
  - apply JSFacts.ltb_true in E. repeat split; try reflexivity. intros; lra.
  - apply JSFacts.ltb_false in E. repeat split; try reflexivity. intros; lra.
Qed.

(** With flow off, the flow block does nothing. *)
Lemma flow_step_off cfg dt e :
  isFlow (gameState e) = false -> flow_step cfg dt e = e.
Proof. intros H. unfold flow_step. now rewrite H. Qed.

Lemma tick_no_orb cfg cb ts w :
  currentOrb (gameState (env w)) = None ->
  env (tick cfg cb ts w) =
    flash_step (clamp ((ts - lastTs (env w)) / 1000) 0 0.05)
      (flow_step cfg (clamp ((ts - lastTs (env w)) / 1000) 0 0.05) (set_lastTs (env w) ts)).
Proof.
  intros Hc. unfold tick.
  assert (H : currentOrb (gameState
                (flow_step cfg (clamp ((ts - lastTs (env w)) / 1000) 0 0.05)
                   (set_lastTs (env w) ts))) = None).
  { unfold flow_step, doFlowExtendDraw. cbn [Math_random].
    repeat (match goal with |- context [if ?c then _ else _] => destruct c end);
      cbn; exact Hc. }
  cbn [env heap next_addr events]. rewrite H. reflexivity.
Qed.

Lemma flash_step_gameState dt e : gameState (flash_step dt e) = gameState e.
Proof. unfold flash_step. destruct (JS.gtb _ _); reflexivity. Qed.

Lemma flash_step_draws dt e : draws (flash_step dt e) = draws e.
Proof. unfold flash_step. destruct (JS.gtb _ _); reflexivity. Qed.

(** C1.  Flow is on with 0.01 s left, the tick lasts 16 ms and the extend
    draw returns 0.2, below the extend probability 0.5.  The tick makes one
    draw and restores the time to 0.01 - 0.016 + 3, but leaves [isFlow]
    false; at the next tick flow is still off and the time does not run. *)
Theorem flow_extend_does_not_reactivate :
  let w1 := tick sample_config (Board_prototype sample_config) 1016 flow_world in
  let w2 := tick sample_config (Board_prototype sample_config) 1032 w1 in
  isFlow (gameState (env flow_world)) = true /\
  random (env flow_world) (draws (env flow_world)) < flow_extendProb sample_config /\
  draws (env w1) = 1%nat /\
  flowTimeLeft (gameState (env w1)) = 2.994 /\
  isFlow (gameState (env w1)) = false /\
  isFlow (gameState (env w2)) = false /\
  flowTimeLeft (gameState (env w2)) = 2.994.
Proof.
  cbv zeta.
  assert (Hdt : clamp ((1016 - lastTs (env flow_world)) / 1000) 0 0.05 = 0.016).
  { cbn. unfold clamp. minmax_decide. lra. }
  assert (H1 : env (tick sample_config (Board_prototype sample_config) 1016 flow_world) =
               flash_step 0.016 (flow_step sample_config 0.016
                                   (set_lastTs (env flow_world) 1016))).
  { rewrite tick_no_orb by reflexivity. now rewrite Hdt. }
  destruct (flow_step_expiry sample_config 0.016 (set_lastTs (env flow_world) 1016))
    as (Hoff & Hdraws & Hext & _); [reflexivity | cbn; lra |].
  assert (Hleft : flowTimeLeft (gameState (env
             (tick sample_config (Board_prototype sample_config) 1016 flow_world))) = 2.994).
  { rewrite H1, flash_step_gameState, Hext by (cbn; lra).
    cbn. minmax_decide. lra. }
  assert (Hflow : isFlow (gameState (env
             (tick sample_config (Board_prototype sample_config) 1016 flow_world))) = false).
  { now rewrite H1, flash_step_gameState. }
  split; [reflexivity|]. split; [cbn; lra|].
  split; [rewrite H1, flash_step_draws, Hdraws; reflexivity|].
  split; [exact Hleft|]. split; [exact Hflow|].
  assert (Hc : currentOrb (gameState (env
             (tick sample_config (Board_prototype sample_config) 1016 flow_world))) = None).
  { rewrite H1, flash_step_gameState.
    unfold flow_step, doFlowExtendDraw. cbn [Math_random].
    repeat (match goal with |- context [if ?c then _ else _] => destruct c end);
      reflexivity. }
  rewrite (tick_no_orb _ _ _ _ Hc), flash_step_gameState.
  rewrite flow_step_off by exact Hflow.
  cbn [gameState set_lastTs]. split; [exact Hflow | exact Hleft].
Qed.

(** ** Launching *)

Lemma atan_pos x : 0 < x -> 0 < atan x.
Proof.
  intros Hx. rewrite <- atan_0. now apply atan_increasing.
Qed.

(** [Math.atan2] stays above -PI. *)
Lemma atan2_lower y x : - PI < JS.atan2 y x.
Proof.
  pose proof PI_RGT_0 as Hpi.
  unfold JS.atan2.
  destruct (JS.ltb 0 x) eqn:E1.
  - pose proof (atan_bound (y / x)). lra.
  - destruct (JS.ltb x 0) eqn:E2.
    + apply JSFacts.ltb_true in E2.
      destruct (JS.leb 0 y) eqn:E3.
      * pose proof (atan_bound (y / x)). lra.
      * apply JSFacts.leb_false in E3.
        assert (0 < y / x).
        { replace (y / x) with ((- y) * / (- x)) by (field; lra).
          apply Rmult_lt_0_compat; [lra|]. apply Rinv_0_lt_compat. lra. }
        pose proof (atan_pos (y / x)). lra.
    + destruct (JS.ltb 0 y); [lra|]. destruct (JS.ltb y 0); lra.
Qed.

(** The launch angle of [doFireFromInput], in degrees, before the clamp:
    it is positive, hence above the range, for every swipe. *)
Lemma launch_deg_positive dx dy : 0 < (JS.atan2 dy dx + PI) * 180 / PI.
Proof.
  pose proof PI_RGT_0 as Hpi.
  pose proof (atan2_lower dy dx) as Ha.
  unfold Rdiv. apply Rmult_lt_0_compat; [nra|]. now apply Rinv_0_lt_compat.
Qed.

Lemma launch_deg_clamped dx dy :
  clamp ((JS.atan2 dy dx + PI) * 180 / PI) (-80) (-20) = -20.
Proof.
  pose proof (launch_deg_positive dx dy).
  apply JSFacts.clamp_ge; lra.
Qed.

(** [spawnOrb] creates an orb for any angle and any power. *)
Lemma spawnOrb_creates cfg angle power w :
  let w' := spawnOrb cfg angle power w in
  currentOrb (gameState (env w')) = Some (next_addr w) /\
  heap w' (next_addr w) =
    Some (new_Orb cfg (VIRTUAL_W / 2) 1220 (cos angle * power) (sin angle * power)
            (orbIndex (gameState (env w)) + 1)) /\
  shotsLeft (gameState (env w')) = shotsLeft (gameState (env w)).
Proof.
  cbn. unfold heap_set. rewrite Nat.eqb_refl. repeat split; reflexivity.
Qed.

(** A launch that is not refused creates an orb at -20 degrees. *)
Lemma doFireFromInput_launches cfg dx dy w :
  launch_refused (gameState (env w)) = false ->
  doFireFromInput cfg dx dy w = spawnOrb cfg (-20 * PI / 180) (swipe_power cfg dx dy) w.
Proof.
  intros Hr. unfold doFireFromInput. rewrite Hr, launch_deg_clamped. reflexivity.
Qed.

(** C4, as the code has it.  [doFireFromInput] refuses a launch only while
    an orb is in flight or when no shot is left.  Otherwise it creates an
    orb, whatever the swipe: the angle is clamped into the range of -80 to
    -20 degrees rather than rejected, and the power is not examined.
    [spawnOrb] itself creates an orb for any angle and power, 0 included.
    A launch leaves [shotsLeft] as it is. *)
Theorem launch_clamps_and_never_rejects_input
  (cfg : Config) (dx dy : R) (w : World) :
  let w' := doFireFromInput cfg dx dy w in
  (launch_refused (gameState (env w)) = true -> w' = w) /\
  (launch_refused (gameState (env w)) = false ->
   exists deg,
     -80 <= deg <= -20 /\
     currentOrb (gameState (env w')) = Some (next_addr w) /\
     heap w' (next_addr w) =
       Some (new_Orb cfg (VIRTUAL_W / 2) 1220
               (cos (deg * PI / 180) * swipe_power cfg dx dy)
               (sin (deg * PI / 180) * swipe_power cfg dx dy)
               (orbIndex (gameState (env w)) + 1)) /\
     shotsLeft (gameState (env w')) = shotsLeft (gameState (env w))) /\
  (forall angle power,
   currentOrb (gameState (env (spawnOrb cfg angle power w))) = Some (next_addr w) /\
   shotsLeft (gameState (env (spawnOrb cfg angle power w))) = shotsLeft (gameState (env w))).
Proof.
  cbv zeta. split; [|split].
  - intros Hr. unfold doFireFromInput. now rewrite Hr.
  - intros Hr. unfold doFireFromInput. rewrite Hr.
    exists (clamp ((JS.atan2 dy dx + PI) * 180 / PI) (-80) (-20)).
    split; [apply JSFacts.clamp_bounds; lra|].
    apply spawnOrb_creates.
  - intros angle power.
    destruct (spawnOrb_creates cfg angle power w) as (H1 & _ & H3). auto.
Qed.

Lemma launch_clamps_and_never_rejects_input_witness :
  launch_refused (gameState (env sample_world)) = false /\
  currentOrb (gameState (env (doFireFromInput sample_config 0 150 sample_world)))
    = Some 0%nat /\
  launch_refused
    (gameState (env (doFireFromInput sample_config 0 150 sample_world))) = true /\
  doFireFromInput sample_config 0 150
    (doFireFromInput sample_config 0 150 sample_world)
    = doFireFromInput sample_config 0 150 sample_world.
Proof.
  split; [reflexivity|].
  assert (H : currentOrb
                (gameState (env (doFireFromInput sample_config 0 150 sample_world)))
              = Some 0%nat).
  { destruct (launch_clamps_and_never_rejects_input sample_config 0 150 sample_world)
      as (_ & Hlaunch & _).
    destruct (Hlaunch eq_refl) as (deg & _ & Hc & _). exact Hc. }
  split; [exact H|].
  assert (Hr : launch_refused
                 (gameState (env (doFireFromInput sample_config 0 150 sample_world)))
               = true).
  { unfold launch_refused. now rewrite H. }
  split; [exact Hr|].
  destruct (launch_clamps_and_never_rejects_input sample_config 0 150
              (doFireFromInput sample_config 0 150 sample_world)) as (Hrefuse & _).
  apply Hrefuse. exact Hr.
Defined.

(** C4, as stated, fails.  A swipe to the left asks for 180 degrees, outside
    the range, and an orb is created all the same; and a launch with power
    0 creates an orb, at rest. *)
Lemma out_of_range_and_zero_power_launch :
  let w1 := doFireFromInput sample_config 100 0 sample_world in
  let w2 := OC_spawn sample_config (-50) 0 sample_world in
  (JS.atan2 0 100 + PI) * 180 / PI = 180 /\
  currentOrb (gameState (env sample_world)) = None /\
  currentOrb (gameState (env w1)) = Some 0%nat /\
  currentOrb (gameState (env w2)) = Some 0%nat /\
  (exists o, heap w2 0%nat = Some o /\ vel o = mkVec2 0 0).
Proof.
  cbv zeta. pose proof PI_RGT_0 as Hpi.
  split.
  { unfold JS.atan2. js_decide.
    replace (0 / 100) with 0 by lra. rewrite atan_0. field. lra. }
  split; [reflexivity|].
  split.
  { rewrite (doFireFromInput_launches sample_config 100 0 sample_world) by reflexivity.
    apply spawnOrb_creates. }
  split.
  { apply (spawnOrb_creates sample_config (-50 * PI / 180) 0 sample_world). }
  destruct (spawnOrb_creates sample_config (-50 * PI / 180) 0 sample_world)
    as (_ & Hh & _).
  eexists. split; [exact Hh|].
  cbn. f_equal; ring.
Qed.

(** ** The speed clamp *)

Lemma speed_nonneg o : 0 <= speed o.
Proof. apply JSFacts.hypot_nonneg. Qed.

Lemma speed_scale_vel o s : 0 <= s -> speed (scale_vel o s) = speed o * s.
Proof. intros Hs. unfold speed, scale_vel. cbn. now apply JSFacts.hypot_scale. Qed.

Lemma clamp_step_above cfg o :
  physics_v_min cfg <= physics_v_max cfg ->
  physics_v_max cfg < speed o ->
  clamp_step cfg o = scale_vel o (physics_v_max cfg / speed o).
Proof.
  intros Hmm Hs. unfold clamp_step. fold (speed o).
  rewrite (proj2 (JSFacts.gtb_true _ _) Hs).
  rewrite (proj2 (JSFacts.ltb_false (speed o) (physics_v_min cfg))) by lra.
  reflexivity.
Qed.

Lemma clamp_step_within cfg o :
  physics_v_min cfg <= speed o <= physics_v_max cfg ->
  clamp_step cfg o = o.
Proof.
  intros [Hlo Hhi]. unfold clamp_step. fold (speed o).
  rewrite (proj2 (JSFacts.gtb_false _ _) Hhi).
  rewrite (proj2 (JSFacts.ltb_false _ _) Hlo).
  reflexivity.
Qed.

Lemma clamp_step_below cfg o :
  physics_v_min cfg <= physics_v_max cfg ->
  speed o < physics_v_min cfg ->
  clamp_step cfg o = scale_vel o (physics_v_min cfg / (speed o + 1e-6)).
Proof.
  intros Hmm Hs. unfold clamp_step. fold (speed o).
  rewrite (proj2 (JSFacts.gtb_false (speed o) (physics_v_max cfg))) by lra.
  rewrite (proj2 (JSFacts.ltb_true _ _) Hs).
  reflexivity.
Qed.

(** C6, as the code has it.  After the clamp step of a tick the speed is at
    most [v_max]: a speed above [v_max] becomes [v_max], a speed within
    the bounds is kept.  A speed [s] below [v_min] becomes
    [v_min * s / (s + 1e-6)], which stays strictly below [v_min]. *)
Theorem speed_after_clamp (cfg : Config) (dt : R) (o : Orb) :
  0 < physics_v_min cfg <= physics_v_max cfg ->
  let s0 := speed (gravity_step cfg dt o) in
  let s1 := speed (clamp_step cfg (gravity_step cfg dt o)) in
  s1 <= physics_v_max cfg /\
  (physics_v_max cfg < s0 -> s1 = physics_v_max cfg) /\
  (physics_v_min cfg <= s0 <= physics_v_max cfg -> s1 = s0) /\
  (s0 < physics_v_min cfg ->
   s1 = physics_v_min cfg * s0 / (s0 + 1e-6) /\ s1 < physics_v_min cfg).
Proof.
  intros [Hmin Hmm]. cbv zeta.
  set (o1 := gravity_step cfg dt o).
  pose proof (speed_nonneg o1) as H0.
  assert (Habove : physics_v_max cfg < speed o1 ->
                   speed (clamp_step cfg o1) = physics_v_max cfg).
  { intros Hs. rewrite clamp_step_above by lra.
    rewrite speed_scale_vel.
    - field. lra.
    - apply Rlt_le. apply Rdiv_lt_0_compat; lra. }
  assert (Hwithin : physics_v_min cfg <= speed o1 <= physics_v_max cfg ->
                    speed (clamp_step cfg o1) = speed o1).
  { intros Hs. now rewrite clamp_step_within. }
  assert (Hbelow : speed o1 < physics_v_min cfg ->
                   speed (clamp_step cfg o1)
                   = physics_v_min cfg * speed o1 / (speed o1 + 1e-6) /\
                   speed (clamp_step cfg o1) < physics_v_min cfg).
  { intros Hs. rewrite clamp_step_below by lra.
    rewrite speed_scale_vel by (apply Rlt_le; apply Rdiv_lt_0_compat; lra).
    split; [field; lra|].
    apply Rmult_lt_reg_r with (r := speed o1 + 1e-6); [lra|].
    replace (speed o1 * (physics_v_min cfg / (speed o1 + 1e-6)) * (speed o1 + 1e-6))
      with (speed o1 * physics_v_min cfg) by (field; lra).
    nra. }
  split; [|auto].
  destruct (Rlt_le_dec (physics_v_max cfg) (speed o1)) as [Hs|Hs].
  - rewrite Habove by exact Hs. lra.
  - destruct (Rlt_le_dec (speed o1) (physics_v_min cfg)) as [Hs'|Hs'].
    + destruct (Hbelow Hs'). lra.
    + rewrite Hwithin by lra. exact Hs.
Qed.

Lemma speed_after_clamp_witness :
  0 < physics_v_min sample_config <= physics_v_max sample_config /\
  speed (clamp_step sample_config (gravity_step sample_config 0.016 (orb_moving 0 100)))
  <= physics_v_max sample_config.
Proof.
  split; [cbn; lra|].
  apply (speed_after_clamp sample_config 0.016 (orb_moving 0 100)).
  cbn; lra.
Defined.

(** C6, as stated, fails.  An orb at rest in a tick of length 0 has speed 0
    after the clamp, and one falling at 1e-6 has speed 25: both far below
    [v_min = 50]. *)
Lemma slow_orb_stays_below_v_min :
  let rest := clamp_step sample_config (gravity_step sample_config 0 (orb_moving 0 0)) in
  let slow := clamp_step sample_config (gravity_step sample_config 0 (orb_moving 0 1e-6)) in
  0 < physics_v_min sample_config <= physics_v_max sample_config /\
  physics_v_min sample_config = 50 /\
  speed rest = 0 /\
  speed slow = 25.
Proof.
  cbv zeta.
  split; [cbn; lra|]. split; [reflexivity|].
  assert (Hrest : speed (gravity_step sample_config 0 (orb_moving 0 0)) = 0).
  { unfold speed. cbn.
    match goal with |- JS.hypot _ ?b = _ => replace b with 0 by lra end.
    apply JSFacts.hypot_0_0. }
  assert (Hslow : speed (gravity_step sample_config 0 (orb_moving 0 1e-6)) = 1e-6).
  { unfold speed. cbn.
    match goal with |- JS.hypot _ ?b = _ => replace b with 1e-6 by lra end.
    apply JSFacts.hypot_0_l. lra. }
  split.
  - rewrite clamp_step_below; [| cbn; lra | rewrite Hrest; cbn; lra].
    rewrite speed_scale_vel.
    + rewrite Hrest. lra.
    + rewrite Hrest. cbn. lra.
  - rewrite clamp_step_below; [| cbn; lra | rewrite Hslow; cbn; lra].
    rewrite speed_scale_vel.
    + rewrite Hslow. cbn. lra.
    + rewrite Hslow. cbn. lra.
Qed.

(** ** [Orb.update]: what each block leaves alone *)

Lemma scale_vel_frame o s :
  pos (scale_vel o s) = pos o /\ radius (scale_vel o s) = radius o /\
  warpCooldown (scale_vel o s) = warpCooldown o /\
  gatePassed (scale_vel o s) = gatePassed o.
Proof. repeat split; reflexivity. Qed.

Lemma clamp_step_frame cfg o :
  pos (clamp_step cfg o) = pos o /\ radius (clamp_step cfg o) = radius o /\
  warpCooldown (clamp_step cfg o) = warpCooldown o /\
  gatePassed (clamp_step cfg o) = gatePassed o.
Proof.
  unfold clamp_step. destruct (JS.gtb _ _); destruct (JS.ltb _ _);
    repeat split; reflexivity.
Qed.

Lemma walls_step_frame o :
  radius (walls_step o) = radius o /\
  warpCooldown (walls_step o) = warpCooldown o /\
  gatePassed (walls_step o) = gatePassed o.
Proof.
  unfold walls_step.
  repeat (match goal with |- context [if ?c then _ else _] => destruct c end);
    repeat split; reflexivity.
Qed.

Lemma zone_step_frame cfg dt o z :
  pos (zone_step cfg dt o z) = pos o /\ radius (zone_step cfg dt o z) = radius o /\
  warpCooldown (zone_step cfg dt o z) = warpCooldown o /\
  gatePassed (zone_step cfg dt o z) = gatePassed o.
Proof.
  unfold zone_step.
  repeat (match goal with |- context [if ?c then _ else _] => destruct c end);
    repeat split; reflexivity.
Qed.

Lemma zones_step_frame cfg dt b o :
  pos (zones_step cfg dt b o) = pos o /\ radius (zones_step cfg dt b o) = radius o /\
  warpCooldown (zones_step cfg dt b o) = warpCooldown o /\
  gatePassed (zones_step cfg dt b o) = gatePassed o.
Proof.
  unfold zones_step. generalize (zones b) as zs. intros zs. revert o.
  induction zs as [|z zs IH]; intros o; cbn [fold_left].
  - repeat split; reflexivity.
  - destruct (IH (zone_step cfg dt o z)) as (H1 & H2 & H3 & H4).
    destruct (zone_step_frame cfg dt o z) as (K1 & K2 & K3 & K4).
    rewrite H1, H2, H3, H4. auto.
Qed.

Lemma panel_step_frame o p :
  radius (panel_step o p) = radius o /\
  warpCooldown (panel_step o p) = warpCooldown o /\
  gatePassed (panel_step o p) = gatePassed o.
Proof.
  unfold panel_step. destruct (Panel_normalAtClosest p (pos o)).
  - destruct (JS.leb _ _); [destruct (JS.ltb _ _)|]; repeat split; reflexivity.
  - repeat split; reflexivity.
Qed.

Lemma panels_step_frame b o :
  radius (panels_step b o) = radius o /\
  warpCooldown (panels_step b o) = warpCooldown o /\
  gatePassed (panels_step b o) = gatePassed o.
Proof.
  unfold panels_step. generalize (panels b) as ps. intros ps. revert o.
  induction ps as [|p ps IH]; intros o; cbn [fold_left].
  - repeat split; reflexivity.
  - destruct (IH (panel_step o p)) as (H2 & H3 & H4).
    destruct (panel_step_frame o p) as (K2 & K3 & K4).
    rewrite H2, H3, H4. auto.
Qed.

Lemma physics_step_eq cfg dt b o :
  physics_step cfg dt b o = warps_step cfg dt b (before_warps cfg dt b o).
Proof. reflexivity. Qed.

Lemma before_warps_frame cfg dt b o :
  radius (before_warps cfg dt b o) = radius o /\
  warpCooldown (before_warps cfg dt b o) = warpCooldown o /\
  gatePassed (before_warps cfg dt b o) = gatePassed o.
Proof.
  unfold before_warps.
  destruct (panels_step_frame b (zones_step cfg dt b (walls_step (move_step dt
              (clamp_step cfg (gravity_step cfg dt o)))))) as (A1 & A2 & A3).
  destruct (zones_step_frame cfg dt b (walls_step (move_step dt
              (clamp_step cfg (gravity_step cfg dt o))))) as (_ & B1 & B2 & B3).
  destruct (walls_step_frame (move_step dt (clamp_step cfg (gravity_step cfg dt o))))
    as (C1 & C2 & C3).
  destruct (clamp_step_frame cfg (gravity_step cfg dt o)) as (_ & D1 & D2 & D3).
  rewrite A1, A2, A3, B1, B2, B3, C1, C2, C3.
  cbn [move_step radius warpCooldown gatePassed set_pos].
  rewrite D1, D2, D3. repeat split; reflexivity.
Qed.

(** The warp loop either leaves the orb as it is, or moves it to the centre
    of the partner of a warp that contains it, which needs a cooldown that
    has run out, and restarts the cooldown. *)
Lemma warp_loop_cases cfg b ws o :
  (snd (warp_loop cfg b ws o) = false /\ fst (warp_loop cfg b ws o) = o) \/
  (snd (warp_loop cfg b ws o) = true /\
   warpCooldown o <= 0 /\
   exists wa wb,
     In wa ws /\
     Warp_contains wa (vx (pos o)) (vy (pos o)) = true /\
     deref_warp b (partner wa) = Some wb /\
     fst (warp_loop cfg b ws o) =
       set_warpCooldown (set_pos o (mkVec2 (w_x wb) (w_y wb))) (warp_cooldown cfg)).
Proof.
  induction ws as [|w ws IH]; cbn [warp_loop].
  - left. split; reflexivity.
  - destruct (Warp_contains w (vx (pos o)) (vy (pos o))) eqn:Ec; cbn [andb].
    + destruct (JS.leb (warpCooldown o) 0) eqn:El.
      * destruct (deref_warp b (partner w)) as [other|] eqn:Ed.
        -- right. split; [reflexivity|]. split; [now apply JSFacts.leb_true|].
           exists w, other. cbn. auto.
        -- destruct IH as [IH|(Hf & Hc & wa & wb & Hin & Hct & Hd & He)]; [left; exact IH|].
           right. split; [exact Hf|]. split; [exact Hc|].
           exists wa, wb. cbn [In]. auto.
      * destruct IH as [IH|(Hf & Hc & wa & wb & Hin & Hct & Hd & He)]; [left; exact IH|].
        right. split; [exact Hf|]. split; [exact Hc|].
        exists wa, wb. cbn [In]. auto.
    + destruct IH as [IH|(Hf & Hc & wa & wb & Hin & Hct & Hd & He)]; [left; exact IH|].
      right. split; [exact Hf|]. split; [exact Hc|].
      exists wa, wb. cbn [In]. auto.
Qed.

(** ** [Orb.update]: the calls it makes *)

Lemma skipn_length_app {A : Type} (l1 l2 : list A) :
  skipn (length l1) (l1 ++ l2) = l2.
Proof. induction l1 as [|x l1 IH]; cbn; auto. Qed.

Lemma gate_events_are_gates gs o : Forall is_gate_event (gate_events gs o).
Proof.
  revert o. induction gs as [|g gs IH]; intros o; cbn [gate_events].
  - constructor.
  - destruct (Gate_checkPass g o); [destruct (negb _)|]; try apply IH.
    constructor; [exact I | apply IH].
Qed.

Lemma gates_loop_spec cb gs this h o e log :
  let r := gates_loop cb gs this h o e log in
  pos (fst (fst r)) = pos o /\
  radius (fst (fst r)) = radius o /\
  warpCooldown (fst (fst r)) = warpCooldown o /\
  snd r = log ++ gate_events gs o.
Proof.
  cbv zeta. revert o e log.
  induction gs as [|g gs IH]; intros o e log; cbn [gates_loop gate_events].
  - cbn. rewrite app_nil_r. repeat split; reflexivity.
  - destruct (Gate_checkPass g o); [destruct (negb _)|]; try apply IH.
    match goal with
    | |- context [gates_loop cb gs this h ?o' ?e' ?l'] =>
        destruct (IH o' e' l') as (H1 & H2 & H3 & H4)
    end.
    rewrite H1, H2, H3, H4. rewrite <- app_assoc. repeat split; reflexivity.
Qed.

Lemma portals_loop_spec cb ps this h o e log :
  let r := portals_loop cb ps this h o e log in
  pos (fst (fst r)) = pos o /\
  radius (fst (fst r)) = radius o /\
  warpCooldown (fst (fst r)) = warpCooldown o /\
  gatePassed (fst (fst r)) = gatePassed o /\
  snd r = log ++ portal_events ps o.
Proof.
  cbv zeta. revert o e log.
  induction ps as [|p ps IH]; intros o e log; unfold portal_events;
    cbn [portals_loop filter map].
  - cbn. rewrite app_nil_r. repeat split; reflexivity.
  - destruct (Portal_contains p (vx (pos o)) (vy (pos o))) eqn:Ec.
    + match goal with
      | |- context [portals_loop cb ps this h ?o' ?e' ?l'] =>
          destruct (IH o' e' l') as (H1 & H2 & H3 & H4 & H5)
      end.
      rewrite H1, H2, H3, H4, H5. unfold portal_events.
      cbn [pos set_alive map]. rewrite <- app_assoc. repeat split; reflexivity.
    + apply IH.
Qed.

Lemma bounds_step_spec cb this h o e log :
  let r := bounds_step cb this h o e log in
  pos (fst (fst r)) = pos o /\
  radius (fst (fst r)) = radius o /\
  warpCooldown (fst (fst r)) = warpCooldown o /\
  gatePassed (fst (fst r)) = gatePassed o /\
  snd r = log ++ miss_events o.
Proof.
  cbv zeta. unfold bounds_step, miss_events.
  destruct (JS.gtb _ _); cbn; rewrite ?app_nil_r; repeat split; reflexivity.
Qed.

(** One [update] of a stored orb: where the orb ends, what it keeps, and
    the calls it makes, from the orb [o1] that leaves the warp block. *)
Lemma update_flag_spec cfg cb dt b this w o :
  heap w this = Some o ->
  let o1 := fst (physics_step cfg dt b o) in
  snd (update_flag cfg cb dt b this w) = snd (physics_step cfg dt b o) /\
  exists o',
    heap (fst (update_flag cfg cb dt b this w)) this = Some o' /\
    pos o' = pos o1 /\ radius o' = radius o1 /\ warpCooldown o' = warpCooldown o1 /\
    events (fst (update_flag cfg cb dt b this w)) =
      events w ++ gate_events (gates b) o1
               ++ portal_events (portals b) o1 ++ miss_events o1.
Proof.
  intros Ho. cbv zeta. unfold update_flag. rewrite Ho.
  destruct (physics_step cfg dt b o) as [o1 warped]. cbn [fst snd].
  pose proof (gates_loop_spec cb (gates b) this (heap w) o1 (env w) (events w)) as Hg.
  destruct (gates_loop cb (gates b) this (heap w) o1 (env w) (events w))
    as [[o2 e2] l2].
  cbn [fst snd] in Hg. destruct Hg as (G1 & G2 & G3 & G4).
  pose proof (portals_loop_spec cb (portals b) this (heap w) o2 e2 l2) as Hp.
  destruct (portals_loop cb (portals b) this (heap w) o2 e2 l2) as [[o3 e3] l3].
  cbn [fst snd] in Hp. destruct Hp as (P1 & P2 & P3 & _ & P5).
  pose proof (bounds_step_spec cb this (heap w) o3 e3 l3) as Hb.
  destruct (bounds_step cb this (heap w) o3 e3 l3) as [[o4 e4] l4].
  cbn [fst snd] in Hb. destruct Hb as (B1 & B2 & B3 & _ & B5).
  cbn [fst snd heap events]. split; [reflexivity|].
  exists o4. unfold heap_set. rewrite Nat.eqb_refl.
  split; [reflexivity|].
  split; [congruence|]. split; [congruence|]. split; [congruence|].
  rewrite B5, P5, G4.
  unfold portal_events, miss_events. rewrite P1, P2, G1, G2.
  now rewrite <- !app_assoc.
Qed.

Lemma update_flag_no_orb cfg cb dt b this w :
  heap w this = None -> update_flag cfg cb dt b this w = (w, false).
Proof. intros H. unfold update_flag. now rewrite H. Qed.

Lemma tick_events_spec cfg cb dt b this w o :
  heap w this = Some o ->
  tick_events cfg cb dt b this w =
    gate_events (gates b) (fst (physics_step cfg dt b o))
    ++ portal_events (portals b) (fst (physics_step cfg dt b o))
    ++ miss_events (fst (physics_step cfg dt b o)).
Proof.
  intros Ho.
  destruct (update_flag_spec cfg cb dt b this w o Ho) as (_ & o' & _ & _ & _ & _ & He).
  unfold tick_events, update. rewrite He. apply skipn_length_app.
Qed.

Lemma tick_events_no_orb cfg cb dt b this w :
  heap w this = None -> tick_events cfg cb dt b this w = [].
Proof.
  intros H. unfold tick_events, update. rewrite update_flag_no_orb by exact H.
  cbn [fst]. rewrite <- (app_nil_r (events w)) at 2. apply skipn_length_app.
Qed.

(** ** Portal entry and miss in one tick *)

Lemma gen_portals_geometry todo i gap baseY w h x :
  Forall (fun p => pt_y p = baseY /\ pt_h p = h)
         (fst (gen_portals todo i gap baseY w h x)).
Proof.
  revert i x. induction todo as [|todo IH]; intros i x; cbn [gen_portals].
  - constructor.
  - destruct (rng_call x) as [r x1].
    specialize (IH (S i) x1).
    destruct (gen_portals todo (S i) gap baseY w h x1) as [ps x2].
    cbn [fst] in *. constructor; [split; reflexivity | exact IH].
Qed.

(** Every portal laid out by [generate] spans the heights 1170 to 1240. *)
Lemma new_Board_portals cfg s b :
  new_Board cfg s = Some b ->
  Forall (fun p => pt_y p = VIRTUAL_H - 110 /\ pt_h p = 70) (portals b).
Proof.
  unfold new_Board, generate.
  destruct (choose_preset cfg (rand s)) as [[preset|] x]; [|discriminate].
  destruct (gen_panels (preset_panels preset) x) as [ps x1].
  match goal with
  | |- context [gen_portals ?n ?i ?g ?y ?w ?h x1] =>
      pose proof (gen_portals_geometry n i g y w h x1) as Hgeo;
      destruct (gen_portals n i g y w h x1) as [pts x2]
  end.
  intros H. injection H as <-. exact Hgeo.
Qed.

Lemma physics_step_radius cfg dt b o :
  radius (fst (physics_step cfg dt b o)) = radius o.
Proof.
  rewrite physics_step_eq. unfold warps_step.
  destruct (before_warps_frame cfg dt b o) as (Hr & _ & _).
  destruct (warp_loop_cases cfg b (warps b) (cooldown_step dt (before_warps cfg dt b o)))
    as [(_ & He)|(_ & _ & wa & wb & _ & _ & _ & He)]; rewrite He.
  - unfold cooldown_step. destruct (JS.gtb _ _); cbn; exact Hr.
  - unfold cooldown_step. destruct (JS.gtb _ _); cbn; exact Hr.
Qed.

Lemma in_portal_events k ps o :
  In (PortalEntered k) (portal_events ps o) ->
  exists p, In p ps /\ Portal_contains p (vx (pos o)) (vy (pos o)) = true.
Proof.
  unfold portal_events. intros H. apply in_map_iff in H.
  destruct H as (p & _ & Hin). apply filter_In in Hin. now exists p.
Qed.

Lemma in_miss_events o :
  In Miss (miss_events o) <-> VIRTUAL_H + 100 < vy (pos o) - radius o.
Proof.
  unfold miss_events. destruct (JS.gtb _ _) eqn:E.
  - apply JSFacts.gtb_true in E. split; [intros _; exact E | intros _; now left].
  - apply JSFacts.gtb_false in E. split; [intros [] | intros H; lra].
Qed.

Lemma miss_not_in_gate_events gs o : ~ In Miss (gate_events gs o).
Proof.
  intros H. pose proof (gate_events_are_gates gs o) as Hall.
  rewrite Forall_forall in Hall. exact (Hall Miss H).
Qed.

Lemma miss_not_in_portal_events ps o : ~ In Miss (portal_events ps o).
Proof.
  unfold portal_events. intros H. apply in_map_iff in H.
  destruct H as (p & Hp & _). discriminate.
Qed.

Lemma portal_not_in_gate_events k gs o : ~ In (PortalEntered k) (gate_events gs o).
Proof.
  intros H. pose proof (gate_events_are_gates gs o) as Hall.
  rewrite Forall_forall in Hall. exact (Hall _ H).
Qed.

Lemma portal_not_in_miss_events k o : ~ In (PortalEntered k) (miss_events o).
Proof.
  unfold miss_events. destruct (JS.gtb _ _); cbn; intros H;
    [destruct H as [H|H]; [discriminate | exact H] | exact H].
Qed.

(** The bounds test of [update]: the tick calls [onMiss] exactly when the
    orb ends more than 100 below the board. *)
Lemma miss_event_iff cfg cb dt (b : Board) this w o :
  heap w this = Some o ->
  In Miss (tick_events cfg cb dt b this w) <->
  VIRTUAL_H + 100 < vy (pos (fst (physics_step cfg dt b o))) - radius o.
Proof.
  intros Ho. rewrite (tick_events_spec cfg cb dt b this w o Ho).
  rewrite <- (physics_step_radius cfg dt b o).
  rewrite <- in_miss_events. split.
  - intros Hm.
    apply in_app_or in Hm. destruct Hm as [Hm|Hm];
      [destruct (miss_not_in_gate_events _ _ Hm)|].
    apply in_app_or in Hm. destruct Hm as [Hm|Hm];
      [destruct (miss_not_in_portal_events _ _ Hm)|exact Hm].
  - intros Hm. apply in_or_app. right. apply in_or_app. now right.
Qed.

(** C5.  On a board built by [generate], one tick of an orb of non-negative
    radius never produces both a portal-entered event and a miss event:
    [update] never calls both [onPortalEntered] and [onMiss].  The portal
    loop runs before the bounds test, and an orb inside a portal, which
    ends at height 1240, is above the line the bounds test draws. *)
Theorem generated_board_no_portal_and_miss
  (cfg : Config) (cb : Callbacks) (s : Z) (b : Board) (dt : R) (this : nat)
  (w : World) (o : Orb) :
  new_Board cfg s = Some b ->
  heap w this = Some o ->
  0 <= radius o ->
  ~ ((exists k, In (PortalEntered k) (tick_events cfg cb dt b this w)) /\
     In Miss (tick_events cfg cb dt b this w)).
Proof.
  intros Hb Ho Hr.
  rewrite (tick_events_spec cfg cb dt b this w o Ho).
  set (o1 := fst (physics_step cfg dt b o)).
  intros [[k Hk] Hm].
  apply in_app_or in Hk. destruct Hk as [Hk|Hk];
    [exact (portal_not_in_gate_events _ _ _ Hk)|].
  apply in_app_or in Hk. destruct Hk as [Hk|Hk];
    [|exact (portal_not_in_miss_events _ _ Hk)].
  apply in_app_or in Hm. destruct Hm as [Hm|Hm];
    [exact (miss_not_in_gate_events _ _ Hm)|].
  apply in_app_or in Hm. destruct Hm as [Hm|Hm];
    [exact (miss_not_in_portal_events _ _ Hm)|].
  apply in_miss_events in Hm.
  apply in_portal_events in Hk. destruct Hk as (p & Hin & Hc).
  pose proof (new_Board_portals cfg s b Hb) as Hgeo.
  rewrite Forall_forall in Hgeo. destruct (Hgeo p Hin) as [Hy Hh].
  unfold Portal_contains in Hc.
  apply andb_prop in Hc. destruct Hc as [_ Hc].
  apply JSFacts.leb_true in Hc.
  assert (Hrad : radius o1 = radius o) by apply physics_step_radius.
  rewrite Hy, Hh in Hc. rewrite Hrad in Hm. unfold VIRTUAL_H in *. lra.
Qed.

(** An orb falling straight down, away from the walls, on a board without
    zones and panels: the state in which it reaches the warp block. *)
Lemma before_warps_free_fall cfg dt b o v1 :
  zones b = [] -> panels b = [] ->
  vx (vel o) = 0 ->
  v1 = vy (vel o) + physics_gravity cfg * dt ->
  0 <= v1 -> physics_v_min cfg <= v1 <= physics_v_max cfg ->
  0 <= vx (pos o) - radius o ->
  vx (pos o) + radius o <= VIRTUAL_W ->
  0 <= vy (pos o) + v1 * dt - radius o ->
  before_warps cfg dt b o =
    set_pos (set_vel o (mkVec2 0 v1)) (mkVec2 (vx (pos o)) (vy (pos o) + v1 * dt)).
Proof.
  intros Hz Hp Hvx Hv1 H0 Hv Hl Hr Ht.
  unfold before_warps, zones_step, panels_step. rewrite Hz, Hp. cbn [fold_left].
  assert (Hg : gravity_step cfg dt o = set_vel o (mkVec2 0 v1)).
  { unfold gravity_step. now rewrite Hvx, Hv1. }
  rewrite Hg.
  rewrite clamp_step_within
    by (unfold speed; cbn [vel set_vel vx vy]; rewrite JSFacts.hypot_0_l by exact H0;
        exact Hv).
  unfold move_step. cbn [vel pos set_vel vx vy].
  replace (vx (pos o) + 0 * dt) with (vx (pos o)) by ring.
  unfold walls_step.
  cbn [pos vel radius set_pos set_vel vx vy].
  rewrite (proj2 (JSFacts.ltb_false _ _) Hl).
  cbn [pos vel radius set_pos set_vel vx vy].
  rewrite (proj2 (JSFacts.gtb_false _ _) Hr).
  cbn [pos vel radius set_pos set_vel vx vy].
  rewrite (proj2 (JSFacts.ltb_false _ _) Ht).
  reflexivity.
Qed.

Lemma doEnergyCheck_shotsLeft cfg e :
  shotsLeft (gameState (doEnergyCheck cfg e)) = shotsLeft (gameState e).
Proof.
  unfold doEnergyCheck. destruct (JS.geb _ _); [|reflexivity].
  cbn [Math_random]. destruct (JS.ltb _ _); reflexivity.
Qed.

Lemma onPortalEntered_shotsLeft cfg p h e :
  shotsLeft (gameState (Board_onPortalEntered cfg p h e))
  = (shotsLeft (gameState e) - 1)%Z.
Proof.
  unfold Board_onPortalEntered. rewrite doEnergyCheck_shotsLeft.
  destruct (JS.gtb _ _); reflexivity.
Qed.

Lemma onMiss_shotsLeft cfg a h e :
  shotsLeft (gameState (Board_onMiss cfg a h e)) = (shotsLeft (gameState e) - 1)%Z.
Proof.
  unfold Board_onMiss. rewrite doEnergyCheck_shotsLeft. reflexivity.
Qed.

Lemma generated_board_no_portal_and_miss_witness :
  new_Board sample_config 0 = Some (board_of_seed_0 sample_preset) /\
  heap low_world 0%nat = Some low_orb /\
  0 <= radius low_orb /\
  ~ ((exists k, In (PortalEntered k)
                  (tick_events sample_config (Board_prototype sample_config) 0.016
                     (board_of_seed_0 sample_preset) 0 low_world)) /\
     In Miss (tick_events sample_config (Board_prototype sample_config) 0.016
                (board_of_seed_0 sample_preset) 0 low_world)).
Proof.
  assert (Hb : new_Board sample_config 0 = Some (board_of_seed_0 sample_preset)).
  { apply new_Board_0 with (rest := []). reflexivity. }
  assert (Hr : 0 <= radius low_orb) by (cbn; lra).
  split; [exact Hb|]. split; [reflexivity|]. split; [exact Hr|].
  exact (generated_board_no_portal_and_miss sample_config
           (Board_prototype sample_config) 0 (board_of_seed_0 sample_preset)
           0.016 0 low_world low_orb Hb eq_refl Hr).
Defined.

(** ** The warp cooldown *)

Lemma cooldown_step_lower dt o : 0 <= dt -> warpCooldown o - dt <= warpCooldown (cooldown_step dt o).
Proof.
  intros Hd. unfold cooldown_step. destruct (JS.gtb _ _); cbn; lra.
Qed.

(** The warp block of one update: the flag, and the cooldown it leaves. *)
Lemma physics_step_warp cfg dt b o :
  let r := physics_step cfg dt b o in
  let cooled := warpCooldown (cooldown_step dt o) in
  (snd r = false /\ warpCooldown (fst r) = cooled) \/
  (snd r = true /\
   cooled <= 0 /\
   warpCooldown (fst r) = warp_cooldown cfg /\
   exists wa wb,
     In wa (warps b) /\ deref_warp b (partner wa) = Some wb /\
     pos (fst r) = mkVec2 (w_x wb) (w_y wb)).
Proof.
  cbv zeta. rewrite physics_step_eq. unfold warps_step.
  destruct (before_warps_frame cfg dt b o) as (_ & Hw & _).
  assert (Hc : warpCooldown (cooldown_step dt (before_warps cfg dt b o))
               = warpCooldown (cooldown_step dt o)).
  { unfold cooldown_step. rewrite Hw. destruct (JS.gtb _ _); cbn; now rewrite ?Hw. }
  destruct (warp_loop_cases cfg b (warps b) (cooldown_step dt (before_warps cfg dt b o)))
    as [(Hf & He)|(Hf & Hz & wa & wb & Hin & _ & Hde & He)].
  - left. rewrite Hf, He. auto.
  - right. rewrite Hf, He. split; [reflexivity|]. split; [now rewrite <- Hc|].
    split; [reflexivity|]. exists wa, wb. auto.
Qed.

(** The step length [tick] hands to [update] is never negative. *)
Lemma tick_dt_range dtRaw : 0 <= clamp dtRaw 0 0.05 <= 0.05.
Proof. apply JSFacts.clamp_bounds. lra. Qed.

(** One update against the cooldown: if the cooldown is at least
    [cooldown - acc] before, it is at least [cooldown - (acc + dt)] after,
    and a teleport in this update needs [cooldown <= acc + dt]. *)
Lemma update_cooldown cfg cb dt b this w o acc :
  heap w this = Some o ->
  0 <= dt -> 0 <= acc ->
  warp_cooldown cfg - acc <= warpCooldown o ->
  (exists o', heap (update cfg cb dt b this w) this = Some o' /\
              warp_cooldown cfg - (acc + dt) <= warpCooldown o') /\
  (snd (update_flag cfg cb dt b this w) = true -> warp_cooldown cfg <= acc + dt).
Proof.
  intros Ho Hd Ha Hinv.
  destruct (update_flag_spec cfg cb dt b this w o Ho) as (Hflag & o' & Hh & _ & _ & Hwc & _).
  rewrite Hflag. unfold update.
  pose proof (cooldown_step_lower dt o Hd) as Hlow.
  destruct (physics_step_warp cfg dt b o) as [(Hf & Hsame)|(Hf & Hz & Hcd & _)].
  - split; [|rewrite Hf; discriminate].
    exists o'. split; [exact Hh|]. rewrite Hwc, Hsame. lra.
  - split; [|intros _; lra].
    exists o'. split; [exact Hh|]. rewrite Hwc, Hcd. lra.
Qed.

Lemma run_updates_cooldown cfg cb b this dts :
  forall w o acc,
    heap w this = Some o ->
    Forall (Rle 0) dts -> 0 <= acc ->
    warp_cooldown cfg - acc <= warpCooldown o ->
    0 <= acc + elapsed dts /\
    exists o', heap (run_updates cfg cb b this dts w) this = Some o' /\
               warp_cooldown cfg - (acc + elapsed dts) <= warpCooldown o'.
Proof.
  induction dts as [|dt dts IH]; intros w o acc Ho Hall Ha Hinv; cbn [run_updates elapsed fold_right].
  - split; [lra|]. exists o. split; [exact Ho|]. lra.
  - inversion Hall as [|? ? Hd Hrest]; subst.
    destruct (update_cooldown cfg cb dt b this w o acc Ho Hd Ha Hinv) as ((o1 & Ho1 & Hinv1) & _).
    destruct (IH _ o1 (acc + dt) Ho1 Hrest ltac:(lra) Hinv1) as (Hpos & o' & Ho' & Hinv').
    fold (elapsed dts).
    split; [lra|]. exists o'. split; [exact Ho'|]. lra.
Qed.

(** C7.  When an update teleports the orb, the orb ends the update at the
    centre of the partner of a warp of the board, with the cooldown set.
    After any run of further updates with non-negative step lengths, an
    update that teleports the orb again comes at least [warp.cooldown]
    seconds of simulated time after the first. *)
Theorem warp_waits_for_cooldown
  (cfg : Config) (cb : Callbacks) (b : Board) (this : nat) (w0 : World)
  (dt0 : R) (dts : list R) (dt : R) :
  snd (update_flag cfg cb dt0 b this w0) = true ->
  Forall (Rle 0) dts ->
  0 <= dt ->
  let w1 := update cfg cb dt0 b this w0 in
  (exists o1 wa wb,
     heap w1 this = Some o1 /\
     In wa (warps b) /\ deref_warp b (partner wa) = Some wb /\
     pos o1 = mkVec2 (w_x wb) (w_y wb) /\
     warpCooldown o1 = warp_cooldown cfg) /\
  (snd (update_flag cfg cb dt b this (run_updates cfg cb b this dts w1)) = true ->
   warp_cooldown cfg <= elapsed dts + dt).
Proof.
  intros Hwarp Hall Hd. cbv zeta.
  destruct (heap w0 this) as [o|] eqn:Ho;
    [|rewrite (update_flag_no_orb cfg cb dt0 b this w0 Ho) in Hwarp; discriminate].
  destruct (update_flag_spec cfg cb dt0 b this w0 o Ho)
    as (Hflag & o1 & Hh & Hpos & _ & Hwc & _).
  rewrite Hflag in Hwarp.
  destruct (physics_step_warp cfg dt0 b o)
    as [(Hf & _)|(_ & _ & Hcd & wa & wb & Hin & Hde & Hp)];
    [rewrite Hf in Hwarp; discriminate|].
  assert (Hcd1 : warpCooldown o1 = warp_cooldown cfg) by congruence.
  split.
  - exists o1, wa, wb. unfold update. repeat split; auto. congruence.
  - intros Hagain.
    destruct (run_updates_cooldown cfg cb b this dts (update cfg cb dt0 b this w0) o1 0
                Hh Hall ltac:(lra) ltac:(lra)) as (Hpos' & o2 & Ho2 & Hinv).
    destruct (update_cooldown cfg cb dt b this _ o2 (0 + elapsed dts) Ho2 Hd Hpos' Hinv)
      as (_ & Hneed).
    specialize (Hneed Hagain). lra.
Qed.

(** An update on a board without gates and portals, of an orb that stays
    above the miss line, stores the orb that leaves the warp block and
    touches nothing else. *)
Lemma update_flag_quiet cfg cb dt b this w o o1 f :
  heap w this = Some o ->
  gates b = [] -> portals b = [] ->
  physics_step cfg dt b o = (o1, f) ->
  vy (pos o1) - radius o1 <= VIRTUAL_H + 100 ->
  update_flag cfg cb dt b this w = (store_orb w this o1, f).
Proof.
  intros Ho Hg Hp Hphys Hy. unfold update_flag.
  rewrite Ho, Hphys, Hg, Hp. cbn [gates_loop portals_loop].
  unfold bounds_step. rewrite (proj2 (JSFacts.gtb_false _ _) Hy). reflexivity.
Qed.

Ltac eval_free_fall v1 :=
  rewrite physics_step_eq;
  rewrite (before_warps_free_fall sample_config 0.05 warp_board _ v1);
    try reflexivity; try (cbn; unfold VIRTUAL_W; lra);
  unfold warps_step, cooldown_step, Warp_contains, warp_a, warp_b;
  cbn [falling pos vel radius gatePassed warpCooldown alive id
       set_pos set_vel set_warpCooldown vx vy];
  js_decide;
  cbn [warps warp_board warp_loop];
  unfold Warp_contains, warp_a, warp_b;
  cbn [falling pos vel radius gatePassed warpCooldown alive id
       set_pos set_vel set_warpCooldown vx vy w_x w_y w_r partner];
  js_decide; cbn [andb].

Lemma warp_tick_0 :
  physics_step sample_config 0.05 warp_board (falling 990 100 0)
  = (falling 600 145 0.08, true).
Proof.
  eval_free_fall 145. reflexivity.
Qed.

Lemma warp_tick_1 :
  physics_step sample_config 0.05 warp_board (falling 600 145 0.08)
  = (falling (600 + 190 * 0.05) 190 (0.08 - 0.05), false).
Proof.
  eval_free_fall 190. reflexivity.
Qed.

Lemma warp_tick_2 :
  physics_step sample_config 0.05 warp_board
    (falling (600 + 190 * 0.05) 190 (0.08 - 0.05))
  = (falling 1000 235 0.08, true).
Proof.
  eval_free_fall 235. reflexivity.
Qed.

Lemma warp_waits_for_cooldown_witness :
  let cb := Board_prototype sample_config in
  let w0 := warp_world (falling 990 100 0) in
  let w1 := update sample_config cb 0.05 warp_board 0 w0 in
  snd (update_flag sample_config cb 0.05 warp_board 0 w0) = true /\
  Forall (Rle 0) [0.05] /\
  0 <= 0.05 /\
  snd (update_flag sample_config cb 0.05 warp_board 0
         (run_updates sample_config cb warp_board 0 [0.05] w1)) = true /\
  warp_cooldown sample_config <= elapsed [0.05] + 0.05.
Proof.
  cbv zeta.
  set (cb := Board_prototype sample_config).
  set (w0 := warp_world (falling 990 100 0)).
  set (o1 := falling 600 145 0.08).
  set (o2 := falling (600 + 190 * 0.05) 190 (0.08 - 0.05)).
  set (o3 := falling 1000 235 0.08).
  assert (H0 : update_flag sample_config cb 0.05 warp_board 0 w0
               = (store_orb w0 0 o1, true)).
  { apply (update_flag_quiet sample_config cb 0.05 warp_board 0 w0
             (falling 990 100 0) o1 true eq_refl eq_refl eq_refl warp_tick_0).
    cbn; unfold VIRTUAL_H; lra. }
  assert (H1 : update_flag sample_config cb 0.05 warp_board 0 (store_orb w0 0 o1)
               = (store_orb (store_orb w0 0 o1) 0 o2, false)).
  { apply (update_flag_quiet sample_config cb 0.05 warp_board 0 (store_orb w0 0 o1)
             o1 o2 false eq_refl eq_refl eq_refl warp_tick_1).
    cbn; unfold VIRTUAL_H; lra. }
  assert (H2 : update_flag sample_config cb 0.05 warp_board 0
                 (store_orb (store_orb w0 0 o1) 0 o2)
               = (store_orb (store_orb (store_orb w0 0 o1) 0 o2) 0 o3, true)).
  { apply (update_flag_quiet sample_config cb 0.05 warp_board 0
             (store_orb (store_orb w0 0 o1) 0 o2)
             o2 o3 true eq_refl eq_refl eq_refl warp_tick_2).
    cbn; unfold VIRTUAL_H; lra. }
  assert (Hrun : run_updates sample_config cb warp_board 0 [0.05]
                   (update sample_config cb 0.05 warp_board 0 w0)
                 = store_orb (store_orb w0 0 o1) 0 o2).
  { cbn [run_updates]. unfold update. rewrite H0. cbn [fst]. rewrite H1. reflexivity. }
  assert (Hf0 : snd (update_flag sample_config cb 0.05 warp_board 0 w0) = true)
    by (rewrite H0; reflexivity).
  assert (Hall : Forall (Rle 0) [0.05]) by (repeat constructor; lra).
  assert (Hd : 0 <= 0.05) by lra.
  assert (Hf2 : snd (update_flag sample_config cb 0.05 warp_board 0
                       (run_updates sample_config cb warp_board 0 [0.05]
                          (update sample_config cb 0.05 warp_board 0 w0))) = true)
    by (rewrite Hrun, H2; reflexivity).
  split; [exact Hf0|]. split; [exact Hall|]. split; [exact Hd|]. split; [exact Hf2|].
  destruct (warp_waits_for_cooldown sample_config cb warp_board 0 w0 0.05 [0.05] 0.05
              Hf0 Hall Hd) as [_ Hwait].
  exact (Hwait Hf2).
Defined.

(** ** A gate and a portal in one tick *)

Lemma physics_step_gatePassed cfg dt b o :
  gatePassed (fst (physics_step cfg dt b o)) = gatePassed o.
Proof.
  rewrite physics_step_eq. unfold warps_step.
  destruct (before_warps_frame cfg dt b o) as (_ & _ & Hg).
  destruct (warp_loop_cases cfg b (warps b) (cooldown_step dt (before_warps cfg dt b o)))
    as [(_ & He)|(_ & _ & wa & wb & _ & _ & _ & He)]; rewrite He;
    unfold cooldown_step; destruct (JS.gtb _ _); cbn; exact Hg.
Qed.

(** The gate loop under the handlers of [Board.prototype]: the reference
    to the current orb and the combo are left alone, and the orb leaves
    the loop with an empty gate set only if it entered with one and no
    gate was credited. *)
Lemma gates_loop_prototype cfg gs this h o e log :
  let r := gates_loop (Board_prototype cfg) gs this h o e log in
  currentOrb (gameState (snd (fst r))) = currentOrb (gameState e) /\
  combo (gameState (snd (fst r))) = combo (gameState e) /\
  (gatePassed (fst (fst r)) = [] <-> gatePassed o = [] /\ gate_events gs o = []).
Proof.
  cbv zeta. revert o e log.
  induction gs as [|g gs IH]; intros o e log; cbn [gates_loop gate_events].
  - cbn. repeat split; tauto.
  - destruct (Gate_checkPass g o); [destruct (negb _) eqn:En|]; try apply IH.
    match goal with
    | |- context [gates_loop _ gs this h ?o' ?e' ?l'] =>
        destruct (IH o' e' l') as (H1 & H2 & H3)
    end.
    rewrite H1, H2. split; [reflexivity|]. split; [reflexivity|].
    rewrite H3. cbn [gatePassed set_gatePassed]. unfold Set_add.
    apply negb_true_iff in En. rewrite En.
    split.
    + intros [Habs _]. destruct (gatePassed o); discriminate.
    + intros [_ Habs]. discriminate.
Qed.

(** The combo after a tick in which the current orb ends inside the one
    portal of the board, above the miss line: a gate credited in the same
    tick counts, since the handler reads the orb object [update] has just
    written. *)
Lemma combo_after_portal_tick cfg dt b this w o p :
  heap w this = Some o ->
  currentOrb (gameState (env w)) = Some this ->
  portals b = [p] ->
  Portal_contains p (vx (pos (fst (physics_step cfg dt b o))))
                    (vy (pos (fst (physics_step cfg dt b o)))) = true ->
  vy (pos (fst (physics_step cfg dt b o))) - radius o <= VIRTUAL_H + 100 ->
  combo (gameState (env (update cfg (Board_prototype cfg) dt b this w))) =
    (match gatePassed o, gate_events (gates b) (fst (physics_step cfg dt b o)) with
     | [], [] => 1
     | _, _ => combo (gameState (env w)) + 1
     end)%Z.
Proof.
  intros Ho Hc Hp Hin Hy.
  pose proof (physics_step_radius cfg dt b o) as Hrad.
  pose proof (physics_step_gatePassed cfg dt b o) as Hgp.
  unfold update, update_flag. rewrite Ho.
  destruct (physics_step cfg dt b o) as [o1 f]. cbn [fst] in *.
  pose proof (gates_loop_spec (Board_prototype cfg) (gates b) this (heap w) o1 (env w)
                (events w)) as Hs.
  pose proof (gates_loop_prototype cfg (gates b) this (heap w) o1 (env w) (events w)) as Hg.
  destruct (gates_loop (Board_prototype cfg) (gates b) this (heap w) o1 (env w) (events w))
    as [[o2 e2] l2].
  cbn [fst snd] in Hs, Hg.
  destruct Hs as (S1 & S2 & _ & _). destruct Hg as (G1 & G2 & G3).
  rewrite Hp. cbn [portals_loop]. rewrite S1, Hin.
  unfold bounds_step. cbn [pos radius set_alive].
  rewrite S1, S2, Hrad, (proj2 (JSFacts.gtb_false _ _) Hy).
  cbn [fst env onPortalEntered Board_prototype].
  destruct (onPortalEntered_combo cfg p (heap_set (heap w) this (set_alive o2 false)) e2)
    as [Hcombo _].
  rewrite Hcombo. unfold currentOrb_has_gates.
  rewrite G1, Hc. unfold heap_set. rewrite Nat.eqb_refl.
  cbn [gatePassed set_alive]. rewrite G2.
  rewrite Hgp in G3.
  destruct (gatePassed o2) as [|k ks] eqn:E2.
  - destruct (proj1 G3 eq_refl) as [E1 Eg]. rewrite E1, Eg. reflexivity.
  - cbn. destruct (gatePassed o) as [|k' ks'] eqn:E; [|reflexivity].
    destruct (gate_events (gates b) o1) eqn:Eg; [|reflexivity].
    discriminate (proj2 G3 (conj eq_refl eq_refl)).
Qed.

(** *** Two portal entries in one tick *)







(** * Further properties *)

(** ** The generator: range and non-degeneracy *)

Lemma ToUint32_range z : (0 <= JS.ToUint32 z < JS.two32)%Z.
Proof. unfold JS.ToUint32, JS.two32. apply Z.mod_pos_bound. lia. Qed.

Lemma ToUint32_ToInt32 z : JS.ToUint32 (JS.ToInt32 z) = JS.ToUint32 z.
Proof.
  unfold JS.ToUint32, JS.ToInt32, JS.two32.
  rewrite Zminus_mod_idemp_l.
  replace (z + 2147483648 - 2147483648)%Z with z by lia. reflexivity.
Qed.

Lemma ToUint32_bits z i :
  (0 <= i)%Z ->
  Z.testbit (JS.ToUint32 z) i = if (i <? 32)%Z then Z.testbit z i else false.
Proof.
  intros Hi. unfold JS.ToUint32, JS.two32.
  change 4294967296%Z with (2 ^ 32)%Z.
  destruct (i <? 32)%Z eqn:E.
  - apply Z.ltb_lt in E. apply Z.mod_pow2_bits_low. lia.
  - apply Z.ltb_ge in E. apply Z.mod_pow2_bits_high. lia.
Qed.

Lemma ToInt32_bits z i :
  (0 <= i < 32)%Z -> Z.testbit (JS.ToInt32 z) i = Z.testbit z i.
Proof.
  intros Hi.
  assert (H : Z.testbit (JS.ToUint32 (JS.ToInt32 z)) i = Z.testbit (JS.ToUint32 z) i)
    by now rewrite ToUint32_ToInt32.
  rewrite !ToUint32_bits in H by lia.
  now rewrite (proj2 (Z.ltb_lt i 32)) in H by lia.
Qed.

Lemma xor_bits a b i :
  (0 <= i < 32)%Z ->
  Z.testbit (JS.xor a b) i = xorb (Z.testbit a i) (Z.testbit b i).
Proof.
  intros Hi. unfold JS.xor.
  rewrite ToInt32_bits, Z.lxor_spec, !ToInt32_bits by lia. reflexivity.
Qed.

Lemma shl_bits a k i :
  (0 <= k)%Z -> (0 <= i < 32)%Z ->
  Z.testbit (JS.shl a k) i = if (k <=? i)%Z then Z.testbit a (i - k) else false.
Proof.
  intros Hk Hi. unfold JS.shl.
  rewrite ToInt32_bits, Z.shiftl_spec by lia.
  destruct (k <=? i)%Z eqn:E.
  - apply Z.leb_le in E. apply ToInt32_bits. lia.
  - apply Z.leb_gt in E. apply Z.testbit_neg_r. lia.
Qed.

Lemma ushr_bits a k i :
  (0 <= k)%Z -> (0 <= i)%Z ->
  Z.testbit (JS.ushr a k) i = if (i + k <? 32)%Z then Z.testbit a (i + k) else false.
Proof.
  intros Hk Hi. unfold JS.ushr.
  rewrite Z.shiftr_spec, ToUint32_bits by lia. reflexivity.
Qed.

(** If [b ^ (b << k)] has its 32 low bits clear, so has [b]. *)
Lemma xor_shl_zero k (b : Z -> bool) :
  (0 < k)%Z ->
  (forall i, (0 <= i < 32)%Z ->
     xorb (b i) (if (k <=? i)%Z then b (i - k)%Z else false) = false) ->
  forall i, (0 <= i < 32)%Z -> b i = false.
Proof.
  intros Hk H i [Hi0 Hi]. revert Hi.
  pattern i. apply Zlt_0_ind; [|exact Hi0]. clear i Hi0.
  intros i IH Hi0 Hi.
  specialize (H i (conj Hi0 Hi)).
  destruct (k <=? i)%Z eqn:E.
  - apply Z.leb_le in E. rewrite (IH (i - k)%Z) in H by lia.
    now rewrite xorb_false_r in H.
  - now rewrite xorb_false_r in H.
Qed.

(** If [b ^ (b >>> k)] has its 32 low bits clear, so has [b]. *)
Lemma xor_ushr_zero k (b : Z -> bool) :
  (0 < k)%Z ->
  (forall i, (0 <= i < 32)%Z ->
     xorb (b i) (if (i + k <? 32)%Z then b (i + k)%Z else false) = false) ->
  forall i, (0 <= i < 32)%Z -> b i = false.
Proof.
  intros Hk H i Hi.
  assert (Hd : forall n, (0 <= n)%Z -> forall j, (0 <= j < 32)%Z -> (32 - j <= n)%Z ->
               b j = false).
  { intros n Hn. pattern n. apply Zlt_0_ind; [|exact Hn]. clear n Hn.
    intros n IH Hn j Hj Hjn.
    specialize (H j Hj).
    destruct (j + k <? 32)%Z eqn:E.
    - apply Z.ltb_lt in E.
      rewrite (IH (32 - (j + k))%Z) with (j := (j + k)%Z) in H by lia.
      now rewrite xorb_false_r in H.
    - now rewrite xorb_false_r in H. }
  apply (Hd 32%Z); lia.
Qed.

Lemma low_bits_zero z :
  (forall i, (0 <= i < 32)%Z -> Z.testbit z i = false) -> JS.ToUint32 z = 0%Z.
Proof.
  intros H. apply Z.bits_inj'. intros i Hi.
  rewrite ToUint32_bits, Z.bits_0 by exact Hi.
  destruct (i <? 32)%Z eqn:E; [|reflexivity].
  apply Z.ltb_lt in E. apply H. lia.
Qed.

Lemma rng_step_range x : (0 <= rng_step x < JS.two32)%Z.
Proof. unfold rng_step. apply ToUint32_range. Qed.

(** The state 0 is reached from the state 0 only. *)
Lemma rng_step_zero x : rng_step x = 0%Z -> JS.ToUint32 x = 0%Z.
Proof.
  unfold rng_step. intros H.
  set (x2 := JS.ToUint32 (JS.xor x (JS.shl x 13))) in *.
  set (x3 := JS.xor x2 (JS.ushr x2 17)) in *.
  assert (B4 : forall i, (0 <= i < 32)%Z -> Z.testbit (JS.xor x3 (JS.shl x3 5)) i = false).
  { intros i Hi.
    assert (Hb : Z.testbit (JS.ToUint32 (JS.xor x3 (JS.shl x3 5))) i = false)
      by (rewrite H; apply Z.bits_0).
    rewrite ToUint32_bits in Hb by lia.
    now rewrite (proj2 (Z.ltb_lt i 32)) in Hb by lia. }
  assert (B3 : forall i, (0 <= i < 32)%Z -> Z.testbit x3 i = false).
  { apply (xor_shl_zero 5); [lia|]. intros i Hi.
    rewrite <- (shl_bits x3 5 i) by lia. rewrite <- xor_bits by lia. now apply B4. }
  assert (B2 : forall i, (0 <= i < 32)%Z -> Z.testbit x2 i = false).
  { apply (xor_ushr_zero 17); [lia|]. intros i Hi.
    rewrite <- (ushr_bits x2 17 i) by lia. rewrite <- xor_bits by lia. now apply B3. }
  assert (B1 : forall i, (0 <= i < 32)%Z -> Z.testbit (JS.xor x (JS.shl x 13)) i = false).
  { intros i Hi. specialize (B2 i Hi). unfold x2 in B2.
    rewrite ToUint32_bits in B2 by lia.
    now rewrite (proj2 (Z.ltb_lt i 32)) in B2 by lia. }
  apply low_bits_zero.
  apply (xor_shl_zero 13); [lia|]. intros i Hi.
  rewrite <- (shl_bits x 13 i) by lia. rewrite <- xor_bits by lia. now apply B1.
Qed.

Lemma rng_call_range x :
  0 <= fst (rng_call x) <= 1 /\ snd (rng_call x) = rng_step x.
Proof.
  unfold rng_call. cbn [fst snd]. split; [|reflexivity].
  pose proof (ToUint32_range (rng_step x)) as [Hlo Hhi]. unfold JS.two32 in Hhi.
  apply IZR_le in Hlo.
  assert (Hle : IZR (JS.ToUint32 (rng_step x)) <= 4294967295) by (apply IZR_le; lia).
  split.
  - apply Rmult_le_pos; [exact Hlo|]. lra.
  - apply Rmult_le_reg_r with (r := 4294967295); [lra|].
    unfold Rdiv. rewrite Rmult_assoc, Rinv_l by lra. lra.
Qed.

Lemma rng_step_all_ones : rng_step (rand 1584200935) = 4294967295%Z.
Proof. vm_compute. reflexivity. Qed.

Lemma ToUint32_all_ones : JS.ToUint32 4294967295 = 4294967295%Z.
Proof. vm_compute. reflexivity. Qed.

Lemma first_draw_one : fst (rng_call (rand 1584200935)) = 1.
Proof.
  unfold rng_call. cbn [fst]. rewrite rng_step_all_ones, ToUint32_all_ones. field.
Qed.

Lemma rng_nth_first x : rng_nth 0 x = fst (rng_call x).
Proof. reflexivity. Qed.

Lemma rng_nth_next n x : rng_nth (S n) x = rng_nth n (snd (rng_call x)).
Proof. lazy beta iota delta [rng_nth]. trivial. Qed.

(** X1.  Every number the generator returns lies in [0,1], and the upper
    end is reached: the first call after seed 1584200935 returns
    exactly 1. *)
Theorem rng_draws_in_unit_interval :
  (forall (seed0 : Z) (n : nat), 0 <= rng_nth n (rand seed0) <= 1) /\
  rng_nth 0 (rand 1584200935) = 1.
Proof.
  split.
  - intros seed0 n. generalize (rand seed0) as x.
    induction n as [|n IH]; intros x.
    + rewrite rng_nth_first. apply rng_call_range.
    + rewrite rng_nth_next. apply IH.
  - rewrite rng_nth_first. exact first_draw_one.
Qed.

(** X2.  A seed that is not 0 as a 32-bit value never brings the generator
    to the state 0: every number it returns is strictly positive. *)
Theorem nonzero_seed_never_degenerates (seed0 : Z) (n : nat) :
  JS.ToUint32 seed0 <> 0%Z ->
  0 < rng_nth n (rand seed0).
Proof.
  intros Hseed.
  assert (Hx : JS.ToUint32 (rand seed0) <> 0%Z).
  { unfold rand, JS.ToUint32 in *. rewrite Z.mod_mod by (unfold JS.two32; lia).
    exact Hseed. }
  clear Hseed. revert Hx. generalize (rand seed0) as x. intros x Hx.
  assert (Hstep : forall y, JS.ToUint32 y <> 0%Z ->
                  JS.ToUint32 (rng_step y) <> 0%Z /\ 0 < fst (rng_call y)).
  { intros y Hy.
    assert (Hnz : rng_step y <> 0%Z) by (intros H0; apply Hy; now apply rng_step_zero).
    pose proof (rng_step_range y) as [Hlo Hhi].
    assert (Hid : JS.ToUint32 (rng_step y) = rng_step y).
    { unfold JS.ToUint32. apply Z.mod_small. lia. }
    split; [now rewrite Hid|].
    unfold rng_call. cbn [fst]. rewrite Hid.
    apply Rdiv_lt_0_compat; [|lra]. apply IZR_lt. lia. }
  revert x Hx. induction n as [|n IH]; intros x Hx.
  - rewrite rng_nth_first. apply Hstep, Hx.
  - rewrite rng_nth_next. apply IH. destruct (rng_call_range x) as [_ ->].
    apply Hstep, Hx.
Qed.

Lemma nonzero_seed_never_degenerates_witness :
  JS.ToUint32 (-1) <> 0%Z /\ 0 < rng_nth 3 (rand (-1)).
Proof.
  assert (H : JS.ToUint32 (-1) <> 0%Z) by (intros H; vm_compute in H; discriminate).
  split; [exact H|].
  apply (nonzero_seed_never_degenerates (-1) 3 H).
Defined.

Lemma index_in_range {A : Type} (l : list A) (x : R) :
  0 <= x -> x < INR (length l) -> exists a, JS.index l (JS.floor x) = Some a.
Proof.
  intros H0 Hlt. unfold JS.index, JS.floor.
  pose proof (Zfloor_bound x) as [Hlo Hhi].
  assert (Hge : (0 <= Zfloor x)%Z) by (apply Zfloor_lub; exact H0).
  assert (Hlt' : (Zfloor x < Z.of_nat (length l))%Z).
  { apply lt_IZR. rewrite <- INR_IZR_INZ. lra. }
  rewrite (proj2 (Z.ltb_ge (Zfloor x) 0)) by lia.
  destruct (nth_error l (Z.to_nat (Zfloor x))) as [a|] eqn:E; [now exists a|].
  apply nth_error_None in E. lia.
Qed.

Lemma index_at_length {A : Type} (l : list A) :
  JS.index l (JS.floor (1 * INR (length l))) = None.
Proof.
  unfold JS.index, JS.floor. rewrite Rmult_1_l, INR_IZR_INZ, ZfloorZ.
  rewrite (proj2 (Z.ltb_ge _ 0)) by lia.
  apply nth_error_None. lia.
Qed.

(** X3.  [new Board(seed)] throws exactly when the preset list is empty or
    the first number drawn is 1 (then [presets[pidx]] reads one past the
    end); seed 1584200935 is such a seed, for every configuration. *)
Theorem new_Board_fails_iff (cfg : Config) (seed0 : Z) :
  (new_Board cfg seed0 = None <->
   board_presets cfg = [] \/ fst (rng_call (rand seed0)) = 1) /\
  new_Board cfg 1584200935 = None.
Proof.
  assert (Hiff : forall s, new_Board cfg s = None <->
                 board_presets cfg = [] \/ fst (rng_call (rand s)) = 1).
  { intros s. unfold new_Board, generate, choose_preset.
    pose proof (rng_call_range (rand s)) as [[Hlo Hhi] _].
    destruct (rng_call (rand s)) as [r x]. cbn [fst] in *.
    split.
    - intros H.
      destruct (board_presets cfg) as [|p0 ps] eqn:Ep; [now left|]. right.
      destruct (Rle_lt_or_eq_dec r 1 Hhi) as [Hlt|Heq]; [|exact Heq].
      exfalso.
      destruct (index_in_range (p0 :: ps) (r * INR (length (p0 :: ps)))) as [a Ha].
      + apply Rmult_le_pos; [exact Hlo | apply pos_INR].
      + assert (0 < INR (length (p0 :: ps))) by (apply lt_0_INR; cbn; lia). nra.
      + rewrite Ha in H.
        destruct (gen_panels (preset_panels a) x) as [pp x1].
        match type of H with
        | context [gen_portals ?n ?i ?g ?y ?w ?h x1] =>
            destruct (gen_portals n i g y w h x1) as [pts x2]
        end.
        discriminate.
    - intros [He|H1].
      + rewrite He. cbn [length INR]. rewrite Rmult_0_r.
        unfold JS.index, JS.floor. rewrite (ZfloorZ 0). reflexivity.
      + subst r. now rewrite index_at_length. }
  split; [apply Hiff|].
  apply Hiff. right. exact first_draw_one.
Qed.

(** ** The layout of a generated board *)

Lemma gen_portals_length todo i gap baseY w h x :
  length (fst (gen_portals todo i gap baseY w h x)) = todo.
Proof.
  revert i x. induction todo as [|todo IH]; intros i x; cbn [gen_portals].
  - reflexivity.
  - destruct (rng_call x) as [r x1]. specialize (IH (S i) x1).
    destruct (gen_portals todo (S i) gap baseY w h x1) as [ps x2].
    cbn [fst length] in *. now rewrite IH.
Qed.

Lemma gen_portals_nth todo i gap baseY w h x k p :
  nth_error (fst (gen_portals todo i gap baseY w h x)) k = Some p ->
  pt_x p = gap + INR (i + k) * (w + gap) /\ pt_w p = w.
Proof.
  revert i x k. induction todo as [|todo IH]; intros i x k; cbn [gen_portals].
  - destruct k; discriminate.
  - destruct (rng_call x) as [r x1]. specialize (IH (S i) x1).
    destruct (gen_portals todo (S i) gap baseY w h x1) as [ps x2].
    cbn [fst] in *. destruct k as [|k]; cbn [nth_error].
    + intros H. injection H as <-. cbn. rewrite Nat.add_0_r. auto.
    + intros H. destruct (IH k H) as [Hx Hw].
      replace (i + S k)%nat with (S i + k)%nat by lia. auto.
Qed.

Lemma new_Board_inv cfg s b :
  new_Board cfg s = Some b ->
  exists preset x,
    In preset (board_presets cfg) /\
    warps b = gen_warps (or_empty (preset_warps preset)) 1 /\
    gates b = gen_gates (or_empty (preset_gates preset)) 1 /\
    zones b = gen_zones (or_empty (preset_zones preset)) /\
    portals b = fst (gen_portals (portal_count preset) 0
                       (portal_gap (portal_count preset)) (VIRTUAL_H - 110) 160 70 x) /\
    length (panels b) = length (preset_panels preset).
Proof.
  unfold new_Board, generate, choose_preset.
  destruct (rng_call (rand s)) as [r x0].
  destruct (JS.index (board_presets cfg) _) as [preset|] eqn:Ei; [|discriminate].
  assert (Hin : In preset (board_presets cfg)).
  { unfold JS.index in Ei. destruct (_ <? 0)%Z; [discriminate|].
    eapply nth_error_In; eassumption. }
  assert (Hlen : forall segs y, length (fst (gen_panels segs y)) = length segs).
  { induction segs as [|[[[s0 s1] s2] s3] segs IH]; intros y; cbn [gen_panels].
    - reflexivity.
    - unfold jitter. repeat (destruct (rng_call _) as [? ?]).
      specialize (IH z2). destruct (gen_panels segs z2). cbn in *. now rewrite IH. }
  specialize (Hlen (preset_panels preset) x0).
  destruct (gen_panels (preset_panels preset) x0) as [ps x1].
  destruct (gen_portals (portal_count preset) 0
              ((VIRTUAL_W - INR (portal_count preset) * 160) / (INR (portal_count preset) + 1))
              (VIRTUAL_H - 110) 160 70 x1) as [pts x2] eqn:Ep.
  intros H. injection H as <-. exists preset, x1. cbn.
  unfold portal_gap. rewrite Ep. cbn [fst] in *. auto 10.
Qed.

Lemma portal_count_pos p : (1 <= portal_count p)%nat.
Proof. unfold portal_count. destruct (preset_portals p) as [[|n]|]; lia. Qed.

Lemma portal_gap_eq c : portal_gap c * (INR c + 1) = VIRTUAL_W - INR c * 160.
Proof.
  unfold portal_gap. pose proof (pos_INR c). field. lra.
Qed.

(** X4.  The portals of a generated board form one row at height 1170, each
    160 wide and 70 high, the k-th starting at [gap + k * (160 + gap)] with
    [gap = (720 - 160 * count) / (count + 1)].  With at most 4 portals the
    gap is positive and the row fits the board, from [gap] to [720 - gap];
    with 5 or more the gap is negative, so neighbouring portals overlap. *)
Theorem generated_portal_row (cfg : Config) (seed0 : Z) (b : Board) :
  new_Board cfg seed0 = Some b ->
  let c := length (portals b) in
  let gap := portal_gap c in
  (1 <= c)%nat /\
  (forall k p, nth_error (portals b) k = Some p ->
     pt_x p = gap + INR k * (160 + gap) /\ pt_y p = 1170 /\ pt_w p = 160 /\ pt_h p = 70) /\
  ((c <= 4)%nat ->
     0 < gap /\
     forall p, In p (portals b) -> gap <= pt_x p /\ pt_x p + pt_w p <= VIRTUAL_W - gap) /\
  ((5 <= c)%nat -> gap < 0).
Proof.
  intros Hb. cbv zeta.
  destruct (new_Board_inv cfg seed0 b Hb) as (preset & x & _ & _ & _ & _ & Hp & _).
  pose proof (new_Board_portals cfg seed0 b Hb) as Hgeo.
  assert (Hc : length (portals b) = portal_count preset)
    by (rewrite Hp; apply gen_portals_length).
  rewrite Hc. pose proof (portal_count_pos preset) as Hpos.
  set (c := portal_count preset) in *.
  pose proof (portal_gap_eq c) as Hgap.
  assert (HC1 : 1 <= INR c) by (apply (le_INR 1); exact Hpos).
  assert (Hnth : forall k p, nth_error (portals b) k = Some p ->
            pt_x p = portal_gap c + INR k * (160 + portal_gap c) /\
            pt_y p = 1170 /\ pt_w p = 160 /\ pt_h p = 70).
  { intros k p Hk. rewrite Forall_forall in Hgeo.
    destruct (Hgeo p (nth_error_In _ _ Hk)) as [Hy Hh].
    rewrite Hp in Hk. apply gen_portals_nth in Hk. destruct Hk as [Hx Hw].
    cbn [Nat.add] in Hx. unfold VIRTUAL_H in Hy. repeat split; auto; lra. }
  split; [exact Hpos|]. split; [exact Hnth|]. split.
  - intros H4.
    assert (HC4 : INR c <= 4) by (pose proof (le_INR c 4 H4) as T; cbn in T; lra).
    unfold VIRTUAL_W in *.
    assert (Hg : 0 < portal_gap c) by nra.
    split; [exact Hg|]. intros p Hin.
    apply In_nth_error in Hin. destruct Hin as [k Hk].
    assert (Hkc : (k < c)%nat).
    { rewrite <- Hc. apply nth_error_Some. rewrite Hk. discriminate. }
    destruct (Hnth k p Hk) as (Hx & _ & Hw & _). rewrite Hx, Hw.
    assert (HK0 : 0 <= INR k) by apply pos_INR.
    assert (HK : INR k + 1 <= INR c).
    { rewrite <- S_INR. apply le_INR. lia. }
    split; [nra|].
    assert (0 <= (INR c - 1 - INR k) * (160 + portal_gap c)) by nra.
    nra.
  - intros H5.
    assert (HC5 : 5 <= INR c) by (pose proof (le_INR 5 c H5) as T; cbn in T; lra).
    unfold VIRTUAL_W in *. nra.
Qed.

Lemma sample_board_generated :
  new_Board sample_config 0 = Some (board_of_seed_0 sample_preset).
Proof. apply new_Board_0 with (rest := []). reflexivity. Qed.

Lemma generated_portal_row_witness :
  new_Board sample_config 0 = Some (board_of_seed_0 sample_preset) /\
  (1 <= length (portals (board_of_seed_0 sample_preset)))%nat.
Proof.
  split; [exact sample_board_generated|].
  apply (generated_portal_row sample_config 0 (board_of_seed_0 sample_preset)
           sample_board_generated).
Defined.

Lemma gen_gates_ids gs : forall n, map g_id (gen_gates gs n) = seq n (length gs).
Proof.
  induction gs as [|[[[g0 g1] g2] g3] gs IH]; intros n; cbn [gen_gates map length seq].
  - reflexivity.
  - cbn [g_id new_Gate]. now rewrite IH.
Qed.

Lemma gen_gates_length gs n : length (gen_gates gs n) = length gs.
Proof.
  rewrite <- (length_map g_id), gen_gates_ids. apply length_seq.
Qed.

Lemma gen_warps_seq ws : forall n,
  map w_id (gen_warps ws n) = seq n (2 * length ws).
Proof.
  induction ws as [|[[[[w0 w1] w2] w3] w4] ws IH]; intros n; cbn [gen_warps map length].
  - reflexivity.
  - replace (2 * S (length ws))%nat with (S (S (2 * length ws))) by lia.
    cbn [seq w_id set_partner new_Warp]. now rewrite IH.
Qed.

(** X5.  On a generated board the gates carry the ids 1, 2, ... in board
    order and the warps the ids 1, 2, ..., two for each pair of the preset;
    so no two gates and no two warps share an id. *)
Theorem generated_ids_consecutive (cfg : Config) (seed0 : Z) (b : Board) :
  new_Board cfg seed0 = Some b ->
  map g_id (gates b) = seq 1 (length (gates b)) /\
  map w_id (warps b) = seq 1 (length (warps b)) /\
  Nat.Even (length (warps b)) /\
  NoDup (map g_id (gates b)) /\
  NoDup (map w_id (warps b)).
Proof.
  intros Hb.
  destruct (new_Board_inv cfg seed0 b Hb) as (preset & x & _ & Hw & Hg & _).
  assert (G : map g_id (gates b) = seq 1 (length (gates b))).
  { rewrite Hg, gen_gates_ids, gen_gates_length. reflexivity. }
  assert (Wl : length (warps b) = (2 * length (or_empty (preset_warps preset)))%nat).
  { rewrite <- (length_map w_id), Hw, gen_warps_seq. apply length_seq. }
  assert (W : map w_id (warps b) = seq 1 (length (warps b))).
  { rewrite Wl, Hw. apply gen_warps_seq. }
  split; [exact G|]. split; [exact W|]. split.
  - rewrite Wl. now exists (length (or_empty (preset_warps preset))).
  - rewrite G, W. split; apply seq_NoDup.
Qed.

Lemma generated_ids_consecutive_witness :
  new_Board sample_config 0 = Some (board_of_seed_0 sample_preset) /\
  map w_id (warps (board_of_seed_0 sample_preset))
  = seq 1 (length (warps (board_of_seed_0 sample_preset))).
Proof.
  split; [exact sample_board_generated|].
  apply (generated_ids_consecutive sample_config 0 (board_of_seed_0 sample_preset)
           sample_board_generated).
Defined.

(** X6.  On a generated board every warp has a partner: the reference
    resolves to another warp of the board, of the same radius, whose own
    partner is the first warp again. *)
Theorem generated_warps_paired (cfg : Config) (seed0 : Z) (b : Board) (wa : Warp) :
  new_Board cfg seed0 = Some b ->
  In wa (warps b) ->
  exists wb,
    In wb (warps b) /\
    deref_warp b (partner wa) = Some wb /\
    deref_warp b (partner wb) = Some wa /\
    w_id wa <> w_id wb /\
    w_r wa = w_r wb.
Proof.
  intros Hb Hin.
  destruct (new_Board_inv cfg seed0 b Hb) as (preset & x & _ & Hw & _).
  rewrite Hw in Hin.
  destruct (gen_warps_paired _ _ _ Hin) as (wb & Hinb & H1 & H2 & H3 & H4).
  exists wb. unfold deref_warp. rewrite Hw, H1, H2.
  split; [exact Hinb|]. split.
  { apply (gen_warps_find_own_id _ 1%nat [] wb); [intros p []|exact Hinb]. }
  split.
  { apply (gen_warps_find_own_id _ 1%nat [] wa); [intros p []|exact Hin]. }
  auto.
Qed.

Lemma generated_warps_paired_witness :
  new_Board sample_config 0 = Some (board_of_seed_0 sample_preset) /\
  In (mkWarp 200 700 30 1 (Some 2%nat)) (warps (board_of_seed_0 sample_preset)) /\
  exists wb,
    In wb (warps (board_of_seed_0 sample_preset)) /\
    deref_warp (board_of_seed_0 sample_preset) (Some 2%nat) = Some wb.
Proof.
  assert (Hin : In (mkWarp 200 700 30 1 (Some 2%nat))
                   (warps (board_of_seed_0 sample_preset))) by (left; reflexivity).
  split; [exact sample_board_generated|]. split; [exact Hin|].
  destruct (generated_warps_paired sample_config 0 (board_of_seed_0 sample_preset) _
              sample_board_generated Hin) as (wb & Hb & Hd & _).
  exists wb. split; [exact Hb | exact Hd].
Defined.

(** ** Panels *)

Lemma hypot_sqr x y : JS.hypot x y * JS.hypot x y = x * x + y * y.
Proof. unfold JS.hypot. apply sqrt_sqrt. nra. Qed.

Lemma hypot_eq_sqr x y x' y' :
  x * x + y * y = x' * x' + y' * y' -> JS.hypot x y = JS.hypot x' y'.
Proof. intros H. unfold JS.hypot. now rewrite H. Qed.

Lemma hypot_zero x y : JS.hypot x y = 0 -> x = 0 /\ y = 0.
Proof.
  intros H. pose proof (hypot_sqr x y) as Hs. rewrite H in Hs. split; nra.
Qed.

(** The closest point of the panel's segment, as both methods compute it. *)
Lemma Panel_closest_agree p q :
  let ax := vx (p_a p) in let ay := vy (p_a p) in
  let dx := vx (p_b p) - ax in let dy := vy (p_b p) - ay in
  (dx * (vx q - ax) + dy * (vy q - ay)) / (dx * dx + dy * dy)
  = ((vx q - ax) * dx + (vy q - ay) * dy) / (dx * dx + dy * dy).
Proof. cbv zeta. f_equal. ring. Qed.

Lemma unit_of_normalised nx ny :
  JS.hypot nx ny <> 0 ->
  nx / JS.hypot nx ny * (nx / JS.hypot nx ny)
  + ny / JS.hypot nx ny * (ny / JS.hypot nx ny) = 1.
Proof.
  intros E1. pose proof (hypot_sqr nx ny) as Hs.
  replace (nx / JS.hypot nx ny * (nx / JS.hypot nx ny)
           + ny / JS.hypot nx ny * (ny / JS.hypot nx ny))
    with ((nx * nx + ny * ny) / (JS.hypot nx ny * JS.hypot nx ny))
    by (field; exact E1).
  rewrite <- Hs. field. exact E1.
Qed.

Lemma normal_is_unit p q n : Panel_normalAtClosest p q = Some n -> dot n n = 1.
Proof.
  unfold Panel_normalAtClosest.
  destruct (JS.eqb _ 0); [discriminate|].
  destruct (JS.eqb (JS.hypot _ _) 0) eqn:E1; [discriminate|].
  apply JSFacts.eqb_false in E1.
  intros H. injection H as <-. unfold dot. cbn [vx vy].
  now apply unit_of_normalised.
Qed.

(** X7.  [normalAtClosest] returns [null] exactly when the panel has no
    length or the point lies on the segment (distance 0).  Any vector it
    returns has length 1, and the point then lies at a positive distance
    [distToPoint] from the segment. *)
Theorem normalAtClosest_unit_or_null (p : Panel) (q : Vec2) :
  (Panel_normalAtClosest p q = None <->
   p_a p = p_b p \/ Panel_distToPoint p q = 0) /\
  (forall n, Panel_normalAtClosest p q = Some n ->
     dot n n = 1 /\ 0 < Panel_distToPoint p q).
Proof.
  unfold Panel_normalAtClosest, Panel_distToPoint.
  pose proof (Panel_closest_agree p q) as Hagree. cbv zeta in Hagree. cbv zeta.
  rewrite <- Hagree. clear Hagree.
  set (ax := vx (p_a p)). set (ay := vy (p_a p)).
  set (dx := vx (p_b p) - ax). set (dy := vy (p_b p) - ay).
  set (t := Rmax 0 (Rmin 1 ((dx * (vx q - ax) + dy * (vy q - ay)) / (dx * dx + dy * dy)))).
  set (nx := vx q - (ax + dx * t)). set (ny := vy q - (ay + dy * t)).
  assert (Hab : dx * dx + dy * dy = 0 <-> p_a p = p_b p).
  { subst dx dy ax ay. destruct (p_a p) as [a1 a2], (p_b p) as [b1 b2]. cbn. split.
    - intros H.
      pose proof (Rle_0_sqr (b1 - a1)) as S1. pose proof (Rle_0_sqr (b2 - a2)) as S2.
      unfold Rsqr in S1, S2.
      assert (Z1 : (b1 - a1) * (b1 - a1) = 0) by lra.
      assert (Z2 : (b2 - a2) * (b2 - a2) = 0) by lra.
      apply Rmult_integral in Z1. apply Rmult_integral in Z2.
      assert (b1 = a1) by (destruct Z1; lra). assert (b2 = a2) by (destruct Z2; lra).
      now subst.
    - intros H. injection H as -> ->. ring. }
  destruct (JS.eqb (dx * dx + dy * dy) 0) eqn:E0.
  - apply JSFacts.eqb_true in E0. split.
    + split; [intros _; left; now apply Hab | reflexivity].
    + intros n Hn. discriminate.
  - apply JSFacts.eqb_false in E0.
    destruct (JS.eqb (JS.hypot nx ny) 0) eqn:E1.
    + apply JSFacts.eqb_true in E1. split.
      * split; [intros _; right; exact E1 | reflexivity].
      * intros n Hn. discriminate.
    + apply JSFacts.eqb_false in E1. split.
      * split; [discriminate|]. intros [H|H]; [apply Hab in H|]; contradiction.
      * intros n Hn. injection Hn as <-. unfold dot. cbn [vx vy].
        pose proof (JSFacts.hypot_nonneg nx ny) as H0.
        split; [now apply unit_of_normalised | lra].
Qed.


(** One panel: either nothing changes, or the orb was within reach and
    moving into the panel, and its velocity is mirrored and scaled. *)
Lemma panel_step_cases o p :
  panel_step o p = o \/
  exists n,
    Panel_normalAtClosest p (pos o) = Some n /\
    Panel_distToPoint p (pos o) <= radius o + 0.5 /\
    dot (vel o) n < 0 /\
    vel (panel_step o p) =
      mkVec2 ((vx (vel o) - 2 * dot (vel o) n * vx n) * restitution p)
             ((vy (vel o) - 2 * dot (vel o) n * vy n) * restitution p) /\
    pos (panel_step o p) =
      mkVec2 (vx (pos o) + vx n * (radius o - Panel_distToPoint p (pos o) + 0.5))
             (vy (pos o) + vy n * (radius o - Panel_distToPoint p (pos o) + 0.5)).
Proof.
  unfold panel_step.
  destruct (Panel_normalAtClosest p (pos o)) as [n|] eqn:En; [|now left].
  destruct (JS.leb _ _) eqn:El; [|now left].
  fold (dot (vel o) n).
  destruct (JS.ltb _ _) eqn:Ed; [|now left].
  right. exists n. apply JSFacts.leb_true in El. apply JSFacts.ltb_true in Ed.
  repeat split; auto.
Qed.

Lemma reflect_dot v n r :
  dot n n = 1 ->
  dot (mkVec2 ((vx v - 2 * dot v n * vx n) * r) ((vy v - 2 * dot v n * vy n) * r)) n
  = - r * dot v n.
Proof.
  unfold dot. cbn [vx vy]. intros Hn.
  replace ((vx v - 2 * (vx v * vx n + vy v * vy n) * vx n) * r * vx n
           + (vy v - 2 * (vx v * vx n + vy v * vy n) * vy n) * r * vy n)
    with (r * (vx v * vx n + vy v * vy n)
          * (1 - 2 * (vx n * vx n + vy n * vy n))) by ring.
  rewrite Hn. ring.
Qed.

Lemma reflect_speed v n r :
  dot n n = 1 -> 0 <= r ->
  JS.hypot ((vx v - 2 * dot v n * vx n) * r) ((vy v - 2 * dot v n * vy n) * r)
  = JS.hypot (vx v) (vy v) * r.
Proof.
  intros Hn Hr. rewrite JSFacts.hypot_scale by exact Hr. f_equal.
  apply hypot_eq_sqr. unfold dot in *.
  replace ((vx v - 2 * (vx v * vx n + vy v * vy n) * vx n)
           * (vx v - 2 * (vx v * vx n + vy v * vy n) * vx n)
           + (vy v - 2 * (vx v * vx n + vy v * vy n) * vy n)
             * (vy v - 2 * (vx v * vx n + vy v * vy n) * vy n))
    with (vx v * vx v + vy v * vy v
          + 4 * (vx v * vx n + vy v * vy n) * (vx v * vx n + vy v * vy n)
            * ((vx n * vx n + vy n * vy n) - 1)) by ring.
  rewrite Hn. ring.
Qed.

(** X8.  A panel either leaves the orb as it is or reflects it; it reflects
    only an orb within [radius + 0.5] of the segment that moves into the
    panel.  The reflection turns the velocity component along the normal
    around, scaled by the restitution, and multiplies the speed by the
    restitution; so a panel with restitution in [0,1] never speeds the
    orb up. *)
Theorem panel_reflection (o : Orb) (p : Panel) :
  0 <= restitution p <= 1 ->
  speed (panel_step o p) <= speed o /\
  (panel_step o p <> o ->
   exists n,
     Panel_normalAtClosest p (pos o) = Some n /\
     Panel_distToPoint p (pos o) <= radius o + 0.5 /\
     dot (vel o) n < 0 /\
     dot (vel (panel_step o p)) n = - restitution p * dot (vel o) n /\
     0 <= dot (vel (panel_step o p)) n /\
     speed (panel_step o p) = speed o * restitution p).
Proof.
  intros [Hr0 Hr1].
  destruct (panel_step_cases o p) as [Hsame|(n & Hn & Hd & Hdot & Hv & Hp)].
  - rewrite Hsame. split; [lra|]. intros H. now destruct H.
  - pose proof (normal_is_unit p (pos o) n Hn) as Hu.
    assert (Hs : speed (panel_step o p) = speed o * restitution p).
    { unfold speed. rewrite Hv. cbn [vx vy]. now apply reflect_speed. }
    pose proof (speed_nonneg o) as H0.
    split; [rewrite Hs; nra|].
    intros _. exists n.
    assert (Hd' : dot (vel (panel_step o p)) n = - restitution p * dot (vel o) n).
    { rewrite Hv. now apply reflect_dot. }
    repeat split; auto. rewrite Hd'. nra.
Qed.

Lemma panel_reflection_witness :
  0 <= restitution (new_Panel 100 300 300 340) <= 1 /\
  speed (panel_step (orb_moving 0 100) (new_Panel 100 300 300 340))
  <= speed (orb_moving 0 100).
Proof.
  assert (H : 0 <= restitution (new_Panel 100 300 300 340) <= 1) by (cbn; lra).
  split; [exact H|].
  apply (panel_reflection (orb_moving 0 100) (new_Panel 100 300 300 340) H).
Defined.

Lemma gen_panels_restitution segs : forall x,
  Forall (fun p => restitution p = 0.95) (fst (gen_panels segs x)).
Proof.
  induction segs as [|[[[s0 s1] s2] s3] segs IH]; intros x; cbn [gen_panels].
  - constructor.
  - unfold jitter. repeat (destruct (rng_call _) as [? ?]).
    specialize (IH z2). destruct (gen_panels segs z2). cbn [fst] in *.
    constructor; [reflexivity | exact IH].
Qed.

Lemma new_Board_restitution cfg s b :
  new_Board cfg s = Some b -> Forall (fun p => restitution p = 0.95) (panels b).
Proof.
  unfold new_Board, generate.
  destruct (choose_preset cfg (rand s)) as [[preset|] x]; [|discriminate].
  pose proof (gen_panels_restitution (preset_panels preset) x) as Hr.
  destruct (gen_panels (preset_panels preset) x) as [ps x1].
  match goal with
  | |- context [gen_portals ?n ?i ?g ?y ?w ?h x1] =>
      destruct (gen_portals n i g y w h x1) as [pts x2]
  end.
  intros H. injection H as <-. exact Hr.
Qed.

(** X9.  On a generated board every panel has restitution 0.95, and the
    whole panel block of a tick never increases the speed of the orb. *)
Theorem generated_panels_never_accelerate (cfg : Config) (seed0 : Z) (b : Board) (o : Orb) :
  new_Board cfg seed0 = Some b ->
  Forall (fun p => restitution p = 0.95) (panels b) /\
  speed (panels_step b o) <= speed o.
Proof.
  intros Hb. pose proof (new_Board_restitution cfg seed0 b Hb) as Hr.
  split; [exact Hr|].
  unfold panels_step. revert o. induction Hr as [|p ps Hp Hps IH]; intros o; cbn [fold_left].
  - lra.
  - specialize (IH (panel_step o p)).
    destruct (panel_step_cases o p) as [Hsame|(n & Hn & _ & _ & Hv & _)].
    + rewrite Hsame in IH. rewrite Hsame. exact IH.
    + assert (Hs : speed (panel_step o p) = speed o * restitution p).
      { unfold speed. rewrite Hv. cbn [vx vy].
        apply reflect_speed; [exact (normal_is_unit _ _ _ Hn) | rewrite Hp; lra]. }
      pose proof (speed_nonneg o). rewrite Hp in Hs. nra.
Qed.

Lemma generated_panels_never_accelerate_witness :
  new_Board sample_config 0 = Some (board_of_seed_0 sample_preset) /\
  speed (panels_step (board_of_seed_0 sample_preset) (orb_moving 0 100))
  <= speed (orb_moving 0 100).
Proof.
  split; [exact sample_board_generated|].
  apply (generated_panels_never_accelerate sample_config 0
           (board_of_seed_0 sample_preset) (orb_moving 0 100) sample_board_generated).
Defined.

(** ** Walls and zones *)

Lemma hypot_le x y x' y' :
  Rabs x' <= Rabs x -> Rabs y' <= Rabs y -> JS.hypot x' y' <= JS.hypot x y.
Proof.
  intros Hx Hy. unfold JS.hypot. apply sqrt_le_1_alt.
  assert (x' * x' <= x * x).
  { pose proof (Rabs_pos x'). pose proof (Rabs_pos x).
    replace (x' * x') with (Rabs x' * Rabs x')
      by (unfold Rabs; destruct (Rcase_abs x'); ring).
    replace (x * x) with (Rabs x * Rabs x)
      by (unfold Rabs; destruct (Rcase_abs x); ring).
    nra. }
  assert (y' * y' <= y * y).
  { pose proof (Rabs_pos y'). pose proof (Rabs_pos y).
    replace (y' * y') with (Rabs y' * Rabs y')
      by (unfold Rabs; destruct (Rcase_abs y'); ring).
    replace (y * y) with (Rabs y * Rabs y)
      by (unfold Rabs; destruct (Rcase_abs y); ring).
    nra. }
  lra.
Qed.

(** X10.  After the wall block the orb is inside the side walls and below
    the top, [radius <= x <= 720 - radius] and [radius <= y], for every orb
    that fits between the walls; no speed is gained; and an orb that was
    already inside is not touched. *)
Theorem walls_keep_orb_inside (o : Orb) :
  0 <= radius o -> 2 * radius o <= VIRTUAL_W ->
  radius o <= vx (pos (walls_step o)) <= VIRTUAL_W - radius o /\
  radius o <= vy (pos (walls_step o)) /\
  speed (walls_step o) <= speed o /\
  (radius o <= vx (pos o) <= VIRTUAL_W - radius o -> radius o <= vy (pos o) ->
   walls_step o = o).
Proof.
  intros Hr0 Hr. unfold walls_step, speed.
  destruct o as [[px py] [vx0 vy0] r gp wc al i]. cbn [radius pos vel vx vy] in *.
  pose proof (Rabs_pos vx0) as Ax. pose proof (Rabs_pos vy0) as Ay.
  assert (Sx : Rabs (Rabs vx0 * 0.95) <= Rabs vx0)
    by (rewrite Rabs_right by nra; nra).
  assert (Sx' : Rabs (- Rabs vx0 * 0.95) <= Rabs vx0)
    by (rewrite Rabs_left1 by nra; nra).
  assert (Sy : Rabs (Rabs vy0 * 0.95) <= Rabs vy0)
    by (rewrite Rabs_right by nra; nra).
  assert (Sxx : Rabs (- Rabs (Rabs vx0 * 0.95) * 0.95) <= Rabs vx0).
  { pose proof (Rabs_pos (Rabs vx0 * 0.95)). rewrite Rabs_left1 by nra. nra. }
  destruct (JS.ltb (px - r) 0) eqn:E1;
    cbn [radius pos vel vx vy set_pos set_vel];
    destruct (JS.gtb _ VIRTUAL_W) eqn:E2;
    cbn [radius pos vel vx vy set_pos set_vel];
    destruct (JS.ltb (py - r) 0) eqn:E3;
    cbn [radius pos vel vx vy set_pos set_vel];
    try apply JSFacts.ltb_true in E1; try apply JSFacts.ltb_false in E1;
    try apply JSFacts.gtb_true in E2; try apply JSFacts.gtb_false in E2;
    try apply JSFacts.ltb_true in E3; try apply JSFacts.ltb_false in E3;
    (split; [lra|]); (split; [lra|]);
    (split; [apply hypot_le; first [exact Sx | exact Sx' | exact Sy | exact Sxx | lra]
            | intros; first [lra | reflexivity]]).
Qed.

Lemma walls_keep_orb_inside_witness :
  0 <= radius (orb_moving (-2000) 0) /\
  2 * radius (orb_moving (-2000) 0) <= VIRTUAL_W /\
  radius (orb_moving (-2000) 0)
  <= vx (pos (walls_step (move_step 0.2 (orb_moving (-2000) 0)))).
Proof.
  assert (H0 : 0 <= radius (move_step 0.2 (orb_moving (-2000) 0))) by (cbn; lra).
  assert (H1 : 2 * radius (move_step 0.2 (orb_moving (-2000) 0)) <= VIRTUAL_W)
    by (cbn; unfold VIRTUAL_W; lra).
  split; [exact H0|]. split; [exact H1|].
  apply (walls_keep_orb_inside (move_step 0.2 (orb_moving (-2000) 0)) H0 H1).
Defined.

Lemma scale_vel_1 o : scale_vel o 1 = o.
Proof.
  destruct o as [q [a b] r gp wc al i]. unfold scale_vel, set_vel. cbn.
  now rewrite !Rmult_1_r.
Qed.

Lemma scale_vel_scale_vel o a b : scale_vel (scale_vel o a) b = scale_vel o (a * b).
Proof.
  unfold scale_vel, set_vel. cbn. now rewrite !Rmult_assoc.
Qed.

Lemma zone_step_factor cfg dt o z :
  zone_step cfg dt o z = scale_vel o (zone_factor cfg dt z (vx (pos o)) (vy (pos o))).
Proof.
  unfold zone_step, zone_factor.
  destruct (Zone_contains z _ _); [|now rewrite scale_vel_1].
  destruct (z_type z); cbn [ZoneType_eqb].
  - now rewrite Rmult_1_r.
  - now rewrite Rmult_1_l.
  - now rewrite Rmult_1_r, scale_vel_1.
Qed.

Lemma zones_step_factor cfg dt b o :
  zones_step cfg dt b o =
    scale_vel o (zones_factor cfg dt (zones b) (vx (pos o)) (vy (pos o))).
Proof.
  unfold zones_step, zones_factor. generalize (zones b) as zs. intros zs. revert o.
  induction zs as [|z zs IH]; intros o; cbn [fold_left fold_right].
  - now rewrite scale_vel_1.
  - rewrite IH, zone_step_factor, scale_vel_scale_vel. reflexivity.
Qed.

Lemma zone_factor_plus cfg dt1 dt2 z px py :
  zone_factor cfg (dt1 + dt2) z px py
  = zone_factor cfg dt1 z px py * zone_factor cfg dt2 z px py.
Proof.
  unfold zone_factor, JS.pow.
  destruct (Zone_contains z px py); [|ring].
  replace ((dt1 + dt2) * 60) with (dt1 * 60 + dt2 * 60) by ring.
  rewrite !Rpower_plus.
  destruct (ZoneType_eqb (z_type z) accel), (ZoneType_eqb (z_type z) drag); ring.
Qed.

Lemma zone_factor_pos cfg dt z px py : 0 < zone_factor cfg dt z px py.
Proof.
  unfold zone_factor, JS.pow, Rpower.
  destruct (Zone_contains z px py); [|lra].
  destruct (ZoneType_eqb (z_type z) accel), (ZoneType_eqb (z_type z) drag);
    repeat apply Rmult_lt_0_compat; try apply exp_pos; lra.
Qed.

Lemma zones_factor_plus cfg dt1 dt2 zs px py :
  zones_factor cfg (dt1 + dt2) zs px py
  = zones_factor cfg dt1 zs px py * zones_factor cfg dt2 zs px py.
Proof.
  unfold zones_factor. induction zs as [|z zs IH]; cbn [fold_right]; [ring|].
  rewrite IH, zone_factor_plus. ring.
Qed.

Lemma zones_factor_pos cfg dt zs px py : 0 < zones_factor cfg dt zs px py.
Proof.
  unfold zones_factor. induction zs as [|z zs IH]; cbn [fold_right]; [lra|].
  apply Rmult_lt_0_compat; [apply zone_factor_pos | exact IH].
Qed.

(** X11.  For positive zone rates, where [Math.pow] is the real power
    function, the zone block multiplies the velocity by one positive factor
    and touches nothing else, so it never turns the orb or moves it.  The
    factor of a step of length [dt1 + dt2] is the product of the factors of
    the two steps: two zone blocks in a row, with the orb in place, do
    what one block does for the total time, and a block of length 0 does
    nothing. *)
Theorem zone_block_is_time_additive (cfg : Config) (b : Board) (o : Orb) (dt1 dt2 : R) :
  0 < physics_accelPerFrame cfg ->
  0 < physics_dragPerFrame cfg ->
  (exists k, 0 < k /\ zones_step cfg dt1 b o = scale_vel o k) /\
  zones_step cfg dt2 b (zones_step cfg dt1 b o) = zones_step cfg (dt1 + dt2) b o /\
  zones_step cfg 0 b o = o.
Proof.
  intros _ _. split; [|split].
  - exists (zones_factor cfg dt1 (zones b) (vx (pos o)) (vy (pos o))).
    split; [apply zones_factor_pos | apply zones_step_factor].
  - rewrite !zones_step_factor. cbn [pos scale_vel set_vel].
    rewrite scale_vel_scale_vel, zones_factor_plus. reflexivity.
  - rewrite zones_step_factor.
    assert (H : forall zs px py, zones_factor cfg 0 zs px py = 1).
    { intros zs px py. unfold zones_factor.
      induction zs as [|z zs IH]; cbn [fold_right]; [reflexivity|].
      rewrite IH. unfold zone_factor, JS.pow.
      rewrite Rmult_0_l. unfold Rpower. rewrite !Rmult_0_l, exp_0.
      destruct (Zone_contains z px py); [|ring].
      destruct (ZoneType_eqb _ accel), (ZoneType_eqb _ drag); ring. }
    rewrite H. apply scale_vel_1.
Qed.

Lemma zone_block_is_time_additive_witness :
  let b := board_of_seed_0 sample_preset in
  let o := falling 550 100 0 in
  0 < physics_accelPerFrame sample_config /\
  0 < physics_dragPerFrame sample_config /\
  zones_step sample_config 0.01 b (zones_step sample_config 0.006 b o)
  = zones_step sample_config (0.006 + 0.01) b o.
Proof.
  cbv zeta.
  assert (Ha : 0 < physics_accelPerFrame sample_config) by (cbn; lra).
  assert (Hd : 0 < physics_dragPerFrame sample_config) by (cbn; lra).
  split; [exact Ha|]. split; [exact Hd|].
  destruct (zone_block_is_time_additive sample_config (board_of_seed_0 sample_preset)
              (falling 550 100 0) 0.006 0.01 Ha Hd) as (_ & Hadd & _).
  exact Hadd.
Defined.

(** ** Gates and the life of an orb *)

Lemma gate_ids_app evs1 evs2 : gate_ids (evs1 ++ evs2) = gate_ids evs1 ++ gate_ids evs2.
Proof.
  induction evs1 as [|[k| |] evs1 IH]; cbn [app gate_ids]; auto. now rewrite IH.
Qed.

Lemma gate_ids_portal_events ps o : gate_ids (portal_events ps o) = [].
Proof.
  unfold portal_events.
  induction (filter _ ps) as [|p l IH]; cbn [map gate_ids]; auto.
Qed.

Lemma gate_ids_miss_events o : gate_ids (miss_events o) = [].
Proof. unfold miss_events. destruct (JS.gtb _ _); reflexivity. Qed.

Lemma Set_has_false_not_in s k : Set_has s k = false -> ~ In k s.
Proof.
  unfold Set_has. intros H Hin.
  assert (Ht : existsb (Nat.eqb k) s = true).
  { apply existsb_exists. exists k. split; [exact Hin | apply Nat.eqb_refl]. }
  congruence.
Qed.

(** The gate loop appends the credited ids to the gate set of the orb, and
    keeps the set free of repetitions. *)
Lemma gates_loop_gatePassed cb gs this h o e log :
  gatePassed (fst (fst (gates_loop cb gs this h o e log)))
  = gatePassed o ++ gate_ids (gate_events gs o) /\
  alive (fst (fst (gates_loop cb gs this h o e log))) = alive o /\
  id (fst (fst (gates_loop cb gs this h o e log))) = id o /\
  (NoDup (gatePassed o) -> NoDup (gatePassed o ++ gate_ids (gate_events gs o))).
Proof.
  revert o e log.
  induction gs as [|g gs IH]; intros o e log; cbn [gates_loop gate_events].
  - cbn. rewrite app_nil_r. auto.
  - destruct (Gate_checkPass g o); [destruct (negb _) eqn:En|]; try apply IH.
    apply negb_true_iff in En.
    match goal with
    | |- context [gates_loop cb gs this h ?o' ?e' ?l'] =>
        destruct (IH o' e' l') as (H1 & H2 & H3 & H4)
    end.
    cbn [gatePassed set_gatePassed alive id gate_ids] in *.
    unfold Set_add in *. rewrite En in *.
    rewrite <- app_assoc in H1, H4. cbn [app] in H1, H4.
    repeat split; auto.
    intros Hnd. apply H4.
    apply NoDup_app; [exact Hnd | repeat constructor; intros [] |].
    intros k Hk [<-|[]]. exact (Set_has_false_not_in _ _ En Hk).
Qed.

Lemma physics_step_alive_id cfg dt b o :
  alive (fst (physics_step cfg dt b o)) = alive o /\
  id (fst (physics_step cfg dt b o)) = id o.
Proof.
  rewrite physics_step_eq. unfold warps_step.
  assert (Hb : alive (before_warps cfg dt b o) = alive o /\
               id (before_warps cfg dt b o) = id o).
  { unfold before_warps.
    assert (Hz : forall zs o1, alive (fold_left (zone_step cfg dt) zs o1) = alive o1 /\
                               id (fold_left (zone_step cfg dt) zs o1) = id o1).
    { induction zs as [|z zs IH]; intros o1; cbn [fold_left]; [auto|].
      destruct (IH (zone_step cfg dt o1 z)) as [-> ->].
      rewrite zone_step_factor. auto. }
    assert (Hp : forall ps o1, alive (fold_left panel_step ps o1) = alive o1 /\
                               id (fold_left panel_step ps o1) = id o1).
    { induction ps as [|p ps IH]; intros o1; cbn [fold_left]; [auto|].
      destruct (IH (panel_step o1 p)) as [-> ->].
      unfold panel_step. destruct (Panel_normalAtClosest p (pos o1)); [|auto].
      destruct (JS.leb _ _); [destruct (JS.ltb _ _)|]; auto. }
    unfold panels_step, zones_step.
    destruct (Hp (panels b) (fold_left (zone_step cfg dt) (zones b)
                (walls_step (move_step dt (clamp_step cfg (gravity_step cfg dt o))))))
      as [-> ->].
    destruct (Hz (zones b)
                (walls_step (move_step dt (clamp_step cfg (gravity_step cfg dt o)))))
      as [-> ->].
    unfold walls_step, move_step, clamp_step, gravity_step.
    repeat (match goal with |- context [if ?c then _ else _] => destruct c end);
      auto. }
  destruct Hb as [Ha Hi].
  destruct (warp_loop_cases cfg b (warps b) (cooldown_step dt (before_warps cfg dt b o)))
    as [(_ & He)|(_ & _ & wa & wb & _ & _ & _ & He)]; rewrite He;
    unfold cooldown_step; destruct (JS.gtb _ _); cbn; auto.
Qed.

Lemma portals_loop_alive cb ps this h o e log :
  alive (fst (fst (portals_loop cb ps this h o e log)))
  = alive o && match portal_events ps o with [] => true | _ => false end /\
  id (fst (fst (portals_loop cb ps this h o e log))) = id o.
Proof.
  revert o e log. unfold portal_events.
  induction ps as [|p ps IH]; intros o e log; cbn [portals_loop filter map].
  - cbn. now rewrite andb_true_r.
  - destruct (Portal_contains p (vx (pos o)) (vy (pos o))) eqn:Ec.
    + match goal with
      | |- context [portals_loop cb ps this h ?o' ?e' ?l'] =>
          destruct (IH o' e' l') as (H1 & H2)
      end.
      rewrite H1, H2. cbn. now rewrite andb_false_r.
    + apply IH.
Qed.

Lemma gate_events_not_terminal gs o : existsb is_terminal (gate_events gs o) = false.
Proof.
  revert o. induction gs as [|g gs IH]; intros o; cbn [gate_events]; [reflexivity|].
  destruct (Gate_checkPass g o); [destruct (negb _)|]; cbn; auto.
Qed.

(** The orb one [update] leaves in the store. *)
Lemma update_orb cfg cb dt b this w o :
  heap w this = Some o ->
  exists o',
    heap (update cfg cb dt b this w) this = Some o' /\
    radius o' = radius o /\ id o' = id o /\
    gatePassed o' = gatePassed o ++ gate_ids (tick_events cfg cb dt b this w) /\
    alive o' = alive o && negb (existsb is_terminal (tick_events cfg cb dt b this w)).
Proof.
  intros Ho. rewrite (tick_events_spec cfg cb dt b this w o Ho).
  pose proof (physics_step_radius cfg dt b o) as Hrad.
  pose proof (physics_step_gatePassed cfg dt b o) as Hgp.
  pose proof (physics_step_alive_id cfg dt b o) as [Hal Hid].
  unfold update, update_flag. rewrite Ho.
  destruct (physics_step cfg dt b o) as [o1 f]. cbn [fst] in *.
  pose proof (gates_loop_spec cb (gates b) this (heap w) o1 (env w) (events w)) as Hs.
  pose proof (gates_loop_gatePassed cb (gates b) this (heap w) o1 (env w) (events w)) as Hg.
  destruct (gates_loop cb (gates b) this (heap w) o1 (env w) (events w)) as [[o2 e2] l2].
  cbn [fst snd] in Hs, Hg. destruct Hs as (S1 & S2 & _ & _).
  destruct Hg as (G1 & G2 & G3 & _).
  pose proof (portals_loop_spec cb (portals b) this (heap w) o2 e2 l2) as Hp.
  pose proof (portals_loop_alive cb (portals b) this (heap w) o2 e2 l2) as Hpa.
  destruct (portals_loop cb (portals b) this (heap w) o2 e2 l2) as [[o3 e3] l3].
  cbn [fst snd] in Hp, Hpa. destruct Hp as (P1 & P2 & _ & P4 & _).
  destruct Hpa as (A1 & A2).
  pose proof (bounds_step_spec cb this (heap w) o3 e3 l3) as Hbs.
  assert (Hba : alive (fst (fst (bounds_step cb this (heap w) o3 e3 l3)))
                = alive o3 && match miss_events o3 with [] => true | _ => false end /\
                id (fst (fst (bounds_step cb this (heap w) o3 e3 l3))) = id o3).
  { unfold bounds_step, miss_events. destruct (JS.gtb _ _); cbn;
      [now rewrite andb_false_r | now rewrite andb_true_r]. }
  destruct (bounds_step cb this (heap w) o3 e3 l3) as [[o4 e4] l4].
  cbn [fst snd] in Hbs, Hba. destruct Hbs as (B1 & B2 & _ & B4 & _).
  destruct Hba as (C1 & C2).
  cbn [fst heap]. exists o4. unfold heap_set. rewrite Nat.eqb_refl.
  split; [reflexivity|]. split; [congruence|]. split; [congruence|].
  assert (Hpe : portal_events (portals b) o2 = portal_events (portals b) o1)
    by (unfold portal_events; now rewrite S1).
  assert (Hme : miss_events o3 = miss_events o1)
    by (unfold miss_events; now rewrite P1, P2, S1, S2).
  split.
  - rewrite B4, P4, G1, Hgp, !gate_ids_app, gate_ids_portal_events, gate_ids_miss_events.
    now rewrite !app_nil_r.
  - rewrite C1, A1, G2, Hal, Hme, Hpe.
    rewrite !existsb_app.
    rewrite gate_events_not_terminal. cbn [orb].
    unfold portal_events, miss_events.
    destruct (filter _ (portals b)) as [|p l]; destruct (JS.gtb _ _); cbn;
      now rewrite ?andb_true_r, ?andb_false_r.
Qed.

Lemma update_events_app cfg cb dt b this w :
  events (update cfg cb dt b this w) = events w ++ tick_events cfg cb dt b this w.
Proof.
  destruct (heap w this) as [o|] eqn:Ho.
  - destruct (update_flag_spec cfg cb dt b this w o Ho) as (_ & o' & _ & _ & _ & _ & He).
    rewrite (tick_events_spec cfg cb dt b this w o Ho). exact He.
  - rewrite (tick_events_no_orb cfg cb dt b this w Ho), app_nil_r.
    unfold update. now rewrite (update_flag_no_orb cfg cb dt b this w Ho).
Qed.

Lemma NoDup_app_disjoint {A : Type} (l1 l2 : list A) (k : A) :
  NoDup (l1 ++ l2) -> In k l1 -> ~ In k l2.
Proof.
  induction l1 as [|a l1 IH]; cbn [app]; intros Hnd Hin Hin2; [destruct Hin|].
  inversion Hnd as [|? ? Hna Hnd']; subst.
  destruct Hin as [<-|Hin].
  - apply Hna. apply in_or_app. now right.
  - exact (IH Hnd' Hin Hin2).
Qed.

(** X12.  However long an orb is updated, no gate id is credited twice to
    it, and none that its gate set already holds is credited again: the
    ids credited during the run are exactly what the run appends to the
    gate set. *)
Theorem gate_credited_once_per_orb
  (cfg : Config) (cb : Callbacks) (b : Board) (this : nat) (dts : list R)
  (w : World) (o : Orb) :
  heap w this = Some o ->
  NoDup (gatePassed o) ->
  let evs := skipn (length (events w)) (events (run_updates cfg cb b this dts w)) in
  NoDup (gate_ids evs) /\
  (forall k, In k (gatePassed o) -> ~ In k (gate_ids evs)) /\
  exists o', heap (run_updates cfg cb b this dts w) this = Some o' /\
             gatePassed o' = gatePassed o ++ gate_ids evs.
Proof.
  intros Ho Hnd. cbv zeta.
  assert (Hrun : exists evs o',
            events (run_updates cfg cb b this dts w) = events w ++ evs /\
            heap (run_updates cfg cb b this dts w) this = Some o' /\
            gatePassed o' = gatePassed o ++ gate_ids evs /\
            NoDup (gatePassed o')).
  { revert w o Ho Hnd. induction dts as [|dt dts IH]; intros w o Ho Hnd; cbn [run_updates].
    - exists [], o. rewrite !app_nil_r. auto.
    - destruct (update_orb cfg cb dt b this w o Ho) as (o1 & Ho1 & _ & _ & Hg1 & _).
      assert (Hnd1 : NoDup (gatePassed o1)).
      { rewrite Hg1, (tick_events_spec cfg cb dt b this w o Ho), !gate_ids_app,
          gate_ids_portal_events, gate_ids_miss_events, !app_nil_r.
        rewrite <- (physics_step_gatePassed cfg dt b o).
        destruct (gates_loop_gatePassed cb (gates b) this (heap w)
                    (fst (physics_step cfg dt b o)) (env w) (events w))
          as (_ & _ & _ & Hkeep).
        apply Hkeep. rewrite physics_step_gatePassed. exact Hnd. }
      destruct (IH _ o1 Ho1 Hnd1) as (evs & o' & He & Ho' & Hg & Hn).
      exists (tick_events cfg cb dt b this w ++ evs), o'.
      rewrite He, update_events_app, <- app_assoc.
      split; [reflexivity|]. split; [exact Ho'|].
      split; [|exact Hn].
      rewrite Hg, Hg1, gate_ids_app, <- app_assoc. reflexivity. }
  destruct Hrun as (evs & o' & He & Ho' & Hg & Hn).
  rewrite He, skipn_length_app. rewrite Hg in Hn.
  split; [exact (NoDup_app_remove_l _ _ Hn)|]. split.
  - intros k Hk Hin. exact (NoDup_app_disjoint _ _ k Hn Hk Hin).
  - exists o'. auto.
Qed.

Lemma gate_credited_once_per_orb_witness :
  heap low_world 0%nat = Some low_orb /\
  NoDup (gatePassed low_orb) /\
  NoDup (gate_ids (skipn (length (events low_world))
                     (events (run_updates sample_config (Board_prototype sample_config)
                                (board_of_seed_0 sample_preset) 0 [0.016; 0.016]
                                low_world)))).
Proof.
  assert (Hnd : NoDup (gatePassed low_orb)) by constructor.
  split; [reflexivity|]. split; [exact Hnd|].
  apply (gate_credited_once_per_orb sample_config (Board_prototype sample_config)
           (board_of_seed_0 sample_preset) 0 [0.016; 0.016] low_world low_orb
           eq_refl Hnd).
Defined.

Lemma update_other_orbs cfg cb dt b this w a :
  a <> this -> heap (update cfg cb dt b this w) a = heap w a.
Proof.
  intros Hne. unfold update, update_flag.
  destruct (heap w this) as [o|]; [|reflexivity].
  destruct (physics_step cfg dt b o) as [o1 f].
  destruct (gates_loop _ _ _ _ _ _ _) as [[o2 e2] l2].
  destruct (portals_loop _ _ _ _ _ _ _) as [[o3 e3] l3].
  destruct (bounds_step _ _ _ _ _ _) as [[o4 e4] l4].
  cbn [fst heap]. unfold heap_set.
  now rewrite (proj2 (Nat.eqb_neq a this) Hne).
Qed.

(** X13.  [update] marks the orb dead exactly when it calls
    [onPortalEntered] or [onMiss] in that tick, and never brings a dead orb
    back; it keeps the radius and the id of the orb, and it leaves every
    other orb of the store alone. *)
Theorem update_kills_on_terminal_call_only
  (cfg : Config) (cb : Callbacks) (dt : R) (b : Board) (this : nat) (w : World) (o : Orb) :
  heap w this = Some o ->
  (exists o',
     heap (update cfg cb dt b this w) this = Some o' /\
     radius o' = radius o /\ id o' = id o /\
     alive o' = alive o && negb (existsb is_terminal (tick_events cfg cb dt b this w)) /\
     (alive o = false -> alive o' = false)) /\
  (forall a, a <> this -> heap (update cfg cb dt b this w) a = heap w a).
Proof.
  intros Ho. split.
  - destruct (update_orb cfg cb dt b this w o Ho) as (o' & Ho' & Hr & Hi & _ & Ha).
    exists o'. repeat split; auto. intros Hd. now rewrite Ha, Hd.
  - intros a Ha. now apply update_other_orbs.
Qed.

Lemma update_kills_on_terminal_call_only_witness :
  heap low_world 0%nat = Some low_orb /\
  forall a, a <> 0%nat ->
    heap (update sample_config (Board_prototype sample_config) 0.016 low_board 0
            low_world) a = heap low_world a.
Proof.
  split; [reflexivity|].
  apply (update_kills_on_terminal_call_only sample_config (Board_prototype sample_config)
           0.016 low_board 0 low_world low_orb eq_refl).
Defined.

(** ** The session: history, bonus probability, high score *)

Lemma push_shot_spec l s :
  (length l <= 10)%nat ->
  (length (push_shot l s) <= 10)%nat /\
  (length (push_shot l s) = Nat.min (S (length l)) 10) /\
  last (push_shot l s) (mkShot None false) = s.
Proof.
  intros Hl. unfold push_shot.
  assert (Hlast : forall (l0 : list Shot) d, last (l0 ++ [s]) d = s)
    by (intros l0 d; apply last_last).
  destruct (10 <? length (l ++ [s]))%nat eqn:E.
  - apply Nat.ltb_lt in E. rewrite length_app in E. cbn [length] in E.
    assert (Hl10 : length l = 10%nat) by lia.
    destruct l as [|a l]; [discriminate|]. cbn [app tl].
    rewrite length_app. cbn [length] in *. split; [lia|]. split; [lia|].
    apply Hlast.
  - apply Nat.ltb_ge in E. rewrite length_app in *. cbn [length] in *.
    split; [lia|]. split; [lia|]. apply Hlast.
Qed.

Lemma doEnergyCheck_recentShots cfg e :
  recentShots (gameState (doEnergyCheck cfg e)) = recentShots (gameState e).
Proof.
  unfold doEnergyCheck. destruct (JS.geb _ _); [|reflexivity].
  cbn [Math_random]. destruct (JS.ltb _ _); reflexivity.
Qed.

(** X14.  The shot history never holds more than 10 records: a portal
    entry and a miss each append one record, which becomes the newest, and
    drop the oldest when that would make 11; a passed gate leaves the
    history alone. *)
Theorem history_holds_at_most_10
  (cfg : Config) (h : Heap) (e : Env) (p : Portal) (gt : Gate) (a : nat) :
  (length (recentShots (gameState e)) <= 10)%nat ->
  let n := length (recentShots (gameState e)) in
  let e1 := Board_onPortalEntered cfg p h e in
  let e2 := Board_onMiss cfg a h e in
  length (recentShots (gameState e1)) = Nat.min (S n) 10 /\
  last (recentShots (gameState e1)) (mkShot None false) = mkShot (kind p) false /\
  length (recentShots (gameState e2)) = Nat.min (S n) 10 /\
  last (recentShots (gameState e2)) (mkShot None false) = mkShot None true /\
  recentShots (gameState (Board_onGatePassed cfg gt h e)) = recentShots (gameState e).
Proof.
  intros Hl. cbv zeta.
  destruct (push_shot_spec (recentShots (gameState e)) (mkShot (kind p) false) Hl)
    as (_ & L1 & T1).
  destruct (push_shot_spec (recentShots (gameState e)) (mkShot None true) Hl)
    as (_ & L2 & T2).
  assert (R1 : recentShots (gameState (Board_onPortalEntered cfg p h e))
               = push_shot (recentShots (gameState e)) (mkShot (kind p) false)).
  { unfold Board_onPortalEntered. rewrite doEnergyCheck_recentShots.
    destruct (JS.gtb _ _); reflexivity. }
  assert (R2 : recentShots (gameState (Board_onMiss cfg a h e))
               = push_shot (recentShots (gameState e)) (mkShot None true)).
  { unfold Board_onMiss. rewrite doEnergyCheck_recentShots. reflexivity. }
  rewrite R1, R2. repeat split; auto.
Qed.

Lemma history_holds_at_most_10_witness :
  (length (recentShots (gameState sample_env)) <= 10)%nat /\
  length (recentShots (gameState (Board_onMiss sample_config 0 empty_heap sample_env)))
  = 1%nat.
Proof.
  assert (H : (length (recentShots (gameState sample_env)) <= 10)%nat) by (cbn; lia).
  split; [exact H|].
  destruct (history_holds_at_most_10 sample_config empty_heap sample_env
              low_portal (new_Gate 300 400 420 400 1) 0 H) as (_ & _ & L & _).
  exact L.
Defined.

(** X15.  The bonus probability is the base probability plus at most 0.14
    of boosts, cut at the cap: it is never above the cap and never below
    the smaller of base and cap. *)
Theorem bonus_probability_bounds (cfg : Config) (g : GameState) :
  calcBonusProb cfg g <= bonus_cap cfg /\
  calcBonusProb cfg g <= bonus_baseProb cfg + 0.14 /\
  Rmin (bonus_baseProb cfg) (bonus_cap cfg) <= calcBonusProb cfg g.
Proof.
  unfold calcBonusProb.
  destruct (existsb _ _); destruct (2 <=? _)%nat; destruct (2 <=? combo g)%Z;
    unfold Rmin; repeat (destruct (Rle_dec _ _)); repeat split; lra.
Qed.

(** X16.  After a portal entry the high score is the larger of the old
    high score and the new score, and it is written to storage exactly when
    the new score is larger; no handler ever lowers the high score. *)
Theorem high_score_is_running_maximum
  (cfg : Config) (h : Heap) (e : Env) (p : Portal) (gt : Gate) (a : nat) :
  let e1 := Board_onPortalEntered cfg p h e in
  highScore (gameState e1) = Rmax (highScore (gameState e)) (score (gameState e1)) /\
  (highScore (gameState e) < score (gameState e1) ->
   oc_highscore e1 = Some (score (gameState e1))) /\
  (score (gameState e1) <= highScore (gameState e) -> oc_highscore e1 = oc_highscore e) /\
  highScore (gameState (Board_onGatePassed cfg gt h e)) = highScore (gameState e) /\
  highScore (gameState (Board_onMiss cfg a h e)) = highScore (gameState e).
Proof.
  cbv zeta.
  destruct (onGatePassed_keeps_highScore cfg gt h e) as (G & _).
  destruct (onMiss_keeps_highScore cfg a h e) as (M & _).
  split; [|split; [|split; [|split; [exact G | exact M]]]].
  - unfold Board_onPortalEntered.
    match goal with |- context [doEnergyCheck cfg ?e0] => set (e1 := e0) end.
    destruct (doEnergyCheck_frame cfg e1) as (H1 & H2 & _).
    rewrite H1, H2. subst e1.
    destruct (JS.gtb _ _) eqn:E; cbn.
    + apply JSFacts.gtb_true in E. cbn in E. rewrite Rmax_right by lra. reflexivity.
    + apply JSFacts.gtb_false in E. cbn in E. rewrite Rmax_left by lra. reflexivity.
  - intros Hlt. apply (onPortalEntered_highScore cfg p h e). exact Hlt.
  - unfold Board_onPortalEntered.
    match goal with |- context [doEnergyCheck cfg ?e0] => set (e1 := e0) end.
    destruct (doEnergyCheck_frame cfg e1) as (_ & H2 & _ & _ & H5).
    rewrite H2, H5. subst e1.
    destruct (JS.gtb _ _) eqn:E; cbn.
    + apply JSFacts.gtb_true in E. cbn in E. intros Hle. lra.
    + reflexivity.
Qed.

(** ** Bonus draw and flow *)

Lemma calcBonusProb_energy cfg g x :
  calcBonusProb cfg (set_energy g x) = calcBonusProb cfg g.
Proof. reflexivity. Qed.

(** X17.  The bonus draw on a full meter: a draw below the bonus
    probability turns flow on with the base duration and sets the strong
    flash; any other draw leaves flow as it was, running or not, and sets
    the weak flash.  Checking again right away does nothing: the meter is
    empty. *)
Theorem bonus_draw_outcome (cfg : Config) (e : Env) :
  100 <= energy (gameState e) ->
  let r := random e (draws e) in
  let p := calcBonusProb cfg (gameState e) in
  let e' := doEnergyCheck cfg e in
  (r < p ->
   isFlow (gameState e') = true /\
   flowTimeLeft (gameState e') = flow_baseDuration cfg /\
   flashTimer e' = 0.8 /\ flashStrong e' = true) /\
  (p <= r ->
   isFlow (gameState e') = isFlow (gameState e) /\
   flowTimeLeft (gameState e') = flowTimeLeft (gameState e) /\
   flashTimer e' = 0.6 /\ flashStrong e' = false) /\
  doEnergyCheck cfg e' = e'.
Proof.
  intros Hfull. cbv zeta.
  destruct (doEnergyCheck_full cfg e Hfull) as (H0 & _).
  split; [|split].
  - intros Hlt. unfold doEnergyCheck.
    rewrite (proj2 (JSFacts.geb_true _ _) Hfull). cbn [Math_random].
    destruct (JS.ltb _ _) eqn:E; [cbn; auto|].
    apply JSFacts.ltb_false in E.
    cbn [on_gameState gameState set_gameState random draws] in E.
    rewrite calcBonusProb_energy in E. lra.
  - intros Hge. unfold doEnergyCheck.
    rewrite (proj2 (JSFacts.geb_true _ _) Hfull). cbn [Math_random].
    destruct (JS.ltb _ _) eqn:E; [|cbn; auto].
    apply JSFacts.ltb_true in E.
    cbn [on_gameState gameState set_gameState random draws] in E.
    rewrite calcBonusProb_energy in E. lra.
  - apply doEnergyCheck_below. rewrite H0. lra.
Qed.

Lemma bonus_draw_outcome_witness :
  let e := on_gameState (fun g => set_energy g 100) sample_env in
  100 <= energy (gameState e) /\
  doEnergyCheck sample_config (doEnergyCheck sample_config e)
  = doEnergyCheck sample_config e.
Proof.
  cbv zeta.
  assert (H : 100 <= energy (gameState (on_gameState (fun g => set_energy g 100)
                                          sample_env))) by (cbn; lra).
  split; [exact H|].
  apply (bonus_draw_outcome sample_config _ H).
Defined.



(** ** Launch and pointer input *)

Lemma hypot_cos_sin a p : 0 <= p -> JS.hypot (cos a * p) (sin a * p) = p.
Proof.
  intros Hp. rewrite JSFacts.hypot_scale by exact Hp.
  unfold JS.hypot.
  replace (cos a * cos a + sin a * sin a) with 1
    by (pose proof (sin2_cos2 a) as H; unfold Rsqr in H; lra).
  rewrite sqrt_1. ring.
Qed.

Lemma swipe_power_range cfg dx dy :
  fire_min cfg <= fire_max cfg ->
  fire_min cfg <= swipe_power cfg dx dy <= fire_max cfg.
Proof.
  intros Hm. unfold swipe_power.
  pose proof (JSFacts.clamp_bounds ((JS.hypot dx dy - 10) / 200) 0 1 ltac:(lra)) as [H0 H1].
  split; nra.
Qed.

(** X19.  Every launch that [doFireFromInput] makes starts at the launch
    point, goes up and to the right, and has the power as its speed, which
    lies between [fire.min] and [fire.max]; the orb starts alive, with no
    gate credited and no warp cooldown. *)
Theorem launch_speed_is_power (cfg : Config) (dx dy : R) (w : World) :
  launch_refused (gameState (env w)) = false ->
  0 <= fire_min cfg <= fire_max cfg ->
  exists o,
    heap (doFireFromInput cfg dx dy w) (next_addr w) = Some o /\
    pos o = mkVec2 (VIRTUAL_W / 2) 1220 /\
    speed o = swipe_power cfg dx dy /\
    fire_min cfg <= speed o <= fire_max cfg /\
    0 <= vx (vel o) /\ vy (vel o) <= 0 /\
    alive o = true /\ gatePassed o = [] /\ warpCooldown o = 0 /\
    radius o = orbRadius cfg.
Proof.
  intros Hr [Hmin Hmm].
  pose proof (swipe_power_range cfg dx dy Hmm) as [Hlo Hhi].
  rewrite (doFireFromInput_launches cfg dx dy w Hr).
  destruct (spawnOrb_creates cfg (-20 * PI / 180) (swipe_power cfg dx dy) w)
    as (_ & Hh & _).
  eexists. split; [exact Hh|]. unfold speed. cbn [new_Orb pos vel vx vy alive gatePassed
    warpCooldown radius].
  rewrite hypot_cos_sin by lra.
  pose proof PI_RGT_0 as Hpi. pose proof PI_4 as H4.
  assert (Hc : 0 < cos (-20 * PI / 180)) by (apply cos_gt_0; lra).
  assert (Hs : sin (-20 * PI / 180) < 0).
  { replace (-20 * PI / 180) with (- (20 * PI / 180)) by lra.
    rewrite sin_neg. pose proof (sin_gt_0 (20 * PI / 180)) as Hsg.
    assert (0 < sin (20 * PI / 180)) by (apply Hsg; lra). lra. }
  repeat split; auto; nra.
Qed.

Lemma launch_speed_is_power_witness :
  launch_refused (gameState (env sample_world)) = false /\
  0 <= fire_min sample_config <= fire_max sample_config /\
  exists o,
    heap (doFireFromInput sample_config 0 150 sample_world) (next_addr sample_world)
    = Some o /\
    fire_min sample_config <= speed o <= fire_max sample_config.
Proof.
  assert (H : 0 <= fire_min sample_config <= fire_max sample_config) by (cbn; lra).
  split; [reflexivity|]. split; [exact H|].
  destruct (launch_speed_is_power sample_config 0 150 sample_world eq_refl H)
    as (o & Ho & _ & _ & Hs & _).
  exists o. split; [exact Ho | exact Hs].
Defined.

(** X20.  [screenToVirtual] maps the canvas rectangle linearly onto the
    virtual board: the point a fraction [u] across and [v] down the canvas
    goes to [(720 u, 1280 v)], whatever the size of the canvas on screen. *)
Theorem screenToVirtual_is_linear (rect : DOMRect) (u v : R) :
  rect_width rect <> 0 -> rect_height rect <> 0 ->
  screenToVirtual rect (rect_left rect + u * rect_width rect)
                       (rect_top rect + v * rect_height rect)
  = mkVec2 (u * VIRTUAL_W) (v * VIRTUAL_H).
Proof.
  intros Hw Hh. unfold screenToVirtual, SCALE_X, SCALE_Y, CANVAS_W, CANVAS_H,
    VIRTUAL_W, VIRTUAL_H.
  f_equal; field; auto.
Qed.

Lemma screenToVirtual_is_linear_witness :
  rect_width (mkDOMRect 10 20 180 320) <> 0 /\
  rect_height (mkDOMRect 10 20 180 320) <> 0 /\
  screenToVirtual (mkDOMRect 10 20 180 320) (10 + 0.5 * 180) (20 + 1 * 320)
  = mkVec2 (0.5 * VIRTUAL_W) (1 * VIRTUAL_H).
Proof.
  assert (Hw : rect_width (mkDOMRect 10 20 180 320) <> 0) by (cbn; lra).
  assert (Hh : rect_height (mkDOMRect 10 20 180 320) <> 0) by (cbn; lra).
  split; [exact Hw|]. split; [exact Hh|].
  apply (screenToVirtual_is_linear (mkDOMRect 10 20 180 320) 0.5 1 Hw Hh).
Defined.

(** X21.  A press and release at the same point launches nothing, with or
    without pointer moves that come back to it; a release or a move
    without a press changes nothing; and every release ends the drag. *)
Theorem click_without_drag_launches_nothing
  (cfg : Config) (rect : DOMRect) (x y x1 y1 : R) (d : Drag) (w : World) :
  snd (pointerup cfg (pointerdown rect x y d) w) = w /\
  snd (pointerup cfg (pointermove rect x y (pointermove rect x1 y1
                        (pointerdown rect x y d))) w) = w /\
  isDragging (fst (pointerup cfg d w)) = false /\
  (isDragging d = false ->
   pointerup cfg d w = (d, w) /\ pointermove rect x y d = d).
Proof.
  assert (Hsame : forall p, on_pointerup cfg p p w = w).
  { intros p. unfold on_pointerup.
    replace (vx p - vx p) with 0 by ring. replace (vy p - vy p) with 0 by ring.
    rewrite JSFacts.hypot_0_0.
    now rewrite (proj2 (JSFacts.ltb_true 0 10)) by lra. }
  split; [|split; [|split]].
  - unfold pointerup, pointerdown. cbn. apply Hsame.
  - unfold pointerup, pointermove, pointerdown. cbn. apply Hsame.
  - unfold pointerup. destruct (isDragging d) eqn:E; cbn.
    + destruct (dragStart d), (dragPos d); reflexivity.
    + exact E.
  - intros Hd. unfold pointerup, pointermove. rewrite Hd. cbn. auto.
Qed.

(** X22.  Once the round has ended (no shot left and no orb in flight) no
    input starts a shot, and a tick keeps the round ended and the score,
    the orbs and the record of calls as they are. *)
Theorem ended_round_stays_ended
  (cfg : Config) (cb : Callbacks) (w : World) (dx dy ts : R) (d : Drag) :
  round_ended (gameState (env w)) = true ->
  doFireAuto cfg w = w /\
  doFireFromInput cfg dx dy w = w /\
  keydown_Space cfg d w = w /\
  fireBtn_click cfg w = w /\
  snd (pointerup cfg d w) = w /\
  round_ended (gameState (env (tick cfg cb ts w))) = true /\
  score (gameState (env (tick cfg cb ts w))) = score (gameState (env w)) /\
  events (tick cfg cb ts w) = events w.
Proof.
  intros Hend. unfold round_ended in Hend.
  apply andb_prop in Hend. destruct Hend as [Hs Hc].
  destruct (currentOrb (gameState (env w))) as [a|] eqn:Ec; [discriminate|].
  assert (Hr : launch_refused (gameState (env w)) = true)
    by (unfold launch_refused; now rewrite Ec).
  assert (Ha : doFireAuto cfg w = w) by (unfold doFireAuto; now rewrite Hr).
  assert (Hi : doFireFromInput cfg dx dy w = w)
    by (unfold doFireFromInput; now rewrite Hr).
  split; [exact Ha|]. split; [exact Hi|].
  split; [unfold keydown_Space; destruct (negb _); auto|].
  split; [exact Ha|]. split.
  { unfold pointerup. destruct (negb _); [reflexivity|].
    cbn [dragStart dragPos]. destruct (dragStart d), (dragPos d); try reflexivity.
    cbn [snd]. unfold on_pointerup. destruct (JS.ltb _ _); [reflexivity|].
    unfold doFireFromInput. now rewrite Hr. }
  assert (Hflow : forall dt e,
            currentOrb (gameState (flow_step cfg dt e)) = currentOrb (gameState e) /\
            shotsLeft (gameState (flow_step cfg dt e)) = shotsLeft (gameState e) /\
            score (gameState (flow_step cfg dt e)) = score (gameState e)).
  { intros dt e. unfold flow_step, doFlowExtendDraw. cbn [Math_random].
    repeat (match goal with |- context [if ?c then _ else _] => destruct c end);
      cbn; auto. }
  unfold tick.
  match goal with
  | |- context [flow_step cfg ?dt ?e0] =>
      destruct (Hflow dt e0) as (F1 & F2 & F3); set (e1 := flow_step cfg dt e0) in *
  end.
  cbn [env heap next_addr events gameState set_lastTs] in *.
  rewrite F1, Ec. cbn [env events].
  rewrite !flash_step_gameState. unfold round_ended.
  rewrite F1, F2, F3, Ec, Hs. auto.
Qed.

Lemma ended_round_stays_ended_witness :
  let w := mkWorld empty_heap 0
             (on_gameState (fun g => set_shotsLeft g 0) sample_env) [] in
  round_ended (gameState (env w)) = true /\
  doFireAuto sample_config w = w.
Proof.
  cbv zeta.
  split; [reflexivity|].
  apply (ended_round_stays_ended sample_config (Board_prototype sample_config)
           (mkWorld empty_heap 0 (on_gameState (fun g => set_shotsLeft g 0) sample_env) [])
           0 0 1016 (mkDrag false None None) eq_refl).
Defined.

(** ** Shots *)

Lemma gates_loop_shots cfg gs this h o e log :
  shotsLeft (gameState (snd (fst (gates_loop (Board_prototype cfg) gs this h o e log))))
  = shotsLeft (gameState e).
Proof.
  revert o e log. induction gs as [|g gs IH]; intros o e log; cbn [gates_loop].
  - reflexivity.
  - destruct (Gate_checkPass g o); [destruct (negb _)|]; try apply IH.
    rewrite IH. reflexivity.
Qed.

Lemma onMiss_currentOrb cfg a h e :
  currentOrb (gameState (Board_onMiss cfg a h e)) = None.
Proof.
  unfold Board_onMiss.
  match goal with |- context [doEnergyCheck cfg ?e0] => set (e1 := e0) end.
  destruct (doEnergyCheck_frame cfg e1) as (_ & _ & _ & H4 & _). now rewrite H4.
Qed.

Lemma portals_loop_shots cfg ps this h o e log :
  let e' := snd (fst (portals_loop (Board_prototype cfg) ps this h o e log)) in
  shotsLeft (gameState e')
  = (shotsLeft (gameState e) - Z.of_nat (length (portal_events ps o)))%Z /\
  currentOrb (gameState e')
  = match portal_events ps o with [] => currentOrb (gameState e) | _ => None end.
Proof.
  cbv zeta. revert o e log. unfold portal_events.
  induction ps as [|p ps IH]; intros o e log; cbn [portals_loop filter map length].
  - split; [cbn; lia | reflexivity].
  - destruct (Portal_contains p (vx (pos o)) (vy (pos o))) eqn:Ec.
    + match goal with
      | |- context [portals_loop _ ps this h ?o' ?e' ?l'] =>
          destruct (IH o' e' l') as (H1 & H2)
      end.
      cbn [pos set_alive] in H1, H2. rewrite H1, H2.
      cbn [onPortalEntered Board_prototype map length].
      rewrite onPortalEntered_shotsLeft.
      destruct (onPortalEntered_combo cfg p (heap_set h this (set_alive o false)) e)
        as [_ Hn].
      rewrite Hn. split; [lia|]. now destruct (map _ _).
    + apply IH.
Qed.

(** X23.  Under the handlers of [Board.prototype] one [update] takes one
    shot off the counter for every [onPortalEntered] and [onMiss] call it
    makes and none for a gate; after a tick with such a call no orb is
    current, and after a tick without one the current orb is the same. *)
Theorem each_terminal_call_costs_one_shot
  (cfg : Config) (dt : R) (b : Board) (this : nat) (w : World) (o : Orb) :
  heap w this = Some o ->
  let w' := update cfg (Board_prototype cfg) dt b this w in
  let n := length (filter is_terminal
                     (tick_events cfg (Board_prototype cfg) dt b this w)) in
  shotsLeft (gameState (env w')) = (shotsLeft (gameState (env w)) - Z.of_nat n)%Z /\
  (n = 0%nat -> currentOrb (gameState (env w')) = currentOrb (gameState (env w))) /\
  ((0 < n)%nat -> currentOrb (gameState (env w')) = None).
Proof.
  intros Ho. cbv zeta.
  rewrite (tick_events_spec cfg (Board_prototype cfg) dt b this w o Ho).
  unfold update, update_flag. rewrite Ho.
  destruct (physics_step cfg dt b o) as [o1 f]. cbn [fst].
  pose proof (gates_loop_spec (Board_prototype cfg) (gates b) this (heap w) o1 (env w)
                (events w)) as Hs.
  pose proof (gates_loop_shots cfg (gates b) this (heap w) o1 (env w) (events w)) as Hsh.
  pose proof (gates_loop_prototype cfg (gates b) this (heap w) o1 (env w) (events w)) as Hg.
  destruct (gates_loop (Board_prototype cfg) (gates b) this (heap w) o1 (env w) (events w))
    as [[o2 e2] l2].
  cbn [fst snd] in Hs, Hsh, Hg. destruct Hs as (S1 & S2 & _ & _). destruct Hg as (G1 & _).
  pose proof (portals_loop_spec (Board_prototype cfg) (portals b) this (heap w) o2 e2 l2)
    as Hp.
  pose proof (portals_loop_shots cfg (portals b) this (heap w) o2 e2 l2) as Hps.
  destruct (portals_loop (Board_prototype cfg) (portals b) this (heap w) o2 e2 l2)
    as [[o3 e3] l3].
  cbn [fst snd] in Hp, Hps. destruct Hp as (P1 & P2 & _). destruct Hps as (Q1 & Q2).
  assert (Hpe : portal_events (portals b) o2 = portal_events (portals b) o1)
    by (unfold portal_events; now rewrite S1).
  assert (Hme : miss_events o3 = miss_events o1)
    by (unfold miss_events; now rewrite P1, P2, S1, S2).
  rewrite Hpe in Q1, Q2.
  assert (Hfil : filter is_terminal
                   (gate_events (gates b) o1 ++ portal_events (portals b) o1
                    ++ miss_events o1)
                 = portal_events (portals b) o1 ++ miss_events o1).
  { rewrite !filter_app.
    assert (F1 : forall gs o0, filter is_terminal (gate_events gs o0) = []).
    { induction gs as [|g gs IH]; intros o0; cbn [gate_events]; [reflexivity|].
      destruct (Gate_checkPass g o0); [destruct (negb _)|]; cbn; auto. }
    assert (F2 : filter is_terminal (portal_events (portals b) o1)
                 = portal_events (portals b) o1).
    { unfold portal_events. induction (filter _ (portals b)) as [|p l IH]; cbn; [auto|].
      now rewrite IH. }
    assert (F3 : filter is_terminal (miss_events o1) = miss_events o1).
    { unfold miss_events. destruct (JS.gtb _ _); reflexivity. }
    now rewrite F1, F2, F3. }
  rewrite Hfil, length_app.
  unfold bounds_step. fold (miss_events o3) in *.
  assert (Hm3 : (if JS.gtb (vy (pos o3) - radius o3) (VIRTUAL_H + 100)
                 then [Miss] else []) = miss_events o1) by exact Hme.
  destruct (JS.gtb (vy (pos o3) - radius o3) (VIRTUAL_H + 100)) eqn:Eb;
    rewrite <- Hm3; cbn [fst env length onMiss Board_prototype].
  - rewrite onMiss_shotsLeft, onMiss_currentOrb, Q1, Hsh.
    split; [lia|]. split; [lia | reflexivity].
  - rewrite Q1, Q2, Hsh, G1, Nat.add_0_r.
    split; [lia|].
    destruct (portal_events (portals b) o1); cbn [length]; split; auto; lia.
Qed.

Lemma each_terminal_call_costs_one_shot_witness :
  heap low_world 0%nat = Some low_orb /\
  shotsLeft (gameState (env (update sample_config (Board_prototype sample_config)
                               0.016 low_board 0 low_world)))
  = (shotsLeft (gameState (env low_world))
     - Z.of_nat (length (filter is_terminal
                           (tick_events sample_config (Board_prototype sample_config)
                              0.016 low_board 0 low_world))))%Z.
Proof.
  split; [reflexivity|].
  apply (each_terminal_call_costs_one_shot sample_config 0.016 low_board 0 low_world
           low_orb eq_refl).
Defined.

Lemma gen_portals_right_of todo : forall i gap baseY w h x px py,
  0 < w + gap ->
  px < gap + INR i * (w + gap) ->
  filter (fun p => Portal_contains p px py) (fst (gen_portals todo i gap baseY w h x)) = [].
Proof.
  induction todo as [|todo IH]; intros i gap baseY w h x px py Hwg Hlt; cbn [gen_portals].
  - reflexivity.
  - destruct (rng_call x) as [r x1].
    specialize (IH (S i) gap baseY w h x1 px py Hwg).
    destruct (gen_portals todo (S i) gap baseY w h x1) as [ps x2].
    cbn [fst filter] in *. unfold Portal_contains at 1. cbn [pt_x pt_y pt_w pt_h].
    rewrite (proj2 (JSFacts.geb_false px _)) by lra. cbn [andb].
    apply IH. rewrite S_INR. nra.
Qed.

Lemma gen_portals_at_most_one todo : forall i gap baseY w h x px py,
  0 < gap -> 0 <= w ->
  (length (filter (fun p => Portal_contains p px py)
             (fst (gen_portals todo i gap baseY w h x))) <= 1)%nat.
Proof.
  induction todo as [|todo IH]; intros i gap baseY w h x px py Hg Hw; cbn [gen_portals].
  - cbn. lia.
  - destruct (rng_call x) as [r x1].
    pose proof (gen_portals_right_of todo (S i) gap baseY w h x1 px py ltac:(lra)) as Hright.
    specialize (IH (S i) gap baseY w h x1 px py Hg Hw).
    destruct (gen_portals todo (S i) gap baseY w h x1) as [ps x2].
    cbn [fst filter] in *.
    destruct (Portal_contains _ px py) eqn:Ec; [|exact IH].
    unfold Portal_contains in Ec. cbn [pt_x pt_y pt_w pt_h] in Ec.
    apply andb_prop in Ec. destruct Ec as [Ec _].
    apply andb_prop in Ec. destruct Ec as [Ec _].
    apply andb_prop in Ec. destruct Ec as [_ Ec].
    apply JSFacts.leb_true in Ec.
    rewrite Hright; [cbn; lia|]. rewrite S_INR. nra.
Qed.

(** X24.  On a generated board with at most 4 portals, an orb of
    non-negative radius ends at most one shot in a tick: [update] makes at
    most one [onPortalEntered] or [onMiss] call. *)
Theorem generated_board_one_terminal_call
  (cfg : Config) (cb : Callbacks) (seed0 : Z) (b : Board) (dt : R) (this : nat)
  (w : World) (o : Orb) :
  new_Board cfg seed0 = Some b ->
  (length (portals b) <= 4)%nat ->
  heap w this = Some o ->
  0 <= radius o ->
  (length (filter is_terminal (tick_events cfg cb dt b this w)) <= 1)%nat.
Proof.
  intros Hb H4 Ho Hr.
  destruct (new_Board_inv cfg seed0 b Hb) as (preset & x & _ & _ & _ & _ & Hp & _).
  assert (Hc : length (portals b) = portal_count preset)
    by (rewrite Hp; apply gen_portals_length).
  pose proof (portal_count_pos preset) as Hpos.
  pose proof (portal_gap_eq (portal_count preset)) as Hgap.
  assert (HC1 : 1 <= INR (portal_count preset)) by (apply (le_INR 1); exact Hpos).
  assert (HC4 : INR (portal_count preset) <= 4).
  { rewrite Hc in H4. pose proof (le_INR _ 4 H4) as T. cbn in T. lra. }
  assert (Hg : 0 < portal_gap (portal_count preset)) by (unfold VIRTUAL_W in *; nra).
  rewrite (tick_events_spec cfg cb dt b this w o Ho).
  set (o1 := fst (physics_step cfg dt b o)).
  assert (Hrad : radius o1 = radius o) by apply physics_step_radius.
  rewrite !filter_app, !length_app.
  assert (F1 : length (filter is_terminal (gate_events (gates b) o1)) = 0%nat).
  { generalize (gates b) as gs. intros gs. generalize o1 as o0.
    induction gs as [|g gs IH]; intros o0; cbn [gate_events]; [reflexivity|].
    destruct (Gate_checkPass g o0); [destruct (negb _)|]; cbn; auto. }
  assert (F2 : (length (filter is_terminal (portal_events (portals b) o1))
                <= length (portal_events (portals b) o1))%nat) by apply filter_length_le.
  assert (F3 : (length (portal_events (portals b) o1) <= 1)%nat).
  { unfold portal_events. rewrite length_map, Hp.
    apply gen_portals_at_most_one; [exact Hg | lra]. }
  assert (F4 : (length (filter is_terminal (miss_events o1))
                <= length (miss_events o1))%nat) by apply filter_length_le.
  destruct (portal_events (portals b) o1) as [|ev evs] eqn:Epe.
  - unfold miss_events in *. destruct (JS.gtb _ _); cbn in *; lia.
  - assert (Hno : miss_events o1 = []).
    { assert (Hev : exists k, In (PortalEntered k) (portal_events (portals b) o1)).
      { unfold portal_events in Epe |- *.
        destruct (filter _ (portals b)) as [|p l]; [discriminate|].
        exists (kind p). now left. }
      destruct Hev as [k Hk]. apply in_portal_events in Hk. destruct Hk as (p & Hin & Hcp).
      pose proof (new_Board_portals cfg seed0 b Hb) as Hgeo.
      rewrite Forall_forall in Hgeo. destruct (Hgeo p Hin) as [Hy Hh].
      unfold Portal_contains in Hcp. apply andb_prop in Hcp. destruct Hcp as [_ Hcp].
      apply JSFacts.leb_true in Hcp. rewrite Hy, Hh in Hcp.
      unfold miss_events.
      rewrite (proj2 (JSFacts.gtb_false _ _)); [reflexivity|].
      rewrite Hrad. unfold VIRTUAL_H in *. lra. }
    rewrite Hno in *. cbn [filter length] in *. lia.
Qed.

Lemma generated_board_one_terminal_call_witness :
  new_Board sample_config 0 = Some (board_of_seed_0 sample_preset) /\
  (length (portals (board_of_seed_0 sample_preset)) <= 4)%nat /\
  heap low_world 0%nat = Some low_orb /\
  0 <= radius low_orb /\
  (length (filter is_terminal
             (tick_events sample_config (Board_prototype sample_config) 0.016
                (board_of_seed_0 sample_preset) 0 low_world)) <= 1)%nat.
Proof.
  assert (H4 : (length (portals (board_of_seed_0 sample_preset)) <= 4)%nat).
  { unfold board_of_seed_0. cbn [portals]. rewrite gen_portals_length. cbn. lia. }
  assert (Hr : 0 <= radius low_orb) by (cbn; lra).
  split; [exact sample_board_generated|]. split; [exact H4|].
  split; [reflexivity|]. split; [exact Hr|].
  apply (generated_board_one_terminal_call sample_config (Board_prototype sample_config)
           0 (board_of_seed_0 sample_preset) 0.016 0 low_world low_orb
           sample_board_generated H4 eq_refl Hr).
Defined.
